(** * Quail: numerical fluxes, boundary conditions and time steppers

    A shallow embedding of
    - [quail/physics/euler/functions.py] (the Lax-Friedrichs, Roe and HLLC
      numerical fluxes and the Euler boundary conditions) and
    - [src/numerics/timestepping/stepper.py] (the explicit steppers and the
      Strang and Simpler operator splittings).

    The Python code computes on numpy arrays of binary64 numbers.  The
    embedding is written once over an abstract scalar type ([Scalar]); it is
    instantiated with the real numbers, over which the algebraic properties
    are proved (exact arithmetic), and with the kernel's binary64 numbers,
    over which the very same definitions run on concrete inputs, NaN
    included. *)

From Stdlib Require Import Floats String.
From Stdlib Require Import ZArith Reals Lra Lia List Bool.
Import ListNotations.
Open Scope string_scope.
Open Scope list_scope.

Set Implicit Arguments.

(** * Part I: the program *)

(** ** Scalars *)

(** The arithmetic the source uses on array entries.  [sleb], [sltb] are
    Python's [<=] and [<]; [a > b] is written [sltb b a].  [sofZ] gives the
    integer-valued literals; a decimal literal is the quotient of two of
    them. *)
Class Scalar (T : Type) := {
  sofZ : Z -> T;
  s0 : T;
  s1 : T;
  s2 : T;
  shalf : T;
  sadd : T -> T -> T;
  ssub : T -> T -> T;
  smul : T -> T -> T;
  sdiv : T -> T -> T;
  sopp : T -> T;
  ssqrt : T -> T;
  sabs : T -> T;
  sleb : T -> T -> bool;
  sltb : T -> T -> bool;
  sisnan : T -> bool
}.

Declare Scope scalar_scope.
Delimit Scope scalar_scope with s.
Infix "+" := sadd : scalar_scope.
Infix "-" := ssub : scalar_scope.
Infix "*" := smul : scalar_scope.
Infix "/" := sdiv : scalar_scope.
Notation "- x" := (sopp x) : scalar_scope.
Infix "<=?" := sleb : scalar_scope.
Infix "<?" := sltb : scalar_scope.

Definition Rleb (x y : R) : bool := if Rle_dec x y then true else false.

Definition Rltb (x y : R) : bool := if Rlt_dec x y then true else false.

(** Exact arithmetic: no NaN. *)
#[export] Instance Scalar_R : Scalar R := {|
  sofZ := IZR;
  s0 := 0%R;
  s1 := 1%R;
  s2 := 2%R;
  shalf := (1 / 2)%R;
  sadd := Rplus;
  ssub := Rminus;
  smul := Rmult;
  sdiv := Rdiv;
  sopp := Ropp;
  ssqrt := sqrt;
  sabs := Rabs;
  sleb := Rleb;
  sltb := Rltb;
  sisnan := fun _ => false
|}.

(** An integer as a binary64 number (exact below [2^53]). *)
Fixpoint float_of_pos (n : positive) : float :=
  match n with
  | xH => 1%float
  | xO q => PrimFloat.mul 2%float (float_of_pos q)
  | xI q => PrimFloat.add (PrimFloat.mul 2%float (float_of_pos q)) 1%float
  end.

Definition float_of_Z (z : Z) : float :=
  match z with
  | Z0 => 0%float
  | Zpos n => float_of_pos n
  | Zneg n => PrimFloat.opp (float_of_pos n)
  end.

(** IEEE 754 binary64, as numpy's float64. *)
#[export] Instance Scalar_float : Scalar float := {|
  sofZ := float_of_Z;
  s0 := 0%float;
  s1 := 1%float;
  s2 := 2%float;
  shalf := 0.5%float;
  sadd := PrimFloat.add;
  ssub := PrimFloat.sub;
  smul := PrimFloat.mul;
  sdiv := PrimFloat.div;
  sopp := PrimFloat.opp;
  ssqrt := PrimFloat.sqrt;
  sabs := PrimFloat.abs;
  sleb := PrimFloat.leb;
  sltb := PrimFloat.ltb;
  sisnan := PrimFloat.is_nan
|}.

(** ** Arrays

    An array of shape [[nf, nq, k]] is a [Batch]: a list (faces) of lists
    (quadrature points) of vectors (last axis).  Arrays of shape
    [[nf, nq, 1]] (numpy's [keepdims=True]) are batches of scalars;
    broadcasting along the last axis is the scalar-vector operations
    below. *)

Definition Batch (A : Type) : Type := list (list A).

Fixpoint map2 {A B C : Type} (f : A -> B -> C) (l : list A) (m : list B) : list C :=
  match l, m with
  | a :: l', b :: m' => f a b :: map2 f l' m'
  | _, _ => []
  end.

Fixpoint map3 {A B C D : Type} (f : A -> B -> C -> D)
  (l : list A) (m : list B) (k : list C) : list D :=
  match l, m, k with
  | a :: l', b :: m', c :: k' => f a b c :: map3 f l' m' k'
  | _, _, _ => []
  end.

Definition bmap {A B : Type} (f : A -> B) (X : Batch A) : Batch B :=
  map (map f) X.

Definition bmap2 {A B C : Type} (f : A -> B -> C) (X : Batch A) (Y : Batch B) : Batch C :=
  map2 (map2 f) X Y.

Definition bmap3 {A B C D : Type} (f : A -> B -> C -> D)
  (X : Batch A) (Y : Batch B) (Z : Batch C) : Batch D :=
  map3 (map3 f) X Y Z.

(** [np.any] over a boolean array. *)
Definition bany {A : Type} (f : A -> bool) (X : Batch A) : bool :=
  existsb (existsb f) X.

(** Entry [(i, j)] of a batch. *)
Definition bnth {A : Type} (X : Batch A) (i j : nat) : option A :=
  match nth_error X i with
  | Some row => nth_error row j
  | None => None
  end.

(** A Python slice [start:stop] of the last axis. *)
Record Slice : Type := { start : nat; stop : nat }.

Definition get_slice {A : Type} (s : Slice) (v : list A) : list A :=
  firstn (stop s - start s) (skipn (start s) v).

(** [v[s] = w], for [w] of the slice's width. *)
Definition set_slice {A : Type} (s : Slice) (v w : list A) : list A :=
  firstn (start s) v ++ w ++ skipn (stop s) v.

(** [v[i] = x] for an index in range. *)
Fixpoint upd {A : Type} (i : nat) (x : A) (v : list A) : list A :=
  match v, i with
  | [], _ => []
  | _ :: v', O => x :: v'
  | a :: v', S i' => a :: upd i' x v'
  end.

(** [v[lo:hi] = x], the scalar [x] broadcast over the slice. *)
Fixpoint fill_slice {A : Type} (lo hi : nat) (x : A) (v : list A) : list A :=
  match v with
  | [] => []
  | a :: v' =>
      (if Nat.eqb lo 0 && negb (Nat.eqb hi 0) then x else a)
        :: fill_slice (pred lo) (pred hi) x v'
  end.

(** Python's index [-1] of a list. *)
Definition last_index {A : Type} (v : list A) : nat := length v - 1.

(** [M[i, j] = x] *)
Definition upd2 {A : Type} (i j : nat) (x : A) (M : list (list A)) : list (list A) :=
  match nth_error M i with
  | Some row => upd i (upd j x row) M
  | None => M
  end.

Definition Vec (T : Type) : Type := list T.

Section Vectors.
Context {T : Type} {ST : Scalar T}.
Local Open Scope scalar_scope.

(** [np.sum(v, axis=2)] *)
Definition vsum (v : Vec T) : T := fold_left sadd v s0.

(** [np.sum(u*v, axis=2)] *)
Definition dot (u v : Vec T) : T := vsum (map2 smul u v).

(** [np.linalg.norm(v, axis=2)] *)
Definition norm (v : Vec T) : T := ssqrt (dot v v).

Definition vadd (u v : Vec T) : Vec T := map2 sadd u v.

Definition vsub (u v : Vec T) : Vec T := map2 ssub u v.

Definition vmul (u v : Vec T) : Vec T := map2 smul u v.

Definition vdiv (u v : Vec T) : Vec T := map2 sdiv u v.

Definition vneg (v : Vec T) : Vec T := map sopp v.

(** scalar [a] (shape [[nf, nq, 1]]) times vector *)
Definition vscale (a : T) (v : Vec T) : Vec T := map (smul a) v.

(** vector times scalar *)
Definition vmuls (v : Vec T) (a : T) : Vec T := map (fun x => x * a) v.

(** vector divided by scalar *)
Definition vdivs (v : Vec T) (a : T) : Vec T := map (fun x => x / a) v.

(** [np.minimum], [np.maximum]: a NaN operand is returned. *)
Definition minimum (a b : T) : T :=
  if sisnan a then a else if sisnan b then b else if b <? a then b else a.

Definition maximum (a b : T) : T :=
  if sisnan a then a else if sisnan b then b else if a <? b then b else a.

End Vectors.

(** ** Errors *)

Inductive Error : Type :=
| NotPhysicalError (msg : string).

Inductive Result (A : Type) : Type :=
| Ok (a : A)
| Raise (err : Error).

Arguments Ok {A} a.
Arguments Raise {A} err.

(** ** The physics object

    [quail/physics/euler/euler.py] and [quail/physics/base/thermo.py] are
    not among the sources: the flux functions and boundary conditions
    receive the physics object as an argument, and it is an argument here.
    Every method acts point by point on the last axis. *)

Module thermo.
Section Thermo.
Context {T : Type}.

(** The fields of [physics.thermo] that the sources read, at one point. *)
Record t : Type := {
  rho : T;
  p : T;
  c : T;
  gamma : T;
  Y : list T;
  e : T
}.

End Thermo.
Arguments t T : clear implicits.
End thermo.

Section PhysicsInterface.
Context {T : Type} {ST : Scalar T}.
Local Open Scope scalar_scope.

Record Physics : Type := {
  NDIMS : nat;
  (** [physics.get_state_slice(name)] *)
  get_state_slice : string -> Slice;
  (** [physics.get_state_slices()]: densities, momentum, energy *)
  get_state_slices : Slice * Slice * Slice;
  (** [physics.set_thermo_state(Uq)] followed by reads of [physics.thermo] *)
  set_thermo_state : Vec T -> thermo.t T;
  (** [physics.velocity], after [set_thermo_state(Uq)] *)
  velocity : Vec T -> Vec T;
  (** [physics.compute_variable("TotalEnthalpy", Uq)] *)
  TotalEnthalpy : Vec T -> T;
  (** the analytic flux [F[k][d]] of [physics.get_conv_flux_interior(Uq)] *)
  get_conv_flux_interior : Vec T -> list (Vec T);
  (** [physics.compute_variable("Densities", Uq)] *)
  Densities : Vec T -> Vec T;
  (** [physics.compute_variable("Temperature", Uq)] *)
  Temperature : Vec T -> T;
  (** [physics.compute_variable("Pressure", Uq)] *)
  Pressure : Vec T -> T;
  (** [physics.thermo.set_state_from_rhoi_T(rhoi, T)], then [physics.thermo] *)
  set_state_from_rhoi_T : Vec T -> T -> thermo.t T;
  (** [physics.thermo.set_state_from_Y_T_p(Y, T, p)], then [physics.thermo] *)
  set_state_from_Y_T_p : Vec T -> T -> T -> thermo.t T
}.

(** The analytic interior flux projected on a vector [n]:
    [einsum('ijkl, ijl -> ijk', F, n)]. *)
Definition project_flux (F : list (Vec T)) (n : Vec T) : Vec T :=
  map (fun Fk => dot Fk n) F.

(** Modelled from the spec: [physics.get_conv_flux_projected] (missing with
    euler.py) is "the analytic interior flux projected onto the normal"; the
    callers unpack its result as [F, (velocity, thermo)]. *)
Definition get_conv_flux_projected (physics : Physics) (Uq normals : Vec T)
  : Vec T * (Vec T * thermo.t T) :=
  (project_flux (get_conv_flux_interior physics Uq) normals,
   (velocity physics Uq, set_thermo_state physics Uq)).

End PhysicsInterface.
Arguments Physics T : clear implicits.

(** ** Lax-Friedrichs flux: [class LaxFriedrichs] *)

Module LaxFriedrichs.
Section LaxFriedrichs.
Context {T : Type} {ST : Scalar T}.
Local Open Scope scalar_scope.

(** The body of [compute_flux] at one quadrature point. *)
Definition compute_flux_point (physics : Physics T) (UqL UqR normals : Vec T) : Vec T :=
  (* Normalize the normal vectors *)
  let n_mag := norm normals in
  let n_hat := vdivs normals n_mag in
  (* Left flux *)
  let '(FqL, (uLvec, thermoL)) := get_conv_flux_projected physics UqL n_hat in
  let aL := thermo.c thermoL + norm uLvec in
  (* Right flux *)
  let '(FqR, (uRvec, thermoR)) := get_conv_flux_projected physics UqR n_hat in
  let aR := thermo.c thermoR + norm uRvec in
  (* Jump *)
  let dUq := vsub UqR UqL in
  (* Max wave speeds at each point: idx = aR > aL; aL[idx] = aR[idx] *)
  let aL := if aL <? aR then aR else aL in
  (* Put together *)
  vscale (shalf * n_mag) (vsub (vadd FqL FqR) (vscale aL dUq)).

Definition compute_flux (physics : Physics T) (UqL UqR normals : Batch (Vec T)) : Batch (Vec T) :=
  bmap3 (compute_flux_point physics) UqL UqR normals.

End LaxFriedrichs.
End LaxFriedrichs.

(** ** Roe flux: [class Roe1D] and [class Roe2D] *)

Module Roe.
Section Roe.
Context {T : Type} {ST : Scalar T}.
Local Open Scope scalar_scope.

(** The methods that [Roe2D] overrides; [compute_flux] calls them through
    [self].  The helper arrays [self.alphas], [self.evals] and [self.R] are
    allocated as zeros by [compute_flux] and handed to the methods here. *)
Record Methods : Type := {
  rotate_coord_sys : Slice -> Vec T -> Vec T -> Vec T;
  undo_rotate_coord_sys : Slice -> Vec T -> Vec T -> Vec T;
  get_alphas : Vec T -> T -> T -> T -> Vec T -> T -> T -> Vec T;
  get_eigenvalues : Vec T -> Vec T -> T -> Vec T;
  get_right_eigenvectors : list (Vec T) -> T -> Vec T -> Vec T -> T -> list (Vec T)
}.

(** [Roe1D.rotate_coord_sys]: [Uq[:, :, srhou] *= n] *)
Definition rotate_coord_sys_1D (srhou : Slice) (Uq n : Vec T) : Vec T :=
  set_slice srhou Uq (vmul (get_slice srhou Uq) n).

(** [Roe1D.undo_rotate_coord_sys]: [Uq[:, :, srhou] /= n] *)
Definition undo_rotate_coord_sys_1D (srhou : Slice) (Uq n : Vec T) : Vec T :=
  set_slice srhou Uq (vdiv (get_slice srhou Uq) n).

Definition roe_average_state (rhoL rhoR : T) (YL YR velL velR : Vec T) (HL HR : T)
  : T * Vec T * Vec T * T :=
  let rhoL_sqrt := ssqrt rhoL in
  let rhoR_sqrt := ssqrt rhoR in
  let denom := s1 / (rhoL_sqrt + rhoR_sqrt) in
  let YRoe := vmuls (vadd (vscale rhoL_sqrt YL) (vscale rhoR_sqrt YR)) denom in
  let velRoe := vmuls (vadd (vscale rhoL_sqrt velL) (vscale rhoR_sqrt velR)) denom in
  let rhoRoe := rhoL_sqrt * rhoR_sqrt in
  let HRoe := (rhoL_sqrt * HL + rhoR_sqrt * HR) * denom in
  (rhoRoe, YRoe, velRoe, HRoe).

Definition get_differences (rhoL rhoR : T) (YL YR velL velR : Vec T) (pL pR : T)
  : Vec T * Vec T * T :=
  let drhoY := vsub (vscale rhoR YR) (vscale rhoL YL) in
  let dvel := vsub velR velL in
  let dp := pR - pL in
  (drhoY, dvel, dp).

(** [Roe1D.get_alphas] *)
Definition get_alphas_1D (alphas : Vec T) (c c2 dp : T) (dvel : Vec T) (drho rhoRoe : T)
  : Vec T :=
  let alphas := upd 0 (shalf / c2 * (dp - c * rhoRoe * nth 0 dvel s0)) alphas in
  let alphas := fill_slice 1 (last_index alphas) (drho - dp / c2) alphas in
  let alphas :=
    upd (last_index alphas) (shalf / c2 * (dp + c * rhoRoe * nth 0 dvel s0)) alphas in
  alphas.

(** [Roe1D.get_eigenvalues] *)
Definition get_eigenvalues_1D (evals velRoe : Vec T) (c : T) : Vec T :=
  let evals := upd 0 (nth 0 velRoe s0 - c) evals in
  let evals := fill_slice 1 (last_index evals) (nth 0 velRoe s0) evals in
  let evals := upd (last_index evals) (nth 0 velRoe s0 + c) evals in
  evals.

(** [Roe1D.get_right_eigenvectors]; [R[k][l]] is row [k], column [l]. *)
Definition get_right_eigenvectors_1D (R : list (Vec T)) (c : T) (evals velRoe : Vec T)
  (HRoe : T) : list (Vec T) :=
  let last := last_index R in
  (* first row *)
  let R := upd2 0 0 s1 R in
  let R := upd2 0 1 s1 R in
  let R := upd2 0 last s1 R in
  (* second row *)
  let R := upd2 1 0 (nth 0 evals s0) R in
  let R := upd2 1 1 (nth 0 velRoe s0) R in
  let R := upd2 1 last (nth (last_index evals) evals s0) R in
  (* last row *)
  let R := upd2 last 0 (HRoe - nth 0 velRoe s0 * c) R in
  let R := upd2 last 1 (shalf * dot velRoe velRoe) R in
  let R := upd2 last last (HRoe + nth 0 velRoe s0 * c) R in
  R.

Definition Roe1D : Methods := {|
  rotate_coord_sys := rotate_coord_sys_1D;
  undo_rotate_coord_sys := undo_rotate_coord_sys_1D;
  get_alphas := get_alphas_1D;
  get_eigenvalues := get_eigenvalues_1D;
  get_right_eigenvectors := get_right_eigenvectors_1D
|}.

(** [Roe2D.rotate_coord_sys]; [self.vel] is overwritten by the momentum
    first, then entry by entry. *)
Definition rotate_coord_sys_2D (srhou : Slice) (Uq n : Vec T) : Vec T :=
  let vel := get_slice srhou Uq in
  let vel := upd 0 (vsum (vmul (get_slice srhou Uq) n)) vel in
  let vel :=
    upd 1 (vsum (vmul (vmul (get_slice srhou Uq) (rev n)) [- s1; s1])) vel in
  set_slice srhou Uq vel.

(** [Roe2D.undo_rotate_coord_sys] *)
Definition undo_rotate_coord_sys_2D (srhou : Slice) (Uq n : Vec T) : Vec T :=
  let vel := get_slice srhou Uq in
  let vel := upd 0 (vsum (vmul (vmul (get_slice srhou Uq) n) [s1; - s1])) vel in
  let vel := upd 1 (vsum (vmul (get_slice srhou Uq) (rev n))) vel in
  set_slice srhou Uq vel.

(** [Roe2D.get_alphas] *)
Definition get_alphas_2D (alphas : Vec T) (c c2 dp : T) (dvel : Vec T) (drho rhoRoe : T)
  : Vec T :=
  let alphas := get_alphas_1D alphas c c2 dp dvel drho rhoRoe in
  upd 2 (rhoRoe * nth (last_index dvel) dvel s0) alphas.

(** [Roe2D.get_eigenvalues] *)
Definition get_eigenvalues_2D (evals velRoe : Vec T) (c : T) : Vec T :=
  let evals := get_eigenvalues_1D evals velRoe c in
  upd 2 (nth 0 velRoe s0) evals.

(** [Roe2D.get_right_eigenvectors] *)
Definition get_right_eigenvectors_2D (R : list (Vec T)) (c : T) (evals velRoe : Vec T)
  (HRoe : T) : list (Vec T) :=
  let R := get_right_eigenvectors_1D R c evals velRoe HRoe in
  let last := last_index R in
  let vlast := nth (last_index velRoe) velRoe s0 in
  let i := 2%nat in
  (* First row *)
  let R := upd2 0 i s0 R in
  (* Second row *)
  let R := upd2 1 i s0 R in
  (* Last (fourth) row *)
  let R := upd2 last i vlast R in
  (* Third row *)
  let R := upd2 i 0 vlast R in
  let R := upd2 i 1 vlast R in
  let R := upd2 i last vlast R in
  let R := upd2 i i s1 R in
  R.

Definition Roe2D : Methods := {|
  rotate_coord_sys := rotate_coord_sys_2D;
  undo_rotate_coord_sys := undo_rotate_coord_sys_2D;
  get_alphas := get_alphas_2D;
  get_eigenvalues := get_eigenvalues_2D;
  get_right_eigenvectors := get_right_eigenvectors_2D
|}.

Section ComputeFlux.
Variable self : Methods.
Variable physics : Physics T.

(** Unit normal: [n_hat = normals/n_mag] *)
Definition n_hat (normals : Vec T) : Vec T := vdivs normals (norm normals).

(** The copy of a state in the rotated coordinate system. *)
Definition rotated (Uq_std normals : Vec T) : Vec T :=
  rotate_coord_sys self (get_state_slice physics "Momentum") Uq_std (n_hat normals).

(** [rhoL] (resp. [rhoR]): the density of the rotated state. *)
Definition density (Uq_std normals : Vec T) : T :=
  thermo.rho (set_thermo_state physics (rotated Uq_std normals)).

(** The Roe-averaged state at one point. *)
Definition roe_state (UqL_std UqR_std normals : Vec T) : T * Vec T * Vec T * T :=
  let UqL := rotated UqL_std normals in
  let UqR := rotated UqR_std normals in
  let thL := set_thermo_state physics UqL in
  let thR := set_thermo_state physics UqR in
  roe_average_state (thermo.rho thL) (thermo.rho thR) (thermo.Y thL) (thermo.Y thR)
    (velocity physics UqL) (velocity physics UqR)
    (TotalEnthalpy physics UqL) (TotalEnthalpy physics UqR).

(** Speed of sound squared from the Roe-averaged state; [gamma] is read
    from [physics.thermo] once the left state has been set. *)
Definition c2_point (UqL_std UqR_std normals : Vec T) : T :=
  let gamma := thermo.gamma (set_thermo_state physics (rotated UqL_std normals)) in
  let '(rhoRoe, YRoe, velRoe, HRoe) := roe_state UqL_std UqR_std normals in
  (gamma - s1) * (HRoe - shalf * dot velRoe velRoe).

(** The rest of [compute_flux] at one point, past the checks. *)
Definition flux_point (UqL_std UqR_std normals : Vec T) : Vec T :=
  let ns := length UqL_std in
  let alphas := repeat s0 ns in
  let evals := repeat s0 ns in
  let R := repeat (repeat s0 ns) ns in
  let srhou := get_state_slice physics "Momentum" in
  let n_mag := norm normals in
  let UqL := rotated UqL_std normals in
  let UqR := rotated UqR_std normals in
  let thL := set_thermo_state physics UqL in
  let thR := set_thermo_state physics UqR in
  let '(rhoRoe, YRoe, velRoe, HRoe) := roe_state UqL_std UqR_std normals in
  let c2 := c2_point UqL_std UqR_std normals in
  let c := ssqrt c2 in
  (* Jumps *)
  let '(drhoY, dvel, dp) :=
    get_differences (thermo.rho thL) (thermo.rho thR) (thermo.Y thL) (thermo.Y thR)
      (velocity physics UqL) (velocity physics UqR) (thermo.p thL) (thermo.p thR) in
  let drho := vsum drhoY in
  (* alphas (left eigenvectors multiplied by dU) *)
  let alphas := get_alphas self alphas c c2 dp dvel drho rhoRoe in
  (* Eigenvalues *)
  let evals := get_eigenvalues self evals velRoe c in
  (* Right eigenvector matrix *)
  let R := get_right_eigenvectors self R c evals velRoe HRoe in
  (* Form flux Jacobian matrix multiplied by dU *)
  let FRoe := map (fun Rk => dot Rk (vmul (map sabs evals) alphas)) R in
  (* Undo rotation *)
  let FRoe := undo_rotate_coord_sys self srhou FRoe (n_hat normals) in
  (* Left flux *)
  let FL := fst (get_conv_flux_projected physics UqL_std (n_hat normals)) in
  (* Right flux *)
  let FR := fst (get_conv_flux_projected physics UqR_std (n_hat normals)) in
  vscale (shalf * n_mag) (vsub (vadd FL FR) FRoe).

(** [compute_flux]: the three [np.any] checks run over the whole batch, in
    this order, before any flux is returned. *)
Definition compute_flux (UqL_std UqR_std normals : Batch (Vec T)) : Result (Batch (Vec T)) :=
  let rhoL := bmap2 density UqL_std normals in
  if bany (fun r => r <=? s0) rhoL then
    Raise (NotPhysicalError "rhoL is negative")
  else
    let rhoR := bmap2 density UqR_std normals in
    if bany (fun r => r <=? s0) rhoR then
      Raise (NotPhysicalError "rhoR is negative")
    else
      let c2 := bmap3 c2_point UqL_std UqR_std normals in
      if bany (fun x => x <=? s0) c2 then
        let error := if bany sisnan c2 then "NaN" else "negative" in
        Raise (NotPhysicalError (String.append "Speed of sound is " error))
      else
        Ok (bmap3 flux_point UqL_std UqR_std normals).

End ComputeFlux.
End Roe.
End Roe.

(** ** HLLC flux: [class HLLC] *)

Module HLLC.
Section HLLC.
Context {T : Type} {ST : Scalar T}.
Local Open Scope scalar_scope.

Definition get_wave_speeds_roe (rhoL rhoR aL aR pL pR uL uR gL gR : T) : T * T :=
  let a2L := aL * aL in
  let a2R := aR * aR in
  let rhoL_sqrt := ssqrt rhoL in
  let rhoR_sqrt := ssqrt rhoR in
  let denom := s1 / (rhoL_sqrt + rhoR_sqrt) in
  let uRoe := (rhoL_sqrt * uL + rhoR_sqrt * uR) * denom in
  let aRoe :=
    ssqrt ((rhoL_sqrt * a2L + rhoR_sqrt * a2R) * denom +
           shalf * (rhoL_sqrt * rhoR_sqrt * ((uR - uL) * (uR - uL))) * (denom * denom)) in
  let SL := uRoe - aRoe in
  let SR := uRoe + aRoe in
  (SL, SR).

(** Primitive-Variable Riemann Solver (PVRS).  [qL] starts as ones and is
    overwritten at the points where [p_pvrs > pL]; likewise [qR]. *)
Definition get_wave_speeds_pvrs (rhoL rhoR aL aR pL pR uL uR gL gR : T) : T * T :=
  let rho_avg := shalf * (rhoL + rhoR) in
  let a_avg := shalf * (aL + aR) in
  let p_pvrs := shalf * (pL + pR - (uR - uL) * rho_avg * a_avg) in
  (* Left wave speed *)
  let qL :=
    if pL <? p_pvrs
    then ssqrt (s1 + (gL + s1) / (s2 * gL) * (p_pvrs / pL - s1))
    else s1 in
  let SL := uL - aL * qL in
  (* Right wave speed *)
  let qR :=
    if pR <? p_pvrs
    then ssqrt (s1 + (gR + s1) / (s2 * gR) * (p_pvrs / pR - s1))
    else s1 in
  let SR := uR + aR * qR in
  (SL, SR).

(** [estimators = [get_wave_speeds_roe, get_wave_speeds_pvrs]], folded
    with [np.minimum] and [np.maximum] from [uL-aL, uR+aR]. *)
Definition get_wave_speeds (rhoL rhoR aL aR pL pR uL uR gL gR : T) : T * T :=
  fold_left
    (fun '(SL, SR) (estimator : T -> T -> T -> T -> T -> T -> T -> T -> T -> T -> T * T) =>
       let '(SLtemp, SRtemp) := estimator rhoL rhoR aL aR pL pR uL uR gL gR in
       (minimum SL SLtemp, maximum SR SRtemp))
    [get_wave_speeds_roe; get_wave_speeds_pvrs]
    (uL - aL, uR + aR).

(** The body of [compute_flux] at one quadrature point.  The boolean
    masks of the source ([np.where]) are the conditionals here. *)
Definition compute_flux_point (physics : Physics T) (UqL UqR normals : Vec T) : Vec T :=
  (* Normalize the normal vectors *)
  let n_mag := norm normals in
  let n_hat := vdivs normals n_mag in
  (* Left flux *)
  let '(FqL, (uLvec, thermoL)) := get_conv_flux_projected physics UqL n_hat in
  let uL := dot uLvec n_hat in
  let u2L := dot uLvec uLvec in
  let rhoL := thermo.rho thermoL in
  let pL := thermo.p thermoL in
  let aL := thermo.c thermoL in
  let gL := thermo.gamma thermoL in
  let YL := thermo.Y thermoL in
  let eL := thermo.e thermoL in
  (* Right flux *)
  let '(FqR, (uRvec, thermoR)) := get_conv_flux_projected physics UqR n_hat in
  let uR := dot uRvec n_hat in
  let u2R := dot uRvec uRvec in
  let rhoR := thermo.rho thermoR in
  let pR := thermo.p thermoR in
  let aR := thermo.c thermoR in
  let gR := thermo.gamma thermoR in
  let YR := thermo.Y thermoR in
  let eR := thermo.e thermoR in
  (* Estimate the wave speeds *)
  let '(SL, SR) := get_wave_speeds rhoL rhoR aL aR pL pR uL uR gL gR in
  (* Initialize flux to left flux *)
  let F := FqL in
  (* Set points where SR <= 0 to right flux *)
  let F := if SR <=? s0 then FqR else F in
  (* Downselect to points where SL < 0 < SR *)
  if (SL <? s0) && (s0 <? SR) then
    (* Shear wave speed, from the left values *)
    let alphaL := rhoL * (SL - uL) in
    let alphaR := rhoR * (SR - uR) in
    let Sstar := (pR - pL + uL * alphaL - uR * alphaR) / (alphaL - alphaR) in
    (* Overwrite values with right side where S* < 0 *)
    let right := Sstar <? s0 in
    let Sk := if right then SR else SL in
    let pk := if right then pR else pL in
    let uk := if right then uR else uL in
    let u2k := if right then u2R else u2L in
    let Yk := if right then YR else YL in
    let ek := if right then eR else eL in
    let vk := if right then uRvec else uLvec in
    let Uk := if right then UqR else UqL in
    let F := if right then FqR else F in
    let alphak := if right then alphaR else alphaL in
    (* Combine to get overall flux *)
    let rhokstar := alphak / (Sk - Sstar) in
    let C := (Sstar - uk) * (Sstar + pk / alphak) in
    let vk := vadd vk (vmuls n_hat (Sstar - dot vk n_hat)) in
    let Ustar := vscale rhokstar (Yk ++ vk ++ [ek + shalf * u2k + C]) in
    let dF := vscale Sk (vsub Ustar Uk) in
    vscale n_mag (vadd F dF)
  else
    vscale n_mag F.

Definition compute_flux (physics : Physics T) (UqL UqR normals : Batch (Vec T)) : Batch (Vec T) :=
  bmap3 (compute_flux_point physics) UqL UqR normals.

End HLLC.
End HLLC.

(** ** The flux classes behind one interface

    [ConvNumFluxBase.compute_flux] is the method the solver calls; the
    classes of functions.py implement it. *)

Inductive ConvNumFlux : Type :=
| FluxLaxFriedrichs
| FluxRoe1D
| FluxRoe2D
| FluxHLLC.

Definition compute_flux {T : Type} {ST : Scalar T} (fcn : ConvNumFlux)
  (physics : Physics T) (UqL UqR normals : Batch (Vec T)) : Result (Batch (Vec T)) :=
  match fcn with
  | FluxLaxFriedrichs => Ok (LaxFriedrichs.compute_flux physics UqL UqR normals)
  | FluxRoe1D => Roe.compute_flux Roe.Roe1D physics UqL UqR normals
  | FluxRoe2D => Roe.compute_flux Roe.Roe2D physics UqL UqR normals
  | FluxHLLC => Ok (HLLC.compute_flux physics UqL UqR normals)
  end.

(** ** Euler equations of a calorically perfect gas *)

Section Euler.
Context {T : Type} {ST : Scalar T}.
Local Open Scope scalar_scope.
Variable gamma : T.
Variable Rgas : T.
Variable ndims : nat.

Definition euler_srho : Slice := {| start := 0; stop := 1 |}.

Definition euler_srhou : Slice := {| start := 1; stop := 1 + ndims |}.

Definition euler_srhoE : Slice := {| start := 1 + ndims; stop := 2 + ndims |}.

Definition euler_rho (Uq : Vec T) : T := nth 0 Uq s0.

Definition euler_mom (Uq : Vec T) : Vec T := get_slice euler_srhou Uq.

Definition euler_rhoE (Uq : Vec T) : T := nth (1 + ndims) Uq s0.

Definition euler_velocity (Uq : Vec T) : Vec T := vdivs (euler_mom Uq) (euler_rho Uq).

(** [rhoE = P/(gamma - 1) + 0.5*rho*u*u], solved for [P] *)
Definition euler_pressure (Uq : Vec T) : T :=
  (gamma - s1) * (euler_rhoE Uq - shalf * dot (euler_mom Uq) (euler_mom Uq) / euler_rho Uq).

Definition euler_thermo (Uq : Vec T) : thermo.t T := {|
  thermo.rho := euler_rho Uq;
  thermo.p := euler_pressure Uq;
  thermo.c := ssqrt (gamma * euler_pressure Uq / euler_rho Uq);
  thermo.gamma := gamma;
  thermo.Y := [s1];
  thermo.e := euler_pressure Uq / ((gamma - s1) * euler_rho Uq)
|}.

(** Ideal gas: [p = rho*R*T], [e = R*T/(gamma - 1)], [c = sqrt(gamma*R*T)]. *)
Definition euler_from_rhoi_T (rhoi : Vec T) (Temp : T) : thermo.t T := {|
  thermo.rho := vsum rhoi;
  thermo.p := vsum rhoi * Rgas * Temp;
  thermo.c := ssqrt (gamma * Rgas * Temp);
  thermo.gamma := gamma;
  thermo.Y := vdivs rhoi (vsum rhoi);
  thermo.e := Rgas * Temp / (gamma - s1)
|}.

Definition euler_from_Y_T_p (Yi : Vec T) (Temp P : T) : thermo.t T := {|
  thermo.rho := P / (Rgas * Temp);
  thermo.p := P;
  thermo.c := ssqrt (gamma * Rgas * Temp);
  thermo.gamma := gamma;
  thermo.Y := Yi;
  thermo.e := Rgas * Temp / (gamma - s1)
|}.

(** Rows: density, momentum components, energy; columns: directions.
    [F[rho] = rho*u], [F[rhou] = rho*u*u + P], [F[rhoE] = (rhoE + P)*u]. *)
Definition euler_flux (Uq : Vec T) : list (Vec T) :=
  let vel := euler_velocity Uq in
  let P := euler_pressure Uq in
  [euler_mom Uq]
  ++ map (fun i =>
            map (fun d =>
                   let conv := nth i (euler_mom Uq) s0 * nth d vel s0 in
                   if Nat.eqb i d then conv + P else conv)
                (seq 0 ndims))
         (seq 0 ndims)
  ++ [map (fun u => (euler_rhoE Uq + P) * u) vel].

(** Modelled from the spec: the [Euler] physics of euler.py with the
    [CaloricallyPerfectGas] thermodynamics of thermo.py, neither among the
    sources; state layout (density, momentum, energy), pressure and flux
    are those that test_euler.py checks, the other quantities the ideal-gas
    relations with gas constant [Rgas]. *)
Definition Euler : Physics T := {|
  NDIMS := ndims;
  get_state_slice := fun name =>
    if String.eqb name "Momentum" then euler_srhou
    else if String.eqb name "Energy" then euler_srhoE
    else euler_srho;
  get_state_slices := (euler_srho, euler_srhou, euler_srhoE);
  set_thermo_state := euler_thermo;
  velocity := euler_velocity;
  TotalEnthalpy := fun Uq => (euler_rhoE Uq + euler_pressure Uq) / euler_rho Uq;
  get_conv_flux_interior := euler_flux;
  Densities := get_slice euler_srho;
  Temperature := fun Uq => euler_pressure Uq / (euler_rho Uq * Rgas);
  Pressure := euler_pressure;
  set_state_from_rhoi_T := euler_from_rhoi_T;
  set_state_from_Y_T_p := euler_from_Y_T_p
|}.

End Euler.


(** ** Boundary conditions

    numpy arrays are objects with identity: [UqI.copy()] makes a new one and
    slice assignments write into an existing one.  The boundary conditions
    run in a store of arrays; [UqI] and the returned [UqB] are references
    into it.  The arrays that are only read ([normals]) or are temporaries
    of an expression are values. *)

Module BC.
Section BC.
Context {T : Type} {ST : Scalar T}.
Local Open Scope scalar_scope.

Definition Arr : Type := Batch (Vec T).

Definition loc : Type := nat.

Definition Heap : Type := list Arr.

(** A computation returns or raises, and leaves a store either way. *)
Definition M (A : Type) : Type := Heap -> Result A * Heap.

Definition ret {A : Type} (a : A) : M A := fun h => (Ok a, h).

Definition bind {A B : Type} (m : M A) (k : A -> M B) : M B :=
  fun h =>
    match m h with
    | (Ok a, h') => k a h'
    | (Raise err, h') => (Raise err, h')
    end.

Definition raise {A : Type} (err : Error) : M A := fun h => (Raise err, h).

(** The contents of the array at [l] (an unallocated reference cannot
    arise; it reads as the empty array). *)
Definition read (l : loc) : M Arr := fun h => (Ok (nth l h []), h).

(** [a.copy()] *)
Definition copy (l : loc) : M loc :=
  fun h => (Ok (length h), h ++ [nth l h []]).

(** An assignment into the array at [l]. *)
Definition modify (l : loc) (f : Arr -> Arr) : M unit :=
  fun h => (Ok tt, upd l (f (nth l h [])) h).

Notation "x <- m ;; k" := (bind m (fun x => k))
  (at level 61, m at next level, right associativity).
Notation "m ;;; k" := (bind m (fun _ => k))
  (at level 61, right associativity).

Section WithPhysics.
Variable physics : Physics T.

(** Unit normals: [n_hat = normals/np.linalg.norm(normals, axis=2, keepdims=True)] *)
Definition unit_normals (normals : Arr) : Arr :=
  bmap (fun n => vdivs n (norm n)) normals.

(** *** [class SlipWall] *)

Definition SlipWall_get_boundary_state (UqI : loc) (normals : Arr) : M loc :=
  let srhou := get_state_slice physics "Momentum" in
  (* Unit normals *)
  let n_hat := unit_normals normals in
  (* Remove momentum contribution in normal direction from boundary state *)
  uI <- read UqI ;;
  let rhoveln := bmap2 (fun u nh => vsum (vmul (get_slice srhou u) nh)) uI n_hat in
  UqB <- copy UqI ;;
  modify UqB (fun uB =>
    bmap3 (fun u r nh => set_slice srhou u (vsub (get_slice srhou u) (vscale r nh)))
      uB rhoveln n_hat) ;;;
  ret UqB.

(** *** [class SlipWallRiemann] *)

Definition SlipWallRiemann_get_boundary_state (UqI : loc) (normals : Arr) : M loc :=
  let srhou := get_state_slice physics "Momentum" in
  let n_hat := unit_normals normals in
  uI <- read UqI ;;
  let rhoveln := bmap2 (fun u nh => vsum (vmul (get_slice srhou u) nh)) uI n_hat in
  UqB <- copy UqI ;;
  modify UqB (fun uB =>
    bmap3 (fun u r nh =>
             set_slice srhou u (vsub (get_slice srhou u) (vscale (s2 * r) nh)))
      uB rhoveln n_hat) ;;;
  ret UqB.

(** *** [class PressureOutlet]; [pB] is [self.p], [power] is [np.power] *)

Section PressureOutlet.
Variable power : T -> T -> T.
Variable pB : T.

(** Interior velocity in normal direction *)
Definition velnI (u nh : Vec T) : T := vsum (vmul (velocity physics u) nh).

(** Normal Mach number *)
Definition Mn (u nh : Vec T) : T := velnI u nh / thermo.c (set_thermo_state physics u).

(** Boundary density from interior entropy *)
Definition rhoB (u : Vec T) : T :=
  let th := set_thermo_state physics u in
  thermo.rho th * power (pB / thermo.p th) (s1 / thermo.gamma th).

(** Boundary velocity *)
Definition velB (u nh : Vec T) : Vec T :=
  let th := set_thermo_state physics u in
  let gamma := thermo.gamma th in
  let velI := velocity physics u in
  let JI := velnI u nh + s2 * thermo.c th / (gamma - s1) in
  (* Interior velocity in tangential direction *)
  let veltI := vsub velI (vscale (velnI u nh) nh) in
  (* Boundary speed of sound *)
  let cB := ssqrt (gamma * pB / rhoB u) in
  vadd (vscale (JI - s2 * cB / (gamma - s1)) nh) veltI.

(** Boundary energy *)
Definition rhoEB (u nh : Vec T) : T :=
  let gamma := thermo.gamma (set_thermo_state physics u) in
  let rhovel2B := rhoB u * vsum (map (fun v => v * v) (velB u nh)) in
  pB / (gamma - s1) + shalf * rhovel2B.

Definition PressureOutlet_get_boundary_state (UqI : loc) (normals : Arr) : M loc :=
  (* Unpack *)
  let '(srho, srhou, srhoE) := get_state_slices physics in
  uI <- read UqI ;;
  UqB <- copy UqI ;;
  (* Unit normals *)
  let n_hat := unit_normals normals in
  (* Interior pressure *)
  let pI := bmap (fun u => thermo.p (set_thermo_state physics u)) uI in
  if bany (fun x => x <? s0) pI then raise (NotPhysicalError EmptyString)
  else
    if bany (fun m => s1 <=? m) (bmap2 Mn uI n_hat) then
      (* If supersonic, then extrapolate interior to exterior *)
      ret UqB
    else
      modify UqB (fun uB =>
        bmap2 (fun b u => fill_slice (start srho) (stop srho) (rhoB u) b) uB uI) ;;;
      modify UqB (fun uB =>
        bmap3 (fun b u nh => set_slice srhou b (vscale (rhoB u) (velB u nh)))
          uB uI n_hat) ;;;
      modify UqB (fun uB =>
        bmap3 (fun b u nh => fill_slice (start srhoE) (stop srhoE) (rhoEB u nh) b)
          uB uI n_hat) ;;;
      ret UqB.

End PressureOutlet.

(** *** [class AdiabaticWall] *)

Definition AdiabaticWall_get_boundary_state (UqI : loc) (normals : Arr) : M loc :=
  UqB <- copy UqI ;;
  let '(_, srhou, srhoE) := get_state_slices physics in
  uI <- read UqI ;;
  (* Boundary densities = interior densities *)
  let rhoiI := bmap (Densities physics) uI in
  if bany (existsb (fun x => x <? s0)) rhoiI then
    raise (NotPhysicalError "Negative densities at adiabatic wall.")
  else
    (* Boundary temperature = interior temperature (q=0) *)
    let TI := bmap (Temperature physics) uI in
    if bany (fun x => x <? s0) TI then
      raise (NotPhysicalError "Negative temperature at adiabatic wall.")
    else
      (* Set the thermodynamic state from the interior densities and temperature *)
      let th := bmap2 (set_state_from_rhoi_T physics) rhoiI TI in
      (* Boundary velocity *)
      modify UqB (bmap (fill_slice (start srhou) (stop srhou) s0)) ;;;
      (* Boundary energy *)
      modify UqB (fun uB =>
        bmap2 (fun b t =>
                 fill_slice (start srhoE) (stop srhoE) (thermo.rho t * thermo.e t) b)
          uB th) ;;;
      ret UqB.

(** *** [class IsothermalWall]; [Twall], [method] are the attributes *)

Section IsothermalWall.
Variable Twall : T.

Definition set_Y_T_p (UqI : loc) (normals : Arr) : M loc :=
  UqB <- copy UqI ;;
  let '(srho, srhou, srhoE) := get_state_slices physics in
  uI <- read UqI ;;
  (* Interior pressure and mass fractions *)
  let pI := bmap (Pressure physics) uI in
  let YI := bmap (fun u => thermo.Y (set_thermo_state physics u)) uI in
  if bany (fun x => x <? s0) pI then raise (NotPhysicalError EmptyString)
  else
    (* Set the boundary thermodynamic state with the specified wall
       temperature; wall pressure pB = pI *)
    let th := bmap2 (fun y p => set_state_from_Y_T_p physics y Twall p) YI pI in
    (* Boundary density *)
    modify UqB (fun uB =>
      bmap3 (fun b t y => set_slice srho b (vscale (thermo.rho t) y)) uB th YI) ;;;
    (* Boundary velocity *)
    modify UqB (bmap (fill_slice (start srhou) (stop srhou) s0)) ;;;
    (* Boundary energy *)
    modify UqB (fun uB =>
      bmap2 (fun b t =>
               fill_slice (start srhoE) (stop srhoE) (thermo.rho t * thermo.e t) b)
        uB th) ;;;
    ret UqB.

Definition set_rhoE (UqI : loc) (normals : Arr) : M loc :=
  UqB <- copy UqI ;;
  let '(srho, srhou, srhoE) := get_state_slices physics in
  uI <- read UqI ;;
  (* Interior partial densities *)
  let rhoiI := bmap (get_slice srho) uI in
  let YI := bmap (fun r => vdivs r (vsum r)) rhoiI in
  if bany (existsb (fun x => x <? s0)) rhoiI then raise (NotPhysicalError EmptyString)
  else
    let th := bmap (fun r => set_state_from_rhoi_T physics r Twall) rhoiI in
    (* Boundary density from boundary internal energy (rhoE = rhoe);
       [rhoEB] is a view of [UqB] *)
    modify UqB (fun uB =>
      bmap3 (fun b t y =>
               set_slice srho b (vscale (nth (start srhoE) b s0 / thermo.e t) y))
        uB th YI) ;;;
    (* Boundary velocity *)
    modify UqB (bmap (fill_slice (start srhou) (stop srhou) s0)) ;;;
    ret UqB.

Definition set_rho (UqI : loc) (normals : Arr) : M loc :=
  UqB <- copy UqI ;;
  let '(srho, srhou, srhoE) := get_state_slices physics in
  uI <- read UqI ;;
  (* Interior partial densities *)
  let rhoiI := bmap (get_slice srho) uI in
  let rhoB := bmap vsum rhoiI in
  if bany (existsb (fun x => x <? s0)) rhoiI then raise (NotPhysicalError EmptyString)
  else
    let th := bmap (fun r => set_state_from_rhoi_T physics r Twall) rhoiI in
    (* Boundary energy from boundary internal energy (rhoE = rhoe) *)
    modify UqB (fun uB =>
      bmap3 (fun b r t => fill_slice (start srhoE) (stop srhoE) (r * thermo.e t) b)
        uB rhoB th) ;;;
    (* Boundary velocity *)
    modify UqB (bmap (fill_slice (start srhou) (stop srhou) s0)) ;;;
    ret UqB.

Definition IsothermalWall_get_boundary_state (method : nat) (UqI : loc) (normals : Arr)
  : M loc :=
  if Nat.eqb method 1 then set_rhoE UqI normals
  else if Nat.eqb method 2 then set_rho UqI normals
  else set_Y_T_p UqI normals.

(** *** [class IsothermalWallRiemann] *)

Definition IsothermalWallRiemann_get_boundary_state (UqI : loc) (normals : Arr) : M loc :=
  UqB <- copy UqI ;;
  let '(srho, srhou, srhoE) := get_state_slices physics in
  uI <- read UqI ;;
  (* Interior partial densities *)
  let rhoiI := bmap (get_slice srho) uI in
  let rhoB := bmap vsum rhoiI in
  if bany (existsb (fun x => x <? s0)) rhoiI then raise (NotPhysicalError EmptyString)
  else
    let th := bmap (fun r => set_state_from_rhoi_T physics r Twall) rhoiI in
    (* Flip the boundary velocity; [rhouB] is a view of [UqI], which no
       assignment below changes *)
    let rhouB := bmap (get_slice srhou) uI in
    modify UqB (fun uB => bmap2 (fun b m => set_slice srhou b (vneg m)) uB rhouB) ;;;
    (* Boundary energy *)
    modify UqB (fun uB =>
      bmap2 (fun b x => fill_slice (start srhoE) (stop srhoE) x b) uB
        (bmap3 (fun r t m => r * thermo.e t + shalf * vsum (vmul m m) / r)
           rhoB th rhouB)) ;;;
    ret UqB.

End IsothermalWall.

(** The boundary-condition objects: a member of [class BCType] with the
    attributes of its class.  [get_boundary_state] is the method the
    solver calls on one. *)
Inductive BCType : Type :=
| SlipWall
| SlipWallRiemann
| PressureOutlet (p : T)
| AdiabaticWall
| IsothermalWall (Twall : T) (method : nat)
| IsothermalWallRiemann (Twall : T).

Definition get_boundary_state (power : T -> T -> T) (bc : BCType) (UqI : loc)
  (normals : Arr) : M loc :=
  match bc with
  | SlipWall => SlipWall_get_boundary_state UqI normals
  | SlipWallRiemann => SlipWallRiemann_get_boundary_state UqI normals
  | PressureOutlet p => PressureOutlet_get_boundary_state power p UqI normals
  | AdiabaticWall => AdiabaticWall_get_boundary_state UqI normals
  | IsothermalWall Twall method => IsothermalWall_get_boundary_state Twall method UqI normals
  | IsothermalWallRiemann Twall => IsothermalWallRiemann_get_boundary_state Twall UqI normals
  end.

End WithPhysics.
End BC.
End BC.

(** ** Time steppers: stepper.py *)

Module Stepper.
Section Stepper.
Context {T : Type} {ST : Scalar T}.
Local Open Scope scalar_scope.

(** Arrays of shape [[num_elems, nb, ns]]. *)
Definition Arr : Type := Batch (Vec T).

Definition aadd (a b : Arr) : Arr := bmap2 vadd a b.

Definition ascale (k : T) (a : Arr) : Arr := bmap (vscale k) a.

(** [solver.params]: the two switches the splitting schemes toggle. *)
Record Params : Type := {
  SourceSwitch : bool;
  ConvFluxSwitch : bool
}.

(** The solution arrays a stepper reads and writes. *)
Inductive ArrName : Type :=
| physics_U
| Utemp
| physics_U_pred.

(** What a time step does, in order: the record of the calls into the
    solver and of the assignments to solution arrays. *)
Inductive Event : Type :=
| EvResidual (a : ArrName) (params : Params) (balance_const : option Arr)
| EvUpdate (a : ArrName)
| EvLimiter (a : ArrName)
| EvExplicit (dt : T) (params : Params) (balance_const : option Arr)
| EvImplicit (dt : T) (params : Params) (balance_const : option Arr).

(** The solver object as the steppers see it.  [balance_const] is
    [solver.stepper.balance_const], the attribute of the outer stepper that
    the residual evaluation consults. *)
Record Solver : Type := {
  U : Arr;
  U_pred : Arr;
  time : T;
  params : Params;
  balance_const : option Arr;
  trace : list Event
}.

(** The methods of the solver and of its collaborators, none of them among
    the sources: the residual operator, the inverse mass matrix, the
    limiter, the ADER predictor, and the ODE solver of ode.py that the
    splitting schemes use for the source term (it gets the step size, the
    switches, the time, the balance constant and the state, and gives the
    new state and its residual). *)
Record Ops : Type := {
  get_residual : Params -> T -> option Arr -> Arr -> Arr -> Arr;
  mult_inv_mass_matrix : T -> Arr -> Arr;
  apply_limiter : Arr -> Arr;
  calculate_predictor_step : T -> Arr -> Arr -> Arr;
  ode_take_time_step : T -> Params -> T -> option Arr -> Arr -> Arr * Arr
}.

(** A stepper object: [self.R], [self.dt] and, for the low-storage
    schemes, [self.dU]. *)
Record StepperBase : Type := {
  R : Arr;
  dt : T;
  dU : Arr
}.

Definition log (ev : Event) (solver : Solver) : Solver :=
  {| U := U solver; U_pred := U_pred solver; time := time solver;
     params := params solver; balance_const := balance_const solver;
     trace := trace solver ++ [ev] |}.

Definition set_time (t : T) (solver : Solver) : Solver :=
  {| U := U solver; U_pred := U_pred solver; time := t;
     params := params solver; balance_const := balance_const solver;
     trace := trace solver |}.

Definition set_params (p : Params) (solver : Solver) : Solver :=
  {| U := U solver; U_pred := U_pred solver; time := time solver;
     params := p; balance_const := balance_const solver;
     trace := trace solver |}.

Definition set_balance_const (b : option Arr) (solver : Solver) : Solver :=
  {| U := U solver; U_pred := U_pred solver; time := time solver;
     params := params solver; balance_const := b;
     trace := trace solver |}.

(** An assignment to [physics.U] ([U += dU]). *)
Definition set_U (u : Arr) (solver : Solver) : Solver :=
  log (EvUpdate physics_U)
    {| U := u; U_pred := U_pred solver; time := time solver;
       params := params solver; balance_const := balance_const solver;
       trace := trace solver |}.

Definition set_U_pred (u : Arr) (solver : Solver) : Solver :=
  log (EvUpdate physics_U_pred)
    {| U := U solver; U_pred := u; time := time solver;
       params := params solver; balance_const := balance_const solver;
       trace := trace solver |}.

(** [solver.params["SourceSwitch"] = b] *)
Definition set_SourceSwitch (b : bool) (solver : Solver) : Solver :=
  set_params {| SourceSwitch := b; ConvFluxSwitch := ConvFluxSwitch (params solver) |} solver.

(** [solver.params["ConvFluxSwitch"] = b] *)
Definition set_ConvFluxSwitch (b : bool) (solver : Solver) : Solver :=
  set_params {| SourceSwitch := SourceSwitch (params solver); ConvFluxSwitch := b |} solver.

Section WithOps.
Variable ops : Ops.

(** [solver.get_residual(x, R)], where [x] is the array called [a] *)
Definition call_get_residual (a : ArrName) (x Rbuf : Arr) (solver : Solver) : Arr * Solver :=
  (get_residual ops (params solver) (time solver) (balance_const solver) x Rbuf,
   log (EvResidual a (params solver) (balance_const solver)) solver).

(** [solver.apply_limiter(U)], on [physics.U] in place *)
Definition limit_U (solver : Solver) : Solver :=
  log (EvLimiter physics_U)
    {| U := apply_limiter ops (U solver); U_pred := U_pred solver; time := time solver;
       params := params solver; balance_const := balance_const solver;
       trace := trace solver |}.

(** [Utemp = U + k*dU; solver.apply_limiter(Utemp)] *)
Definition limited_Utemp (x : Arr) (solver : Solver) : Arr * Solver :=
  (apply_limiter ops x, log (EvLimiter Utemp) (log (EvUpdate Utemp) solver)).

(** *** [class FE] *)
Definition FE_take_time_step (self : StepperBase) (solver : Solver)
  : Arr * StepperBase * Solver :=
  let '(R1, solver) := call_get_residual physics_U (U solver) (R self) solver in
  let dU1 := mult_inv_mass_matrix ops (dt self) R1 in
  let solver := set_U (aadd (U solver) dU1) solver in
  let solver := limit_U solver in
  (R1, {| R := R1; dt := dt self; dU := dU self |}, solver).

(** *** [class RK4] *)
Definition RK4_take_time_step (self : StepperBase) (solver : Solver)
  : Arr * StepperBase * Solver :=
  let U0 := U solver in
  (* First stage *)
  let '(R1, solver) := call_get_residual physics_U U0 (R self) solver in
  let dU1 := mult_inv_mass_matrix ops (dt self) R1 in
  let '(Utemp1, solver) := limited_Utemp (aadd U0 (ascale shalf dU1)) solver in
  (* Second stage *)
  let solver := set_time (time solver + dt self / s2) solver in
  let '(R2, solver) := call_get_residual Utemp Utemp1 R1 solver in
  let dU2 := mult_inv_mass_matrix ops (dt self) R2 in
  let '(Utemp2, solver) := limited_Utemp (aadd U0 (ascale shalf dU2)) solver in
  (* Third stage *)
  let '(R3, solver) := call_get_residual Utemp Utemp2 R2 solver in
  let dU3 := mult_inv_mass_matrix ops (dt self) R3 in
  let '(Utemp3, solver) := limited_Utemp (aadd U0 dU3) solver in
  (* Fourth stage *)
  let solver := set_time (time solver + dt self / s2) solver in
  let '(R4, solver) := call_get_residual Utemp Utemp3 R3 solver in
  let dU4 := mult_inv_mass_matrix ops (dt self) R4 in
  let dUtot :=
    ascale (s1 / sofZ 6)
      (aadd (aadd (aadd dU1 (ascale s2 dU2)) (ascale s2 dU3)) dU4) in
  let solver := set_U (aadd U0 dUtot) solver in
  let solver := limit_U solver in
  (R4, {| R := R4; dt := dt self; dU := dU self |}, solver).

(** One pass of the stage loop shared by [LSRK4] and [SSPRK3]:
    [t_stage] is the time the stage sets, [a] and [b] its coefficients. *)
Definition low_storage_stage (t_stage a b : T) (st : Arr * StepperBase * Solver)
  : Arr * StepperBase * Solver :=
  let '(_, self, solver) := st in
  let solver := set_time t_stage solver in
  let '(R1, solver) := call_get_residual physics_U (U solver) (R self) solver in
  let dUtemp := mult_inv_mass_matrix ops (dt self) R1 in
  let dU1 := aadd (ascale a (dU self)) dUtemp in
  let solver := set_U (aadd (U solver) (ascale b dU1)) solver in
  let solver := limit_U solver in
  (R1, {| R := R1; dt := dt self; dU := dU1 |}, solver).

(** *** [class LSRK4] *)
Definition rk4a : list T :=
  [s0;
   sofZ (-567301805773) / sofZ 1357537059087;
   sofZ (-2404267990393) / sofZ 2016746695238;
   sofZ (-3550918686646) / sofZ 2091501179385;
   sofZ (-1275806237668) / sofZ 842570457699].

Definition rk4b : list T :=
  [sofZ 1432997174477 / sofZ 9575080441755;
   sofZ 5161836677717 / sofZ 13612068292357;
   sofZ 1720146321549 / sofZ 2090206949498;
   sofZ 3134564353537 / sofZ 4481467310338;
   sofZ 2277821191437 / sofZ 14882151754819].

Definition rk4c : list T :=
  [s0;
   sofZ 1432997174477 / sofZ 9575080441755;
   sofZ 2526269341429 / sofZ 6820363962896;
   sofZ 2006345519317 / sofZ 3224310063776;
   sofZ 2802321613138 / sofZ 2924317926251].

Definition nstages : nat := 5.

Definition LSRK4_take_time_step (self : StepperBase) (solver : Solver)
  : Arr * StepperBase * Solver :=
  let Time := time solver in
  fold_left
    (fun st istage =>
       low_storage_stage (Time + nth istage rk4c s0 * dt self)
         (nth istage rk4a s0) (nth istage rk4b s0) st)
    (seq 0 nstages) (R self, self, solver).

(** *** [class SSPRK3] *)
Definition ssprk3a : list T :=
  [s0;
   sofZ (-260810978953486) / sofZ 100000000000000;
   sofZ (-8977353434746) / sofZ 100000000000000;
   sofZ (-60081019321053) / sofZ 100000000000000;
   sofZ (-72939715170280) / sofZ 100000000000000].

Definition ssprk3b : list T :=
  [sofZ 67892607116139 / sofZ 100000000000000;
   sofZ 20654657933371 / sofZ 100000000000000;
   sofZ 27959340290485 / sofZ 100000000000000;
   sofZ 31738259840613 / sofZ 100000000000000;
   sofZ 30319904778284 / sofZ 100000000000000].

Definition SSPRK3_take_time_step (self : StepperBase) (solver : Solver)
  : Arr * StepperBase * Solver :=
  let Time := time solver in
  fold_left
    (fun st istage =>
       low_storage_stage (Time + dt self)
         (nth istage ssprk3a s0) (nth istage ssprk3b s0) st)
    (seq 0 nstages) (R self, self, solver).

(** *** [class ADER] *)
Definition ADER_take_time_step (self : StepperBase) (solver : Solver)
  : Arr * StepperBase * Solver :=
  let W := U solver in
  (* Prediction step *)
  let Up := calculate_predictor_step ops (dt self) W (U_pred solver) in
  let solver := set_U_pred Up solver in
  (* Correction step *)
  let '(R1, solver) := call_get_residual physics_U_pred Up (R self) solver in
  let dU1 := mult_inv_mass_matrix ops (dt self / s2) R1 in
  let solver := set_U (aadd W dU1) solver in
  let solver := limit_U solver in
  (R1, {| R := R1; dt := dt self; dU := dU self |}, solver).

(** The explicit schemes, as [stepper_tools.set_stepper] selects them by
    name. *)
Inductive StepperType : Type :=
| FE
| RK4
| LSRK4
| SSPRK3
| ADER.

Definition take_time_step (scheme : StepperType) (self : StepperBase) (solver : Solver)
  : Arr * StepperBase * Solver :=
  match scheme with
  | FE => FE_take_time_step self solver
  | RK4 => RK4_take_time_step self solver
  | LSRK4 => LSRK4_take_time_step self solver
  | SSPRK3 => SSPRK3_take_time_step self solver
  | ADER => ADER_take_time_step self solver
  end.

(** *** [class Strang] and [class Simpler] *)

(** A splitting stepper: its own [R], [dt], and the two sub-steppers
    ([self.explicit] of the chosen scheme, [self.implicit]). *)
Record Splitting : Type := {
  base : StepperBase;
  scheme : StepperType;
  explicit : StepperBase;
  implicit : StepperBase
}.

Definition set_dt (d : T) (s : StepperBase) : StepperBase :=
  {| R := R s; dt := d; dU := dU s |}.

(** [explicit.take_time_step(solver)] *)
Definition explicit_take_time_step (sch : StepperType) (self : StepperBase) (solver : Solver)
  : Arr * StepperBase * Solver :=
  take_time_step sch self
    (log (EvExplicit (dt self) (params solver) (balance_const solver)) solver).

(** [implicit.take_time_step(solver)] *)
Definition implicit_take_time_step (self : StepperBase) (solver : Solver)
  : Arr * StepperBase * Solver :=
  let solver := log (EvImplicit (dt self) (params solver) (balance_const solver)) solver in
  let '(U2, R2) :=
    ode_take_time_step ops (dt self) (params solver) (time solver)
      (balance_const solver) (U solver) in
  (R2, {| R := R2; dt := dt self; dU := dU self |},
   {| U := U2; U_pred := U_pred solver; time := time solver;
      params := params solver; balance_const := balance_const solver;
      trace := trace solver |}).

Definition Strang_take_time_step (self : Splitting) (solver : Solver)
  : Arr * Splitting * Solver :=
  let explicit1 := set_dt (dt (base self) / s2) (explicit self) in
  let implicit1 := set_dt (dt (base self)) (implicit self) in
  (* First: take the half-step for the inviscid flux only *)
  let solver := set_SourceSwitch false solver in
  let '(R1, explicit1, solver) := explicit_take_time_step (scheme self) explicit1 solver in
  (* Second: take the implicit full step for the source term. *)
  let solver := set_SourceSwitch true solver in
  let solver := set_ConvFluxSwitch false solver in
  let '(R2, implicit1, solver) := implicit_take_time_step implicit1 solver in
  (* Third: take the second half-step for the inviscid flux only. *)
  let solver := set_SourceSwitch false solver in
  let solver := set_ConvFluxSwitch true solver in
  let '(R3, explicit1, solver) := explicit_take_time_step (scheme self) explicit1 solver in
  (R3,
   {| base := base self; scheme := scheme self;
      explicit := explicit1; implicit := implicit1 |},
   solver).

Definition Simpler_take_time_step (self : Splitting) (solver : Solver)
  : Arr * Splitting * Solver :=
  let explicit1 := set_dt (dt (base self) / s2) (explicit self) in
  let implicit1 := set_dt (dt (base self)) (implicit self) in
  let solver := set_SourceSwitch false solver in
  (* First: calculate the balance constant
     Note: we skip the first explicit step as it is in equillibrium by
     definition *)
  let solver := set_balance_const None solver in
  let '(R0, solver) := call_get_residual physics_U (U solver) (R (base self)) solver in
  let balance := ascale (- s1) R0 in
  let solver := set_balance_const (Some (ascale (- s1) balance)) solver in
  (* Second: take the implicit full step for the source term. *)
  let solver := set_SourceSwitch true solver in
  let solver := set_ConvFluxSwitch false solver in
  let '(R2, implicit1, solver) := implicit_take_time_step implicit1 solver in
  (* Third: take the second half-step for the inviscid flux only. *)
  let solver := set_SourceSwitch false solver in
  let solver := set_ConvFluxSwitch true solver in
  let solver := set_balance_const (Some balance) solver in
  let '(R3, explicit1, solver) := explicit_take_time_step (scheme self) explicit1 solver in
  (R3,
   {| base := {| R := R0; dt := dt (base self); dU := dU (base self) |};
      scheme := scheme self; explicit := explicit1; implicit := implicit1 |},
   solver).

End WithOps.
End Stepper.
End Stepper.

(** ** State functions: [class MovingShock], [class IsentropicVortex],
      [class DensityWave], [class TaylorGreenVortex]

    [get_state(physics, x, t)] fills an array of zeros of
    [physics.NUM_STATE_VARS] entries at each point of [x].  [gamma] is
    [physics.thermo.gamma], [ns] is [physics.NUM_STATE_VARS]; the
    functions of numpy that the scalars do not have ([np.sin], [np.cos],
    [np.exp], [np.power], [np.pi] and Python's [**] with a float exponent)
    are parameters.  [x**2] and [x**2.] are squares.  A batch of points
    is a list of lists, so the number of coordinates of the points of an
    empty batch is not known. *)

Module Fcn.

(** A call returns, or raises [ValueError] or [IndexError]. *)
Inductive Outcome (A : Type) : Type :=
| Returns (a : A)
| ValueError
| IndexError.
Arguments Returns {A} a.
Arguments ValueError {A}.
Arguments IndexError {A}.

Section Fcn.
Context {T : Type} {ST : Scalar T}.
Local Open Scope scalar_scope.
Variable physics : Physics T.
Variable gamma : T.
Variable ns : nat.

Definition sq (x : T) : T := x * x.

(** The entries of the slice [s] that a state of [ns] entries has: a
    Python slice stops at the end of the axis. *)
Definition slice_width (s : Slice) : nat :=
  Nat.min (stop s) ns - Nat.min (start s) ns.

(** *** [class MovingShock]; [M] and [xshock] are the attributes; a point
        has one coordinate *)

Section MovingShock.
Variable M : T.
Variable xshock0 : T.

(** Pre-shock state *)
Definition rho1 : T := s1.
Definition p1 : T := sofZ 100000.
Definition u1 : T := s0.

(** Shock speed in the lab frame: [us = u1 + M*a1] *)
Definition us : T := u1 + M * ssqrt (gamma * p1 / rho1).

(** [xshock = xshock + us*t] *)
Definition xshock (t : T) : T := xshock0 + us * t.

(** Post-shock state *)
Definition rho2 : T :=
  (gamma + s1) * sq M / ((gamma - s1) * sq M + s2) * rho1.

Definition p2 : T := (s2 * gamma * sq M - (gamma - s1)) / (gamma + s1) * p1.

Definition u2 : T :=
  let W := M * ssqrt (gamma * p1 / rho1) in
  (* To get velocity, first work in reference frame fixed to shock *)
  let ux := W in
  let uy := ux * rho1 / rho2 in
  (* Convert back to lab frame *)
  W + u1 - uy.

(** The state at one point [x] (one space dimension).  [iright] is
    [x > xshock], [ileft] is [x <= xshock]; within each quantity the
    points on the right are assigned first. *)
Definition MovingShock_point (t x : T) : Vec T :=
  let '(srho, srhou, srhoE) := get_state_slices physics in
  let ileft := x <=? xshock t in
  let iright := xshock t <? x in
  let Uq := repeat s0 ns in
  (* Density *)
  let Uq := if iright then fill_slice (start srho) (stop srho) rho1 Uq else Uq in
  let Uq := if ileft then fill_slice (start srho) (stop srho) rho2 Uq else Uq in
  (* Momentum *)
  let Uq := if iright then fill_slice (start srhou) (stop srhou) (rho1 * u1) Uq else Uq in
  let Uq := if ileft then fill_slice (start srhou) (stop srhou) (rho2 * u2) Uq else Uq in
  (* Energy *)
  let Uq :=
    if iright
    then fill_slice (start srhoE) (stop srhoE)
           (p1 / (gamma - s1) + shalf * rho1 * u1 * u1) Uq
    else Uq in
  let Uq :=
    if ileft
    then fill_slice (start srhoE) (stop srhoE)
           (p2 / (gamma - s1) + shalf * rho2 * u2 * u2) Uq
    else Uq in
  Uq.

Definition MovingShock_get_state (x : Batch T) (t : T) : Batch (Vec T) :=
  bmap (MovingShock_point t) x.

End MovingShock.

(** *** [class DensityWave]; [p] is the attribute; a point has one
        coordinate *)

Section DensityWave.
Variable sin : T -> T.
Variable pi : T.
Variable p : T.

Definition DensityWave_point (x : T) : Vec T :=
  let '(srho, srhou, srhoE) := get_state_slices physics in
  let Uq := repeat s0 ns in
  let rho := s1 + sofZ 1 / sofZ 10 * sin (s2 * pi * x) in
  let rhou := rho * s1 in
  let rhoE := p / (gamma - s1) + shalf * sq rhou / rho in
  let Uq := fill_slice (start srho) (stop srho) rho Uq in
  let Uq := fill_slice (start srhou) (stop srhou) rhou Uq in
  let Uq := fill_slice (start srhoE) (stop srhoE) rhoE Uq in
  Uq.

Definition DensityWave_get_state (x : Batch T) (t : T) : Batch (Vec T) :=
  bmap DensityWave_point x.

End DensityWave.

(** *** [class TaylorGreenVortex] *)

Section TaylorGreenVortex.
Variable sin cos : T -> T.
Variable pi : T.

(** A point is [(x[:, :, 0], x[:, :, 1])]. *)
Definition TaylorGreenVortex_point (x : Vec T) : Vec T :=
  let '(srho, srhou, srhoE) := get_state_slices physics in
  let Uq := repeat s0 ns in
  let x0 := nth 0 x s0 in
  let x1 := nth 1 x s0 in
  (* State *)
  let rho := s1 in
  let u := sin (pi * x0) * cos (pi * x1) in
  let v := - (cos (pi * x0)) * sin (pi * x1) in
  let p := sofZ 1 / sofZ 4 * (cos (s2 * pi * x0) + cos (s2 * pi * x1)) + s1 in
  let E := p / (rho * (gamma - s1)) + shalf * (sq u + sq v) in
  (* Store *)
  let Uq := fill_slice (start srho) (stop srho) rho Uq in
  let Uq := set_slice srhou Uq [rho * u; rho * v] in
  let Uq := fill_slice (start srhoE) (stop srhoE) (rho * E) Uq in
  Uq.

(** [x[:, :, 1]] raises [IndexError] when the points have fewer than two
    coordinates; the assignment of the two momenta raises [ValueError]
    (no broadcast) unless the momentum slice has two entries. *)
Definition TaylorGreenVortex_get_state (x : Batch (Vec T)) (t : T)
  : Outcome (Batch (Vec T)) :=
  let '(srho, srhou, srhoE) := get_state_slices physics in
  if bany (fun p => Nat.ltb (length p) 2) x then IndexError
  else if negb (Nat.eqb (slice_width srhou) 2) then ValueError
  else Returns (bmap TaylorGreenVortex_point x).

End TaylorGreenVortex.

(** *** [class IsentropicVortex]; [rhob], [ub], [vb], [pb], [vs] are the
        attributes, [Rg] is [physics.thermo.R] *)

Section IsentropicVortex.
Variable exp : T -> T.
Variable power : T -> T -> T.
Variable pi : T.
Variable Rg : T.
Variable rhob ub vb pb vs : T.

Definition IsentropicVortex_point (t : T) (x : Vec T) : Vec T :=
  let Uq := repeat s0 ns in
  (* Base temperature *)
  let Tb := pb / (rhob * Rg) in
  (* Entropy *)
  let s := pb / power rhob gamma in
  (* Track center of vortex *)
  let xr := nth 0 x s0 - ub * t in
  let yr := nth 1 x s0 - vb * t in
  let r := ssqrt (sq xr + sq yr) in
  (* Perturbations *)
  let dU := vs / (s2 * pi) * exp (shalf * (s1 - sq r)) in
  let du := dU * - yr in
  let dv := dU * xr in
  let dT := - (gamma - s1) * sq vs / (sofZ 8 * gamma * sq pi) * exp (s1 - sq r) in
  let u := ub + du in
  let v := vb + dv in
  let Temp := Tb + dT in
  (* Convert to conservative variables *)
  let rho := power (Temp / s) (s1 / (gamma - s1)) in
  let rhou := rho * u in
  let rhov := rho * v in
  let rhoE := rho * Rg / (gamma - s1) * Temp + shalf * (rhou * rhou + rhov * rhov) / rho in
  let Uq := upd 0 rho Uq in
  let Uq := upd 1 rhou Uq in
  let Uq := upd 2 rhov Uq in
  let Uq := upd 3 rhoE Uq in
  Uq.

(** [if Rg != 1.: raise ValueError] comes first; then [x[:, :, 1]] raises
    [IndexError] when the points have fewer than two coordinates, and
    [Uq[:, :, 3] = rhoE] when the state has fewer than four entries. *)
Definition IsentropicVortex_get_state (x : Batch (Vec T)) (t : T)
  : Outcome (Batch (Vec T)) :=
  if negb ((Rg <=? s1) && (s1 <=? Rg)) then ValueError
  else if bany (fun p => Nat.ltb (length p) 2) x || Nat.ltb ns 4 then IndexError
  else Returns (bmap (IsentropicVortex_point t) x).

End IsentropicVortex.

End Fcn.
End Fcn.

(** ** Source terms: [class StiffFriction]

    The indices are those of [physics.get_state_indices()], within the
    state; [eps] is [general.eps]. *)

Module Source.
Section Source.
Context {T : Type} {ST : Scalar T}.
Local Open Scope scalar_scope.

(** *** [class StiffFriction]; [nu] is the attribute *)

Section StiffFriction.
Variable nu : T.
Variable eps : T.
Variables irho irhou irhoE : nat.

Definition StiffFriction_get_source (Uq : Vec T) : Vec T :=
  let S := map (fun _ => s0) Uq in
  let S := upd irho s0 S in
  let S := upd irhou (nu * nth irhou Uq s0) S in
  let S :=
    upd irhoE (nu * (nth irhou Uq s0 * nth irhou Uq s0 / (eps + nth irho Uq s0))) S in
  S.

(** [jac[:, :, i, j]] is row [i], column [j]; the velocity is read at the
    indices 1 and 0 whatever [get_state_indices] says. *)
Definition StiffFriction_get_jacobian (Uq : Vec T) : list (Vec T) :=
  let jac := repeat (repeat s0 (length Uq)) (length Uq) in
  let vel := nth 1 Uq s0 / (eps + nth 0 Uq s0) in
  let jac := upd2 irhou irhou nu jac in
  let jac := upd2 irhoE irho (- nu * (vel * vel)) jac in
  let jac := upd2 irhoE irhou (s2 * nu * vel) jac in
  jac.

End StiffFriction.

End Source.
End Source.

Unset Implicit Arguments.

(** * Part II: properties *)

(** ** Time steppers: what one step does *)

Section StepperFacts.
Context {T : Type} {ST : Scalar T}.
Import Stepper.
Local Abbreviation Arr := (Stepper.Arr (T:=T)).
Local Abbreviation Event := (Stepper.Event (T:=T)).
Local Abbreviation Solver := (Stepper.Solver (T:=T)).
Local Abbreviation Ops := (Stepper.Ops (T:=T)).
Local Abbreviation StepperBase := (Stepper.StepperBase (T:=T)).
Local Abbreviation Splitting := (Stepper.Splitting (T:=T)).

(** The events one stage of a scheme records. *)
Definition stage_events (p : Params) (bc : option Arr) : list Event :=
  [EvResidual physics_U p bc; EvUpdate physics_U; EvLimiter physics_U].

Definition scheme_events (sch : StepperType) (p : Params) (bc : option Arr)
  : list Event :=
  match sch with
  | FE => stage_events p bc
  | RK4 =>
      [EvResidual physics_U p bc; EvUpdate Utemp; EvLimiter Utemp;
       EvResidual Utemp p bc; EvUpdate Utemp; EvLimiter Utemp;
       EvResidual Utemp p bc; EvUpdate Utemp; EvLimiter Utemp;
       EvResidual Utemp p bc; EvUpdate physics_U; EvLimiter physics_U]
  | LSRK4 | SSPRK3 =>
      stage_events p bc ++ stage_events p bc ++ stage_events p bc
      ++ stage_events p bc ++ stage_events p bc
  | ADER =>
      [EvUpdate physics_U_pred; EvResidual physics_U_pred p bc;
       EvUpdate physics_U; EvLimiter physics_U]
  end.

Lemma take_time_step_trace (ops : Ops) (sch : StepperType) (self : StepperBase)
  (solver : Solver) :
  let solver' := snd (take_time_step ops sch self solver) in
  trace solver' = trace solver ++ scheme_events sch (params solver) (balance_const solver)
  /\ params solver' = params solver
  /\ balance_const solver' = balance_const solver.
Proof.
  destruct sch; cbn; rewrite <- ?app_assoc; auto.
Qed.

(** The sub-step calls among the events. *)
Definition is_substep (ev : Event) : bool :=
  match ev with
  | EvExplicit _ _ _ | EvImplicit _ _ _ => true
  | _ => false
  end.

Definition substeps (tr : list Event) : list Event :=
  filter is_substep tr.

Lemma substeps_scheme_events (sch : StepperType) (p : Params) (bc : option Arr) :
  substeps (scheme_events sch p bc) = [].
Proof. destruct sch; reflexivity. Qed.

Definition switches (source conv : bool) : Params :=
  {| SourceSwitch := source; ConvFluxSwitch := conv |}.

(** The events of one Strang step that starts with [ConvFluxSwitch = conv]. *)
Definition Strang_events (self : Splitting) (conv : bool) (bc : option Arr)
  : list Event :=
  let half := sdiv (dt (base self)) s2 in
  [EvExplicit half (switches false conv) bc]
  ++ scheme_events (scheme self) (switches false conv) bc
  ++ [EvImplicit (dt (base self)) (switches true false) bc]
  ++ [EvExplicit half (switches false true) bc]
  ++ scheme_events (scheme self) (switches false true) bc.

Lemma explicit_take_time_step_trace (ops : Ops) (sch : StepperType) (e : StepperBase)
  (s : Solver) :
  let r := explicit_take_time_step ops sch e s in
  trace (snd r)
  = trace s ++ EvExplicit (dt e) (params s) (balance_const s)
               :: scheme_events sch (params s) (balance_const s)
  /\ params (snd r) = params s /\ balance_const (snd r) = balance_const s
  /\ dt (snd (fst r)) = dt e.
Proof.
  cbv zeta. unfold explicit_take_time_step.
  destruct (take_time_step_trace ops sch e
              (log (EvExplicit (dt e) (params s) (balance_const s)) s)) as (H1 & H2 & H3).
  rewrite H1, H2, H3. cbn. rewrite <- app_assoc. repeat split.
  destruct sch; reflexivity.
Qed.

Lemma implicit_take_time_step_trace (ops : Ops) (i : StepperBase)
  (s : Solver) :
  let r := implicit_take_time_step ops i s in
  trace (snd r) = trace s ++ [EvImplicit (dt i) (params s) (balance_const s)]
  /\ params (snd r) = params s /\ balance_const (snd r) = balance_const s.
Proof.
  cbv zeta. unfold implicit_take_time_step. cbv zeta.
  destruct (ode_take_time_step _ _ _ _ _ _) as [U2 Ri]. cbn. auto.
Qed.

(** One call of [Strang.take_time_step], whatever the solver: the events
    it adds, the three sub-steps among them (explicit with [dt/2],
    [SourceSwitch] off and [ConvFluxSwitch] as found on entry; implicit
    with [dt], source on and convective flux off; explicit with [dt/2],
    source off and convective flux on), and the residual it returns, that
    of the last explicit sub-step. *)
Theorem Strang_step_structure (ops : Ops) (self : Splitting) (solver : Solver) :
  let result := Strang_take_time_step ops self solver in
  let R3 := fst (fst result) in
  let self' := snd (fst result) in
  let solver' := snd result in
  let bc := balance_const solver in
  let half := sdiv (dt (base self)) s2 in
  trace solver'
  = trace solver ++ Strang_events self (ConvFluxSwitch (params solver)) bc
  /\ substeps (Strang_events self (ConvFluxSwitch (params solver)) bc)
     = [EvExplicit half (switches false (ConvFluxSwitch (params solver))) bc;
        EvImplicit (dt (base self)) (switches true false) bc;
        EvExplicit half (switches false true) bc]
  /\ exists explicit3 solver3,
       dt explicit3 = half /\ params solver3 = switches false true /\
       (R3, explicit self', solver')
       = explicit_take_time_step ops (scheme self) explicit3 solver3.
Proof.
  cbv zeta. unfold Strang_take_time_step. cbv zeta.
  set (half := sdiv (dt (base self)) s2).
  set (s1' := set_SourceSwitch false solver).
  destruct (explicit_take_time_step ops (scheme self) (set_dt half (explicit self)) s1')
    as [[R1 e1] sa] eqn:E1.
  set (s2' := set_ConvFluxSwitch false (set_SourceSwitch true sa)).
  destruct (implicit_take_time_step ops (set_dt (dt (base self)) (implicit self)) s2')
    as [[R2 i1] sb] eqn:E2.
  set (s3' := set_ConvFluxSwitch true (set_SourceSwitch false sb)).
  destruct (explicit_take_time_step ops (scheme self) e1 s3') as [[R3 e3] sc] eqn:E3.
  cbn [fst snd explicit].
  destruct (explicit_take_time_step_trace ops (scheme self)
              (set_dt half (explicit self)) s1') as (Ha1 & Ha2 & Ha3 & Ha4).
  rewrite E1 in Ha1, Ha2, Ha3, Ha4. cbn [fst snd] in Ha1, Ha2, Ha3, Ha4.
  destruct (explicit_take_time_step_trace ops (scheme self) e1 s3')
    as (Hc1 & Hc2 & Hc3 & Hc4).
  rewrite E3 in Hc1, Hc2, Hc3, Hc4. cbn [fst snd] in Hc1, Hc2, Hc3, Hc4.
  destruct (implicit_take_time_step_trace ops
              (set_dt (dt (base self)) (implicit self)) s2') as (Hb1 & Hb2 & Hb3).
  rewrite E2 in Hb1, Hb2, Hb3. cbn [fst snd dt set_dt] in Hb1, Hb2, Hb3.
  split; [|split].
  - rewrite Hc1. subst s3'. cbn [trace set_ConvFluxSwitch set_SourceSwitch set_params
      params balance_const]. rewrite Hb1, Hb3. subst s2'.
    cbn [trace set_ConvFluxSwitch set_SourceSwitch set_params params balance_const].
    rewrite Ha1, Ha3. subst s1'.
    cbn [trace set_ConvFluxSwitch set_SourceSwitch set_params params balance_const
         dt set_dt ConvFluxSwitch SourceSwitch].
    rewrite Ha4. cbn [dt set_dt].
    unfold Strang_events, switches. cbv zeta. fold half.
    rewrite <- !app_assoc. reflexivity.
  - unfold Strang_events, substeps. cbv zeta.
    rewrite !filter_app. fold (substeps (scheme_events (scheme self) (switches false (ConvFluxSwitch (params solver))) (balance_const solver))).
    fold (substeps (scheme_events (scheme self) (switches false true) (balance_const solver))).
    rewrite !substeps_scheme_events. reflexivity.
  - exists e1, s3'. repeat split.
    + rewrite Ha4. reflexivity.
    + symmetry. exact E3.
Qed.

(** The residual from which [Simpler] takes its balance constant: the
    residual operator at the pre-step state, [SourceSwitch] off,
    [ConvFluxSwitch] as found, no balance constant. *)
Definition Simpler_residual (ops : Ops) (self : Splitting) (solver : Solver) : Arr :=
  get_residual ops (switches false (ConvFluxSwitch (params solver))) (time solver) None
    (U solver) (R (base self)).

Definition Simpler_events (ops : Ops) (self : Splitting) (solver : Solver)
  : list Event :=
  let half := sdiv (dt (base self)) s2 in
  let balance := ascale (sopp s1) (Simpler_residual ops self solver) in
  [EvResidual physics_U (switches false (ConvFluxSwitch (params solver))) None]
  ++ [EvImplicit (dt (base self)) (switches true false) (Some (ascale (sopp s1) balance))]
  ++ [EvExplicit half (switches false true) (Some balance)]
  ++ scheme_events (scheme self) (switches false true) (Some balance).

(** Claim C6, as amended.  [Simpler.take_time_step] evaluates the residual
    at the pre-step state with the source term switched off and no balance
    constant, and takes minus that residual as its balance constant; it
    takes no first explicit half-step; the implicit sub-step ([dt], source
    on, convective flux off) sees the negation of the constant, the
    explicit half-step ([dt/2], source off, convective flux on) the
    constant itself, which is what is left stored; the residual returned
    is that of the explicit half-step. *)
Theorem Simpler_step_structure (ops : Ops) (self : Splitting) (solver : Solver) :
  let result := Simpler_take_time_step ops self solver in
  let R3 := fst (fst result) in
  let self' := snd (fst result) in
  let solver' := snd result in
  let half := sdiv (dt (base self)) s2 in
  let balance := ascale (sopp s1) (Simpler_residual ops self solver) in
  trace solver' = trace solver ++ Simpler_events ops self solver
  /\ substeps (Simpler_events ops self solver)
     = [EvImplicit (dt (base self)) (switches true false) (Some (ascale (sopp s1) balance));
        EvExplicit half (switches false true) (Some balance)]
  /\ balance_const solver' = Some balance
  /\ exists explicit3 solver3,
       dt explicit3 = half /\ params solver3 = switches false true /\
       balance_const solver3 = Some balance /\
       (R3, explicit self', solver')
       = explicit_take_time_step ops (scheme self) explicit3 solver3.
Proof.
  cbv zeta. unfold Simpler_take_time_step, call_get_residual. cbv zeta.
  set (half := sdiv (dt (base self)) s2).
  cbn [params set_SourceSwitch set_balance_const set_params time balance_const U
       ConvFluxSwitch SourceSwitch].
  fold (switches false (ConvFluxSwitch (params solver))).
  fold (Simpler_residual ops self solver).
  set (R0 := Simpler_residual ops self solver).
  set (balance := ascale (sopp s1) R0).
  set (s2' := set_ConvFluxSwitch false _).
  destruct (implicit_take_time_step ops (set_dt (dt (base self)) (implicit self)) s2')
    as [[R2 i1] sb] eqn:E2.
  set (s3' := set_balance_const (Some balance) _).
  destruct (explicit_take_time_step ops (scheme self) (set_dt half (explicit self)) s3')
    as [[R3 e3] sc] eqn:E3.
  cbn [fst snd explicit].
  destruct (implicit_take_time_step_trace ops
              (set_dt (dt (base self)) (implicit self)) s2') as (Hb1 & Hb2 & Hb3).
  rewrite E2 in Hb1, Hb2, Hb3. cbn [fst snd dt set_dt] in Hb1, Hb2, Hb3.
  destruct (explicit_take_time_step_trace ops (scheme self)
              (set_dt half (explicit self)) s3') as (Hc1 & Hc2 & Hc3 & Hc4).
  rewrite E3 in Hc1, Hc2, Hc3, Hc4. cbn [fst snd] in Hc1, Hc2, Hc3, Hc4.
  split; [|split; [|split]].
  - rewrite Hc1. subst s3'.
    cbn [trace set_ConvFluxSwitch set_SourceSwitch set_params set_balance_const
         params balance_const dt set_dt].
    rewrite Hb1. subst s2'.
    cbn [trace set_ConvFluxSwitch set_SourceSwitch set_params set_balance_const
         params balance_const log ConvFluxSwitch SourceSwitch].
    unfold Simpler_events, switches. cbv zeta. fold half. fold R0. fold balance.
    rewrite <- !app_assoc. reflexivity.
  - unfold Simpler_events, substeps. cbv zeta.
    rewrite !filter_app.
    fold (substeps (scheme_events (scheme self) (switches false true)
                      (Some (ascale (sopp s1) (Simpler_residual ops self solver))))).
    rewrite !substeps_scheme_events. reflexivity.
  - rewrite Hc3. reflexivity.
  - exists (set_dt half (explicit self)), s3'. repeat split. symmetry. exact E3.
Qed.

(** [limited_before_use dirty tr]: along [tr], an array that has been
    written is not read by a residual evaluation, nor left at the end,
    before the limiter has been applied to it. *)
Definition mark (a : ArrName) (b : bool) (dirty : ArrName -> bool) : ArrName -> bool :=
  fun x =>
    match a, x with
    | physics_U, physics_U | Utemp, Utemp | physics_U_pred, physics_U_pred => b
    | _, _ => dirty x
    end.

Fixpoint limited_before_use (dirty : ArrName -> bool) (tr : list Event) : bool :=
  match tr with
  | [] => negb (dirty physics_U || dirty Utemp || dirty physics_U_pred)
  | EvUpdate a :: tr' => limited_before_use (mark a true dirty) tr'
  | EvLimiter a :: tr' => limited_before_use (mark a false dirty) tr'
  | EvResidual a _ _ :: tr' => negb (dirty a) && limited_before_use dirty tr'
  | _ :: tr' => limited_before_use dirty tr'
  end.

Definition clean : ArrName -> bool := fun _ => false.

(** The events that concern an array other than [a]. *)
Definition not_about (a : ArrName) (ev : Event) : bool :=
  match ev with
  | EvResidual b _ _ | EvUpdate b | EvLimiter b =>
      match a, b with
      | physics_U, physics_U | Utemp, Utemp | physics_U_pred, physics_U_pred => false
      | _, _ => true
      end
  | _ => true
  end.

(** Claim C7, as amended.  In [FE], [RK4], [LSRK4] and [SSPRK3] every
    update of a state array is followed by the limiter on that array
    before a residual evaluation reads it or the step returns.  In [ADER]
    that holds of the solution [U] only: the predictor is read by the
    residual evaluation as [calculate_predictor_step] left it.  In all
    five the solution left by the step is an output of the limiter. *)
Theorem limiter_after_every_update (ops : Ops) (sch : StepperType) (self : StepperBase)
  (solver : Solver) :
  let solver' := snd (take_time_step ops sch self solver) in
  let evs := scheme_events sch (params solver) (balance_const solver) in
  trace solver' = trace solver ++ evs
  /\ limited_before_use clean evs = match sch with ADER => false | _ => true end
  /\ limited_before_use clean (filter (not_about physics_U_pred) evs) = true
  /\ exists x, U solver' = apply_limiter ops x.
Proof.
  cbv zeta. split; [apply take_time_step_trace|].
  destruct sch; cbn; repeat split; eexists; reflexivity.
Qed.
End StepperFacts.

(** ** A one-entry problem in binary64 *)

Section StepperExamples.
Import Stepper.

(** A one-entry problem in binary64 to run the steppers on: the residual
    is 10 for the source plus 1 for the convective flux, each counted when
    its switch is on, plus the balance constant if there is one. *)
Definition ops64 : Ops (T:=float) := {|
  get_residual := fun p t bc u r =>
    let source := if SourceSwitch p then 10%float else 0%float in
    let conv := if ConvFluxSwitch p then 1%float else 0%float in
    let res := [[ [PrimFloat.add source conv] ]] in
    match bc with
    | Some b => aadd res b
    | None => res
    end;
  mult_inv_mass_matrix := fun dt r => ascale dt r;
  apply_limiter := fun u => u;
  calculate_predictor_step := fun dt w up => w;
  ode_take_time_step := fun dt p t bc u => (u, u)
|}.

Definition stepper64 (d : float) : StepperBase (T:=float) :=
  {| R := [[ [0%float] ]]; dt := d; dU := [[ [0%float] ]] |}.

Definition splitting64 : Splitting (T:=float) :=
  {| base := stepper64 1%float; scheme := FE;
     explicit := stepper64 0%float; implicit := stepper64 0%float |}.

Definition solver64 (source conv : bool) : Solver (T:=float) :=
  {| U := [[ [1%float] ]]; U_pred := [[ [1%float] ]]; time := 0%float;
     params := switches source conv; balance_const := None; trace := [] |}.

(** The sub-steps as the claim has them: convective flux on in both
    explicit half-steps. *)
Definition Strang_claimed_substeps {T : Type} {ST : Scalar T} (self : Splitting (T:=T))
  (bc : option (Arr (T:=T))) : list (Event (T:=T)) :=
  let half := sdiv (dt (base self)) s2 in
  [EvExplicit half (switches false true) bc;
   EvImplicit (dt (base self)) (switches true false) bc;
   EvExplicit half (switches false true) bc].

(** Claim C5.  At a solver that enters the step with [ConvFluxSwitch]
    off, the first explicit half-step of [Strang.take_time_step] runs with
    the convective flux off as well as the source: the step sets only
    [SourceSwitch] before it.  The other two sub-steps are as claimed. *)
Theorem Strang_first_half_step_keeps_ConvFluxSwitch :
  substeps (trace (snd (Strang_take_time_step ops64 splitting64 (solver64 true false))))
  = [EvExplicit 0.5%float (switches false false) None;
     EvImplicit 1%float (switches true false) None;
     EvExplicit 0.5%float (switches false true) None]
  /\ substeps (trace (snd (Strang_take_time_step ops64 splitting64 (solver64 true false))))
     <> Strang_claimed_substeps splitting64 None.
Proof. split; [vm_compute; reflexivity | vm_compute; discriminate]. Qed.

(** The balance constant as the claim has it: from the source residual
    ([SourceSwitch] on, [ConvFluxSwitch] off) at the pre-step state. *)
Definition Simpler_claimed_balance {T : Type} {ST : Scalar T} (ops : Ops (T:=T))
  (self : Splitting (T:=T)) (solver : Solver (T:=T)) : Arr (T:=T) :=
  ascale (sopp s1)
    (get_residual ops (switches true false) (time solver) None (U solver) (R (base self))).

Lemma Simpler_balance_is_not_source_residual :
  balance_const (snd (Simpler_take_time_step ops64 splitting64 (solver64 true true)))
  <> Some (Simpler_claimed_balance ops64 splitting64 (solver64 true true))
  /\ length (substeps (trace (snd (Simpler_take_time_step ops64 splitting64
                                     (solver64 true true)))))
     <> length (Strang_claimed_substeps splitting64 None).
Proof.
  split.
  - intro H.
    apply (f_equal (fun o => match o with
                             | Some [[ [x] ]] => PrimFloat.eqb x (-1)%float
                             | _ => false
                             end)) in H.
    vm_compute in H. discriminate H.
  - vm_compute. discriminate.
Qed.

Lemma ADER_predictor_read_unlimited :
  limited_before_use clean
    (trace (snd (take_time_step ops64 ADER (stepper64 1%float) (solver64 true true))))
  = false.
Proof. vm_compute. reflexivity. Qed.
End StepperExamples.

(** ** Boundary conditions and the store *)

Section BCFrame.
Context {T : Type} {ST : Scalar T}.
Import BC.
Local Abbreviation Arr := (BC.Arr (T:=T)).
Local Abbreviation Heap := (BC.Heap (T:=T)).
Local Abbreviation M := (BC.M (T:=T)).

(** [frames n0 Q m]: run in a store of at least [n0] arrays, [m] leaves
    the first [n0] of them as they are, drops none, and returns only
    values that satisfy [Q]. *)
Definition frames {A : Type} (n0 : nat) (Q : A -> Prop) (m : M A) : Prop :=
  forall h : Heap, (n0 <= length h)%nat ->
    (length h <= length (snd (m h)))%nat /\
    (forall l, (l < n0)%nat -> nth l (snd (m h)) [] = nth l h []) /\
    (forall a, fst (m h) = Ok a -> Q a).

Lemma length_upd_heap (A : Type) (i : nat) (x : A) (v : list A) :
  length (upd i x v) = length v.
Proof. revert i. induction v as [|a v IH]; intros [|i]; simpl; auto. Qed.

Lemma nth_upd_other (A : Type) (i l : nat) (x d : A) (v : list A) :
  l <> i -> nth l (upd i x v) d = nth l v d.
Proof.
  revert i l. induction v as [|a v IH]; intros i l H.
  - destruct i, l; reflexivity.
  - destruct i as [|i], l as [|l]; simpl; try reflexivity.
    + contradiction.
    + apply IH. intro E. apply H. f_equal. exact E.
Qed.

Lemma frames_ret {A : Type} (n0 : nat) (Q : A -> Prop) (a : A) :
  Q a -> frames n0 Q (ret a).
Proof. intros HQ h Hn. cbn. repeat split; auto. intros a' [= <-]. apply HQ. Qed.

Lemma frames_raise {A : Type} (n0 : nat) (Q : A -> Prop) (err : Error) :
  frames n0 Q (raise err).
Proof. intros h Hn. cbn. repeat split; auto. intros a' H. discriminate H. Qed.

Lemma frames_read (n0 : nat) (l : loc) : frames n0 (fun _ => True) (read l).
Proof. intros h Hn. cbn. repeat split; auto. Qed.

(** A copy is a new array: its reference is past every array of the store
    it was made in. *)
Lemma frames_copy (n0 : nat) (l : loc) :
  frames n0 (fun l' => (n0 <= l')%nat) (copy l).
Proof.
  intros h Hn. cbn. rewrite length_app. cbn. repeat split; try lia.
  - intros l' Hl. rewrite app_nth1 by lia. reflexivity.
  - intros a [= <-]. exact Hn.
Qed.

Lemma frames_modify (n0 : nat) (l : loc) (f : Arr -> Arr) :
  (n0 <= l)%nat -> frames n0 (fun _ => True) (modify l f).
Proof.
  intros Hl h Hn. cbn. rewrite length_upd_heap. repeat split; auto.
  intros l' Hl'. apply nth_upd_other. lia.
Qed.

Lemma frames_bind {A B : Type} (n0 : nat) (P : A -> Prop) (Q : B -> Prop)
  (m : M A) (k : A -> M B) :
  frames n0 P m ->
  (forall a, P a -> frames n0 Q (k a)) ->
  frames n0 Q (bind m k).
Proof.
  intros Hm Hk h Hn. destruct (Hm h Hn) as (H1 & H2 & H3).
  unfold bind. destruct (m h) as [[a|err] h'] eqn:E; cbn in *.
  - destruct (Hk a (H3 a eq_refl) h' ltac:(lia)) as (K1 & K2 & K3).
    repeat split.
    + lia.
    + intros l Hl. rewrite K2 by exact Hl. apply H2, Hl.
    + exact K3.
  - repeat split; auto. intros b Hb. discriminate Hb.
Qed.

Ltac frame_step :=
  match goal with
  | |- frames _ _ (bind (read _) _) => eapply frames_bind; [apply frames_read | intros ? _]
  | |- frames _ _ (bind (copy _) _) => eapply frames_bind; [apply frames_copy | intros ? ?]
  | |- frames _ _ (bind (modify _ _) _) =>
      eapply frames_bind; [apply frames_modify; assumption | intros ? _]
  | |- frames _ _ (ret _) => apply frames_ret; assumption
  | |- frames _ _ (raise _) => apply frames_raise
  | |- frames _ _ (if ?b then _ else _) => destruct b
  | |- frames _ _ (let '(_, _) := ?x in _) => destruct x
  end.

(** Claim C10.  For each of the six Euler boundary conditions,
    [get_boundary_state] leaves the interior state array [UqI], and every
    other array that existed before the call, entry for entry as it was;
    the array it returns is a new one, distinct from [UqI]. *)
Theorem boundary_state_is_fresh_copy (power : T -> T -> T) (physics : Physics T)
  (bc : BCType) (UqI : loc) (normals : Arr) (h : Heap) :
  (UqI < length h)%nat ->
  let result := get_boundary_state physics power bc UqI normals h in
  nth UqI (snd result) [] = nth UqI h []
  /\ (forall l, (l < length h)%nat -> nth l (snd result) [] = nth l h [])
  /\ (forall UqB, fst result = Ok UqB -> UqB <> UqI /\ (length h <= UqB)%nat).
Proof.
  intros HI. cbv zeta.
  assert (HF : frames (length h) (fun l' => (length h <= l')%nat)
                 (get_boundary_state physics power bc UqI normals)).
  { destruct bc; cbn [get_boundary_state];
      [ unfold SlipWall_get_boundary_state
      | unfold SlipWallRiemann_get_boundary_state
      | unfold PressureOutlet_get_boundary_state
      | unfold AdiabaticWall_get_boundary_state
      | unfold IsothermalWall_get_boundary_state, set_rhoE, set_rho, set_Y_T_p;
        destruct (Nat.eqb method 1); [| destruct (Nat.eqb method 2)]
      | unfold IsothermalWallRiemann_get_boundary_state ];
      cbv zeta; repeat frame_step. }
  destruct (HF h (le_n _)) as (H1 & H2 & H3).
  repeat split.
  - apply H2, HI.
  - exact H2.
  - specialize (H3 _ H). lia.
  - apply (H3 _ H).
Qed.
End BCFrame.

(** ** Roe flux: the checks on density and speed of sound *)

(** Air in binary64: [gamma = 7/5], [R = 287]. *)
Definition air64 (ndims : nat) : Physics float :=
  Euler (sdiv (sofZ 7) (sofZ 5)) (sofZ 287) ndims.

(** The outcome of the three checks of [Roe.compute_flux], whatever the
    scalar type. *)
Lemma Roe_compute_flux_cases {T : Type} {ST : Scalar T} (self : Roe.Methods)
  (physics : Physics T) (UqL UqR normals : Batch (Vec T)) :
  let rhoL := bmap2 (Roe.density self physics) UqL normals in
  let rhoR := bmap2 (Roe.density self physics) UqR normals in
  let c2 := bmap3 (Roe.c2_point self physics) UqL UqR normals in
  let bad := bany (fun r => sleb r s0) rhoL || bany (fun r => sleb r s0) rhoR
             || bany (fun x => sleb x s0) c2 in
  (bad = true -> exists msg,
      Roe.compute_flux self physics UqL UqR normals = Raise (NotPhysicalError msg))
  /\ (bad = false ->
      Roe.compute_flux self physics UqL UqR normals
      = Ok (bmap3 (Roe.flux_point self physics) UqL UqR normals)).
Proof.
  cbv zeta. unfold Roe.compute_flux.
  destruct (bany _ (bmap2 _ UqL normals)); cbn [orb];
    [split; [eauto | discriminate]|].
  destruct (bany _ (bmap2 _ UqR normals)); cbn [orb];
    [split; [eauto | discriminate]|].
  destruct (bany (fun x => sleb x s0) _); split; eauto; discriminate.
Qed.

(** In binary64 a NaN is not below or equal to zero: [nan <= 0.] is
    [False] in numpy as in IEEE 754. *)
Lemma nan_not_leb (x y : float) : is_nan x = true -> (x <=? y)%float = false.
Proof.
  unfold is_nan. rewrite FloatAxioms.eqb_spec, FloatAxioms.leb_spec. intro H.
  destruct (Prim2SF x) as [s|s| |s m e]; cbn in H.
  - destruct s; discriminate H.
  - destruct s; discriminate H.
  - reflexivity.
  - unfold SFeqb, SFcompare in H. rewrite Z.compare_refl, Pos.compare_refl in H.
    destruct s; cbn in H; discriminate H.
Qed.

Lemma bany_nan_leb (X : Batch float) :
  Forall (Forall (fun x => is_nan x = true)) X ->
  bany (fun x => (x <=? 0)%float) X = false.
Proof.
  intro H. unfold bany. induction H as [|row X Hrow _ IH]; [reflexivity|].
  cbn [existsb]. rewrite IH, orb_false_r.
  induction Hrow as [|x row Hx _ IHr]; [reflexivity|].
  cbn [existsb]. rewrite IHr, orb_false_r. apply nan_not_leb, Hx.
Qed.

(** Claim C3.  In binary64, when the densities pass their checks and the
    speed of sound squared of the Roe-averaged state is NaN at every point
    of the batch, [Roe1D.compute_flux] raises no error and returns a flux:
    the check [np.any(c2 <= 0.)] does not see a NaN. *)
Theorem Roe1D_NaN_sound_speed_returns_flux (physics : Physics float)
  (UqL UqR normals : Batch (Vec float)) :
  bany (fun r => sleb r s0) (bmap2 (Roe.density Roe.Roe1D physics) UqL normals) = false ->
  bany (fun r => sleb r s0) (bmap2 (Roe.density Roe.Roe1D physics) UqR normals) = false ->
  Forall (Forall (fun x => sisnan x = true))
    (bmap3 (Roe.c2_point Roe.Roe1D physics) UqL UqR normals) ->
  Roe.compute_flux Roe.Roe1D physics UqL UqR normals
  = Ok (bmap3 (Roe.flux_point Roe.Roe1D physics) UqL UqR normals).
Proof.
  intros HL HR Hc2.
  apply (Roe_compute_flux_cases Roe.Roe1D physics UqL UqR normals).
  rewrite HL, HR. cbn [orb]. apply bany_nan_leb, Hc2.
Qed.

Definition blown_up : Batch (Vec float) := [[ [1%float; 0%float; nan] ]].

Lemma Roe1D_NaN_sound_speed_returns_flux_witness :
  Roe.compute_flux Roe.Roe1D (air64 1) blown_up blown_up [[ [1%float] ]]
  = Ok [[ [nan; nan; nan] ]].
Proof.
  rewrite (Roe1D_NaN_sound_speed_returns_flux (air64 1) blown_up blown_up [[ [1%float] ]]).
  - vm_compute. reflexivity.
  - vm_compute. reflexivity.
  - vm_compute. reflexivity.
  - repeat constructor.
Defined.

(** A finite state does it too: the density is tiny, the total enthalpy
    and the kinetic energy per unit mass both overflow, and their
    difference is NaN. *)
Definition overflowing : Batch (Vec float) :=
  [[ [0x1p-1000%float; 0x1p-300%float; 0x1p399%float] ]].

Lemma Roe1D_overflow_returns_NaN_flux :
  Roe.compute_flux Roe.Roe1D (air64 1) overflowing overflowing [[ [1%float] ]]
  = Ok [[ [nan; nan; nan] ]].
Proof. vm_compute. reflexivity. Qed.

(** Where one entry of [c2] is NaN and another is not positive, the error
    is raised and its message names the NaN. *)
Lemma Roe1D_NaN_reported_with_negative :
  Roe.compute_flux Roe.Roe1D (air64 1)
    [[ [1%float; 0%float; nan]; [1%float; 0%float; (-1)%float] ]]
    [[ [1%float; 0%float; nan]; [1%float; 0%float; (-1)%float] ]]
    [[ [1%float]; [1%float] ]]
  = Raise (NotPhysicalError "Speed of sound is NaN").
Proof. vm_compute. reflexivity. Qed.

(** ** Exact arithmetic: fluxes and boundary states over the real numbers *)

Open Scope R_scope.

(** *** Sums and dot products *)

Ltac rsimp := cbn [s0 s1 s2 shalf sadd ssub smul sdiv sopp ssqrt sabs sleb sltb sisnan Scalar_R] in *.

Lemma fold_left_Rplus_acc (l : list R) (a : R) :
  fold_left Rplus l a = a + fold_left Rplus l 0.
Proof.
  revert a. induction l as [|x l IH]; intro a; simpl.
  - lra.
  - rewrite IH, (IH (0 + x)). lra.
Qed.

Lemma vsum_cons (x : R) (l : list R) : vsum (x :: l) = x + vsum l.
Proof. unfold vsum. simpl. rsimp. rewrite fold_left_Rplus_acc. lra. Qed.

Lemma vsum_nil : vsum (@nil R) = 0.
Proof. reflexivity. Qed.

Lemma dot_nil_l (v : list R) : dot [] v = 0.
Proof. reflexivity. Qed.

Lemma dot_nil_r (u : list R) : dot u [] = 0.
Proof. destruct u; reflexivity. Qed.

Lemma dot_cons (x y : R) (u v : list R) : dot (x :: u) (y :: v) = x * y + dot u v.
Proof. unfold dot. simpl. rewrite vsum_cons. reflexivity. Qed.

Lemma dot_vdivs_r (u v : list R) (a : R) : dot u (vdivs v a) = dot u v / a.
Proof.
  unfold vdivs. revert v.
  induction u as [|x u IH]; intros [|y v]; cbn [map];
    rewrite ?dot_nil_l, ?dot_nil_r, ?dot_cons, ?IH; rsimp; unfold Rdiv; lra.
Qed.





Lemma LF_combine_same (F U : list R) (a : R) :
  length F = length U ->
  vsub (vadd F F) (vscale a (vsub U U)) = map (fun f => f + f) F.
Proof.
  revert U. induction F as [|f F IH]; intros [|u U] HL; simpl in HL; try discriminate.
  - reflexivity.
  - injection HL as HL. unfold vsub, vadd, vscale in *. cbn [map2 map].
    rewrite IH by exact HL. f_equal. rsimp. lra.
Qed.

Lemma LF_point_consistent (physics : Physics R) (U n : Vec R) :
  norm n <> 0 ->
  length (get_conv_flux_interior physics U) = length U ->
  LaxFriedrichs.compute_flux_point physics U U n
  = project_flux (get_conv_flux_interior physics U) n.
Proof.
  intros Hn HL. unfold LaxFriedrichs.compute_flux_point, get_conv_flux_projected.
  cbv zeta. 
  rewrite LF_combine_same by (unfold project_flux; rewrite length_map; exact HL).
  unfold project_flux, vscale. rewrite !map_map. apply map_ext. intro Fk.
  rewrite dot_vdivs_r. rsimp. field. exact Hn.
Qed.

(** *** Vectors of zeros *)

Definition allzero (v : list R) : Prop := Forall (fun x => x = 0) v.

Lemma allzero_repeat (n : nat) : allzero (repeat 0 n).
Proof. induction n; simpl; constructor; auto. Qed.

Lemma allzero_upd (i : nat) (v : list R) : allzero v -> allzero (upd i 0 v).
Proof.
  intro H. revert i. induction H as [|x v Hx Hv IH]; intros [|i]; simpl;
    constructor; auto. apply IH.
Qed.

Lemma allzero_fill_slice (lo hi : nat) (v : list R) :
  allzero v -> allzero (fill_slice lo hi 0 v).
Proof.
  intro H. revert lo hi. induction H as [|x v Hx Hv IH]; intros lo hi; simpl;
    constructor; [destruct (_ && _); auto | apply IH].
Qed.

Lemma allzero_nth (v : list R) (i : nat) : allzero v -> nth i v 0 = 0.
Proof.
  intro H. revert i. induction H as [|x v Hx Hv IH]; intros [|i]; simpl; auto.
Qed.

Lemma allzero_vsum (v : list R) : allzero v -> vsum v = 0.
Proof.
  induction 1 as [|x v Hx Hv IH]; [reflexivity|].
  rewrite vsum_cons, IH, Hx. lra.
Qed.

Lemma allzero_vsub_diag (v : list R) : allzero (vsub v v).
Proof.
  induction v as [|x v IH]; simpl; constructor; auto. rsimp. lra.
Qed.

Lemma allzero_vmul_r (u v : list R) : allzero v -> allzero (vmul u v).
Proof.
  intro H. revert u. induction H as [|x v Hx Hv IH]; intros [|y u]; simpl;
    constructor; auto.
  - rsimp. subst. lra.
  - apply IH.
Qed.

Lemma allzero_vmul_l (u v : list R) : allzero u -> allzero (vmul u v).
Proof.
  intro H. revert v. induction H as [|x u Hx Hu IH]; intros [|y v]; simpl;
    constructor; auto.
  - rsimp. subst. lra.
  - apply IH.
Qed.

Lemma allzero_vdiv_l (u v : list R) : allzero u -> allzero (vdiv u v).
Proof.
  intro H. revert v. induction H as [|x u Hx Hu IH]; intros [|y v]; simpl;
    constructor; auto.
  - rsimp. subst. unfold Rdiv. lra.
  - apply IH.
Qed.

Lemma allzero_dot_r (u v : list R) : allzero v -> dot u v = 0.
Proof. intro H. apply allzero_vsum. apply (allzero_vmul_r u v H). Qed.

Lemma allzero_app (u v : list R) : allzero u -> allzero v -> allzero (u ++ v).
Proof. intros; apply Forall_app; split; assumption. Qed.

Lemma allzero_firstn (k : nat) (v : list R) : allzero v -> allzero (firstn k v).
Proof.
  intro H. revert k. induction H as [|x v Hx Hv IH]; intros [|k]; simpl;
    constructor; auto. apply IH.
Qed.

Lemma allzero_skipn (k : nat) (v : list R) : allzero v -> allzero (skipn k v).
Proof.
  intro H. revert k. induction H as [|x v Hx Hv IH]; intros [|k]; simpl.
  - constructor.
  - constructor.
  - constructor; assumption.
  - apply IH.
Qed.

Lemma allzero_get_slice (s : Slice) (v : list R) : allzero v -> allzero (get_slice s v).
Proof. intro H. apply allzero_firstn, allzero_skipn, H. Qed.

Lemma allzero_set_slice (s : Slice) (v w : list R) :
  allzero v -> allzero w -> allzero (set_slice s v w).
Proof.
  intros Hv Hw. unfold set_slice.
  apply allzero_app; [apply allzero_firstn, Hv|].
  apply allzero_app; [exact Hw | apply allzero_skipn, Hv].
Qed.

Lemma allzero_map_const (A : Type) (f : A -> R) (l : list A) :
  (forall a, f a = 0) -> allzero (map f l).
Proof. intro H. induction l; simpl; constructor; auto. Qed.

Lemma length_upd (A : Type) (i : nat) (x : A) (v : list A) : length (upd i x v) = length v.
Proof. revert i. induction v as [|a v IH]; intros [|i]; simpl; auto. Qed.

Lemma length_fill_slice (A : Type) (lo hi : nat) (x : A) (v : list A) :
  length (fill_slice lo hi x v) = length v.
Proof. revert lo hi. induction v as [|a v IH]; intros lo hi; simpl; auto. Qed.

Lemma length_upd2 (A : Type) (i j : nat) (x : A) (M : list (list A)) :
  length (upd2 i j x M) = length M.
Proof. unfold upd2. destruct (nth_error M i); [apply length_upd | reflexivity]. Qed.

Lemma length_map2 (A B C : Type) (f : A -> B -> C) (l : list A) (m : list B) :
  length (map2 f l m) = Nat.min (length l) (length m).
Proof. revert m. induction l as [|a l IH]; intros [|b m]; simpl; auto. Qed.

Lemma length_get_slice (A : Type) (s : Slice) (v : list A) :
  (stop s <= length v)%nat -> length (get_slice s v) = (stop s - start s)%nat.
Proof.
  intro H. unfold get_slice. rewrite length_firstn, length_skipn. lia.
Qed.

Lemma length_set_slice (A : Type) (s : Slice) (v w : list A) :
  (start s <= stop s)%nat -> (stop s <= length v)%nat ->
  length w = (stop s - start s)%nat ->
  length (set_slice s v w) = length v.
Proof.
  intros H1 H2 H3. unfold set_slice.
  rewrite !length_app, length_firstn, length_skipn. lia.
Qed.

Lemma combine_allzero (F Z : list R) :
  allzero Z -> length Z = length F ->
  vsub (vadd F F) Z = map (fun f => f + f) F.
Proof.
  intro H. revert F. induction H as [|z Z Hz HZ IH]; intros [|f F] HL;
    simpl in HL; try discriminate; [reflexivity|].
  injection HL as HL. unfold vsub, vadd in *. cbn [map2 map].
  rewrite IH by exact HL. f_equal. rsimp. lra.
Qed.

(** *** Roe flux at equal states *)

(** The momentum slice fits a state of [ns] entries and the normal has its width. *)
Definition momentum_shape (srhou : Slice) (ns : nat) (n : Vec R) : Prop :=
  (start srhou <= stop srhou)%nat /\ (stop srhou <= ns)%nat /\
  length n = (stop srhou - start srhou)%nat.

(** What the consistency proof needs of the overridable methods. *)
Record zero_jump (self : Roe.Methods) : Prop := {
  zj_alphas : forall Z c c2 dvel rhoRoe,
    allzero Z -> allzero dvel ->
    allzero (Roe.get_alphas self Z c c2 0 dvel 0 rhoRoe);
  zj_R : forall R c evals velRoe HRoe,
    length (Roe.get_right_eigenvectors self R c evals velRoe HRoe) = length R;
  zj_undo_zero : forall s Z n, allzero Z -> allzero (Roe.undo_rotate_coord_sys self s Z n);
  zj_undo_length : forall s Z n, momentum_shape s (length Z) n ->
    length (Roe.undo_rotate_coord_sys self s Z n) = length Z
}.

Lemma zero_jump_Roe1D : zero_jump Roe.Roe1D.
Proof.
  split; cbn [Roe.get_alphas Roe.get_right_eigenvectors Roe.undo_rotate_coord_sys Roe.Roe1D].
  - intros Z c c2 dvel rhoRoe HZ Hd. unfold Roe.get_alphas_1D. cbv zeta.
    rsimp. rewrite (allzero_nth dvel 0 Hd).
    replace (1 / 2 / c2 * (0 - c * rhoRoe * 0)) with 0 by (unfold Rdiv; ring).
    replace (0 - 0 / c2) with 0 by (unfold Rdiv; ring).
    replace (1 / 2 / c2 * (0 + c * rhoRoe * 0)) with 0 by (unfold Rdiv; ring).
    apply allzero_upd, allzero_fill_slice, allzero_upd, HZ.
  - intros. unfold Roe.get_right_eigenvectors_1D. cbv zeta.
    rewrite !length_upd2. reflexivity.
  - intros s Z n HZ. unfold Roe.undo_rotate_coord_sys_1D.
    apply allzero_set_slice; [exact HZ|]. apply allzero_vdiv_l, allzero_get_slice, HZ.
  - intros s Z n (H1 & H2 & H3). unfold Roe.undo_rotate_coord_sys_1D.
    apply length_set_slice; auto. unfold vdiv. rewrite length_map2, length_get_slice by auto.
    lia.
Qed.

Lemma zero_jump_Roe2D : zero_jump Roe.Roe2D.
Proof.
  split; cbn [Roe.get_alphas Roe.get_right_eigenvectors Roe.undo_rotate_coord_sys Roe.Roe2D].
  - intros Z c c2 dvel rhoRoe HZ Hd. unfold Roe.get_alphas_2D. cbv zeta.
    rsimp. rewrite (allzero_nth dvel _ Hd), Rmult_0_r.
    apply allzero_upd. apply (zj_alphas _ zero_jump_Roe1D); assumption.
  - intros. unfold Roe.get_right_eigenvectors_2D. cbv zeta.
    rewrite !length_upd2. apply (zj_R _ zero_jump_Roe1D).
  - intros s Z n HZ. unfold Roe.undo_rotate_coord_sys_2D. cbv zeta.
    pose proof (allzero_get_slice s Z HZ) as Hg.
    apply allzero_set_slice; [exact HZ|].
    rewrite (allzero_vsum _ (allzero_vmul_l _ _ (allzero_vmul_l _ _ Hg))).
    rewrite (allzero_vsum _ (allzero_vmul_l _ _ Hg)).
    apply allzero_upd, allzero_upd, Hg.
  - intros s Z n (H1 & H2 & H3). unfold Roe.undo_rotate_coord_sys_2D. cbv zeta.
    apply length_set_slice; auto. rewrite !length_upd. apply length_get_slice, H2.
Qed.

Lemma Roe_point_consistent (self : Roe.Methods) (physics : Physics R) (U n : Vec R) :
  zero_jump self ->
  momentum_shape (get_state_slice physics "Momentum") (length U) n ->
  norm n <> 0 ->
  length (get_conv_flux_interior physics U) = length U ->
  Roe.flux_point self physics U U n
  = project_flux (get_conv_flux_interior physics U) n.
Proof.
  intros Hself Hshape Hnorm HF.
  unfold Roe.flux_point, get_conv_flux_projected.
  destruct (Roe.roe_state self physics U U n) as [[[rhoRoe YRoe] velRoe] HRoe].
  unfold Roe.get_differences. cbv zeta. cbn [fst].
  set (W := Roe.rotated self physics U n).
  set (th := set_thermo_state physics W).
  replace (thermo.p th - thermo.p th)%s with 0 by (rsimp; lra).
  rewrite (allzero_vsum _ (allzero_vsub_diag _)).
  set (alphas := Roe.get_alphas _ _ _ _ _ _ _ _).
  assert (Ha : allzero alphas).
  { apply (zj_alphas _ Hself); [apply allzero_repeat | apply allzero_vsub_diag]. }
  set (evals := Roe.get_eigenvalues _ _ _ _).
  set (Rm := Roe.get_right_eigenvectors _ _ _ _ _ _).
  set (FRoe := map _ Rm).
  assert (HZ : allzero FRoe).
  { apply allzero_map_const. intro Rk. apply allzero_dot_r, allzero_vmul_r, Ha. }
  assert (HLen : length FRoe = length U).
  { unfold FRoe, Rm. rewrite length_map, (zj_R _ Hself), repeat_length. reflexivity. }
  rewrite combine_allzero.
  - unfold project_flux, vscale. rewrite !map_map. apply map_ext. intro Fk.
    unfold Roe.n_hat. rewrite dot_vdivs_r. rsimp. field. exact Hnorm.
  - apply (zj_undo_zero _ Hself), HZ.
  - rewrite (zj_undo_length _ Hself).
    + unfold project_flux. rewrite length_map, HF. exact HLen.
    + rewrite HLen. unfold Roe.n_hat, vdivs, momentum_shape in *.
      rewrite length_map. exact Hshape.
Qed.

(** *** HLLC flux at equal states *)

Lemma Rltb_irrefl (x : R) : Rltb x x = false.
Proof. unfold Rltb. destruct (Rlt_dec x x); [lra | reflexivity]. Qed.

Lemma Rltb_true (x y : R) : Rltb x y = true <-> x < y.
Proof. unfold Rltb. destruct (Rlt_dec x y); split; intros; auto; discriminate. Qed.

Lemma Rltb_false (x y : R) : Rltb x y = false <-> y <= x.
Proof. unfold Rltb. destruct (Rlt_dec x y); split; intros; auto; try discriminate; lra. Qed.

Lemma Rleb_true (x y : R) : Rleb x y = true <-> x <= y.
Proof. unfold Rleb. destruct (Rle_dec x y); split; intros; auto; discriminate. Qed.

Lemma Rleb_false (x y : R) : Rleb x y = false <-> y < x.
Proof. unfold Rleb. destruct (Rle_dec x y); split; intros; auto; try discriminate; lra. Qed.

Lemma minimum_same (x : R) : minimum x x = x.
Proof. unfold minimum. rsimp. rewrite Rltb_irrefl. reflexivity. Qed.

Lemma maximum_same (x : R) : maximum x x = x.
Proof. unfold maximum. rsimp. rewrite Rltb_irrefl. reflexivity. Qed.

Lemma HLLC_wave_speeds_same (rho a p u g : R) :
  0 < rho -> 0 <= a ->
  HLLC.get_wave_speeds rho rho a a p p u u g g = (u - a, u + a).
Proof.
  intros Hrho Ha.
  assert (Hs : 0 < sqrt rho) by (apply sqrt_lt_R0, Hrho).
  assert (Hroe : HLLC.get_wave_speeds_roe rho rho a a p p u u g g = (u - a, u + a)).
  { unfold HLLC.get_wave_speeds_roe. cbv zeta. rsimp.
    replace ((sqrt rho * u + sqrt rho * u) * (1 / (sqrt rho + sqrt rho))) with u
      by (field; lra).
    replace ((sqrt rho * (a * a) + sqrt rho * (a * a)) * (1 / (sqrt rho + sqrt rho)) +
             1 / 2 * (sqrt rho * sqrt rho * ((u - u) * (u - u))) *
             (1 / (sqrt rho + sqrt rho) * (1 / (sqrt rho + sqrt rho))))
      with (a * a) by (field; lra).
    rewrite (sqrt_square a Ha). reflexivity. }
  assert (Hpvrs : HLLC.get_wave_speeds_pvrs rho rho a a p p u u g g = (u - a, u + a)).
  { unfold HLLC.get_wave_speeds_pvrs. cbv zeta. rsimp.
    replace (1 / 2 * (p + p - (u - u) * (1 / 2 * (rho + rho)) * (1 / 2 * (a + a))))
      with p by field.
    rewrite Rltb_irrefl. f_equal; ring. }
  unfold HLLC.get_wave_speeds. cbn [fold_left]. rewrite Hroe, Hpvrs.
  rsimp. rewrite !minimum_same, !maximum_same. reflexivity.
Qed.

Lemma vadd_zero_r (v z : list R) :
  allzero z -> length z = length v -> vadd v z = v.
Proof.
  intro H. revert v. induction H as [|x z Hx Hz IH]; intros [|y v] HL;
    simpl in HL; try discriminate; [reflexivity|].
  injection HL as HL. unfold vadd in *. cbn [map2]. rewrite IH by exact HL.
  f_equal. rsimp. subst. lra.
Qed.

Lemma allzero_vmuls_0 (v : list R) : allzero (vmuls v 0).
Proof. apply allzero_map_const. intro x. rsimp. ring. Qed.

Lemma allzero_vscale (a : R) (v : list R) : allzero v -> allzero (vscale a v).
Proof.
  induction 1 as [|x v Hx Hv IH]; simpl; constructor; auto. rsimp. subst. ring.
Qed.

(** The conserved state is the density times (mass fractions, velocity,
    specific total energy): what [HLLC] assumes when it rebuilds a state
    from thermodynamic quantities. *)
Definition conserved_state (physics : Physics R) (U : Vec R) : Prop :=
  let th := set_thermo_state physics U in
  let v := velocity physics U in
  U = vscale (thermo.rho th) (thermo.Y th ++ v ++ [thermo.e th + 1 / 2 * dot v v]).

Lemma HLLC_point_consistent (physics : Physics R) (U n : Vec R) :
  norm n <> 0 ->
  0 < thermo.rho (set_thermo_state physics U) ->
  0 <= thermo.c (set_thermo_state physics U) ->
  conserved_state physics U ->
  length (velocity physics U) = length n ->
  length (get_conv_flux_interior physics U) = length U ->
  HLLC.compute_flux_point physics U U n
  = project_flux (get_conv_flux_interior physics U) n.
Proof.
  intros Hnorm Hrho Hc Hst Hv HF.
  unfold HLLC.compute_flux_point, get_conv_flux_projected. cbv zeta.
  rewrite HLLC_wave_speeds_same by assumption. cbv beta iota. rsimp.
  unfold conserved_state in Hst. cbv zeta in Hst.
  set (th := set_thermo_state physics U) in *.
  set (v := velocity physics U) in *.
  set (nh := vdivs n (norm n)).
  set (u := dot v nh).
  set (F := project_flux (get_conv_flux_interior physics U) nh).
  set (rho := thermo.rho th) in *. set (a := thermo.c th) in *.
  assert (HFn : vscale (norm n) F = project_flux (get_conv_flux_interior physics U) n).
  { unfold F, nh, project_flux, vscale. rewrite map_map. apply map_ext. intro Fk.
    rewrite dot_vdivs_r. rsimp. field. exact Hnorm. }
  replace (if Rleb (u + a) 0 then F else F) with F by (destruct (Rleb _ _); reflexivity).
  destruct (Rltb (u - a) 0 && Rltb 0 (u + a)) eqn:Hfan; [| exact HFn].
  apply andb_prop in Hfan. destruct Hfan as [H1 H2].
  apply Rltb_true in H1, H2.
  assert (Ha : 0 < a) by lra.
  assert (Hra : 0 < rho * a) by (apply Rmult_lt_0_compat; assumption).
  replace ((thermo.p th - thermo.p th + u * (rho * (u - a - u)) - u * (rho * (u + a - u)))
           / (rho * (u - a - u) - rho * (u + a - u))) with u by (field; lra).
  assert (Hvk : vadd v (vmuls nh (u - dot v nh)) = v).
  { fold u. replace (u - u) with 0 by ring.
    apply vadd_zero_r; [apply allzero_vmuls_0|].
    unfold vmuls, nh, vdivs. rewrite !length_map. symmetry. exact Hv. }
  assert (HU : forall rk C, rk = rho -> C = 0 ->
             vscale rk (thermo.Y th ++ v ++ [thermo.e th + 1 / 2 * dot v v + C]) = U).
  { intros rk C -> ->. rewrite Rplus_0_r. symmetry. exact Hst. }
  assert (Hfin : forall S : R, vscale (norm n) (vadd F (vscale S (vsub U U)))
                 = project_flux (get_conv_flux_interior physics U) n).
  { intro S. rewrite vadd_zero_r; [exact HFn | apply allzero_vscale, allzero_vsub_diag |].
    unfold vscale, vsub, F, project_flux. rewrite !length_map, length_map2. lia. }
  destruct (Rltb u 0); rewrite Hvk, HU; try apply Hfin; try (field; lra); ring.
Qed.

(** *** Swapping the two sides of a face *)
















(** *** Roe flux under a swap *)



(** *** Consistency on batches *)

(** [P] holds at every pair of entries of two batches of one shape. *)
Definition BForall2 {A B : Type} (P : A -> B -> Prop) (X : Batch A) (Y : Batch B) : Prop :=
  Forall2 (Forall2 P) X Y.

Lemma map3_diag_ext {A B C : Type} (P : A -> B -> Prop) (f : A -> A -> B -> C)
  (g : A -> B -> C) (l : list A) (m : list B) :
  (forall a b, P a b -> f a a b = g a b) ->
  Forall2 P l m -> map3 f l l m = map2 g l m.
Proof.
  intros H HF. induction HF as [|a b l m Hab _ IH]; simpl; [reflexivity|].
  rewrite (H a b Hab), IH. reflexivity.
Qed.

Lemma bmap3_diag_ext {A B C : Type} (P : A -> B -> Prop) (f : A -> A -> B -> C)
  (g : A -> B -> C) (X : Batch A) (Y : Batch B) :
  (forall a b, P a b -> f a a b = g a b) ->
  BForall2 P X Y -> bmap3 f X X Y = bmap2 g X Y.
Proof.
  intros H HF. unfold bmap3, bmap2.
  apply (map3_diag_ext (Forall2 P)); [|exact HF].
  intros x y Hxy. apply (map3_diag_ext P); assumption.
Qed.

Lemma existsb_map2_false {A B C : Type} (P : A -> B -> Prop) (f : C -> bool)
  (g : A -> B -> C) (l : list A) (m : list B) :
  (forall a b, P a b -> f (g a b) = false) ->
  Forall2 P l m -> existsb f (map2 g l m) = false.
Proof.
  intros H HF. induction HF as [|a b l m Hab _ IH]; simpl; [reflexivity|].
  rewrite (H a b Hab), IH. reflexivity.
Qed.

Lemma bany_bmap2_false {A B C : Type} (P : A -> B -> Prop) (f : C -> bool)
  (g : A -> B -> C) (X : Batch A) (Y : Batch B) :
  (forall a b, P a b -> f (g a b) = false) ->
  BForall2 P X Y -> bany f (bmap2 g X Y) = false.
Proof.
  intros H HF. unfold bany, bmap2.
  apply (existsb_map2_false (Forall2 P)); [|exact HF].
  intros x y Hxy. apply (existsb_map2_false P); assumption.
Qed.

Lemma existsb_map3_diag_false {A B C : Type} (P : A -> B -> Prop) (f : C -> bool)
  (g : A -> A -> B -> C) (l : list A) (m : list B) :
  (forall a b, P a b -> f (g a a b) = false) ->
  Forall2 P l m -> existsb f (map3 g l l m) = false.
Proof.
  intros H HF. induction HF as [|a b l m Hab _ IH]; simpl; [reflexivity|].
  rewrite (H a b Hab), IH. reflexivity.
Qed.

Lemma bany_bmap3_diag_false {A B C : Type} (P : A -> B -> Prop) (f : C -> bool)
  (g : A -> A -> B -> C) (X : Batch A) (Y : Batch B) :
  (forall a b, P a b -> f (g a a b) = false) ->
  BForall2 P X Y -> bany f (bmap3 g X X Y) = false.
Proof.
  intros H HF. unfold bany, bmap3.
  apply (existsb_map3_diag_false (Forall2 P)); [|exact HF].
  intros x y Hxy. apply (existsb_map3_diag_false P); assumption.
Qed.

(** What the consistency of each flux asks of a state [U] and a normal [n]
    at one point: a normal that is not zero, a flux of the state's shape,
    and the physical validity that the flux function itself relies on. *)
Definition roe_consistent_input (self : Roe.Methods) (physics : Physics R) (U n : Vec R)
  : Prop :=
  momentum_shape (get_state_slice physics "Momentum") (length U) n /\
  0 < Roe.density self physics U n /\
  0 < Roe.c2_point self physics U U n.

Definition hllc_consistent_input (physics : Physics R) (U n : Vec R) : Prop :=
  0 < thermo.rho (set_thermo_state physics U) /\
  0 <= thermo.c (set_thermo_state physics U) /\
  conserved_state physics U /\
  length (velocity physics U) = length n.

Definition consistent_input (fcn : ConvNumFlux) (physics : Physics R) (U n : Vec R) : Prop :=
  norm n <> 0 /\
  length (get_conv_flux_interior physics U) = length U /\
  match fcn with
  | FluxLaxFriedrichs => True
  | FluxRoe1D => roe_consistent_input Roe.Roe1D physics U n
  | FluxRoe2D => roe_consistent_input Roe.Roe2D physics U n
  | FluxHLLC => hllc_consistent_input physics U n
  end.

(** The analytic interior flux of each state of a batch, projected on its
    normal. *)
Definition interior_flux_projected (physics : Physics R) (U normals : Batch (Vec R))
  : Batch (Vec R) :=
  bmap2 (fun u n => project_flux (get_conv_flux_interior physics u) n) U normals.

Lemma Roe_consistent (self : Roe.Methods) (physics : Physics R) (U normals : Batch (Vec R)) :
  zero_jump self ->
  BForall2 (fun u n => norm n <> 0 /\
                       length (get_conv_flux_interior physics u) = length u /\
                       roe_consistent_input self physics u n) U normals ->
  Roe.compute_flux self physics U U normals = Ok (interior_flux_projected physics U normals).
Proof.
  intros Hself HV. unfold Roe.compute_flux.
  rewrite (bany_bmap2_false _ _ _ U normals
             (fun u n (H : _ /\ _ /\ roe_consistent_input self physics u n) =>
                proj2 (Rleb_false _ _) (proj1 (proj2 (proj2 (proj2 H))))) HV).
  rewrite (bany_bmap3_diag_false _ _ _ U normals
             (fun u n (H : _ /\ _ /\ roe_consistent_input self physics u n) =>
                proj2 (Rleb_false _ _) (proj2 (proj2 (proj2 (proj2 H))))) HV).
  f_equal. unfold interior_flux_projected.
  apply (bmap3_diag_ext _ _ _ U normals) with (2 := HV).
  intros u n (Hn & HF & Hs & _). apply Roe_point_consistent; assumption.
Qed.

(** Claim C1 (consistency).  When both sides of a face carry the same
    batch [U] of valid states and no normal is the zero vector, each
    numerical flux (Lax-Friedrichs, Roe in one and two dimensions, HLLC)
    raises nothing and returns the analytic interior flux of [U] projected
    on the normals: the dissipation terms vanish. *)
Theorem flux_consistency (fcn : ConvNumFlux) (physics : Physics R)
  (U normals : Batch (Vec R)) :
  BForall2 (consistent_input fcn physics) U normals ->
  compute_flux fcn physics U U normals = Ok (interior_flux_projected physics U normals).
Proof.
  intro HV. destruct fcn; unfold compute_flux, consistent_input in *.
  - f_equal. apply (bmap3_diag_ext _ _ _ U normals) with (2 := HV).
    intros u n (Hn & HF & _). apply LF_point_consistent; assumption.
  - apply Roe_consistent; [exact zero_jump_Roe1D | exact HV].
  - apply Roe_consistent; [exact zero_jump_Roe2D | exact HV].
  - f_equal. apply (bmap3_diag_ext _ _ _ U normals) with (2 := HV).
    intros u n (Hn & HF & Hr & Hc & Hst & Hv). apply HLLC_point_consistent; assumption.
Qed.

(** *** Air as a calorically perfect gas *)

(** Air at rest and in motion, for the examples: [gamma = 7/5]. *)
Definition air (ndims : nat) : Physics R := Euler (7 / 5) 287 ndims.

Ltac eval_euler :=
  cbv [air Euler euler_thermo euler_velocity euler_pressure euler_flux euler_rho
       euler_mom euler_rhoE euler_srho euler_srhou euler_srhoE
       get_state_slice get_state_slices set_thermo_state velocity TotalEnthalpy
       get_conv_flux_interior NDIMS project_flux
       thermo.rho thermo.p thermo.c thermo.gamma thermo.Y thermo.e
       get_slice set_slice start stop firstn skipn app map map2 seq nth
       Nat.sub Nat.add Nat.eqb length
       vsum dot norm vadd vsub vmul vdiv vneg vscale vmuls vdivs fold_left
       String.eqb Ascii.eqb Bool.eqb
       s0 s1 s2 shalf sadd ssub smul sdiv sopp ssqrt sabs sleb sltb sisnan Scalar_R].

Lemma norm1 (x : R) : x <> 0 -> norm [x] <> 0.
Proof.
  intro H. unfold norm, dot, vsum. cbn. rewrite Rplus_0_l.
  intro E. apply sqrt_eq_0 in E; nra.
Qed.

(** *** Antisymmetry on batches *)

Inductive Forall3 {A B C : Type} (P : A -> B -> C -> Prop)
  : list A -> list B -> list C -> Prop :=
| Forall3_nil : Forall3 P [] [] []
| Forall3_cons : forall a b c l m k,
    P a b c -> Forall3 P l m k -> Forall3 P (a :: l) (b :: m) (c :: k).

Definition BForall3 {A B C : Type} (P : A -> B -> C -> Prop)
  (X : Batch A) (Y : Batch B) (Z : Batch C) : Prop :=
  Forall3 (Forall3 P) X Y Z.











Lemma Rmax_if (a b : R) : (if Rltb a b then b else a) = Rmax a b.
Proof.
  unfold Rltb, Rmax. destruct (Rlt_dec a b), (Rle_dec a b); try reflexivity; lra.
Qed.








(** *** The Lax-Friedrichs formula *)

Lemma nth_error_map3 {A B C D : Type} (f : A -> B -> C -> D)
  (l : list A) (m : list B) (k : list C) (i : nat) (a : A) (b : B) (c : C) :
  nth_error l i = Some a -> nth_error m i = Some b -> nth_error k i = Some c ->
  nth_error (map3 f l m k) i = Some (f a b c).
Proof.
  revert l m k. induction i as [|i IH]; intros [|a' l] [|b' m] [|c' k]; simpl;
    try discriminate.
  - intros [= ->] [= ->] [= ->]. reflexivity.
  - apply IH.
Qed.

Lemma bnth_bmap3 {A B C D : Type} (f : A -> B -> C -> D)
  (X : Batch A) (Y : Batch B) (Z : Batch C) (i j : nat) (a : A) (b : B) (c : C) :
  bnth X i j = Some a -> bnth Y i j = Some b -> bnth Z i j = Some c ->
  bnth (bmap3 f X Y Z) i j = Some (f a b c).
Proof.
  unfold bnth, bmap3. intros HX HY HZ.
  destruct (nth_error X i) as [x|] eqn:EX; [|discriminate].
  destruct (nth_error Y i) as [y|] eqn:EY; [|discriminate].
  destruct (nth_error Z i) as [z|] eqn:EZ; [|discriminate].
  rewrite (nth_error_map3 _ X Y Z i x y z EX EY EZ).
  apply nth_error_map3; assumption.
Qed.

(** The unit normal and the interior flux projected on it. *)
Definition unit_normal (n : Vec R) : Vec R := vdivs n (norm n).

Definition F_normal (physics : Physics R) (U n : Vec R) : Vec R :=
  project_flux (get_conv_flux_interior physics U) (unit_normal n).

(** The Lax-Friedrichs formula for a given dissipation coefficient:
    [1/2 |n| (F(L) + F(R) - alpha (U_R - U_L))]. *)
Definition LF_formula (alpha : R) (physics : Physics R) (UL UR n : Vec R) : Vec R :=
  vscale (1 / 2 * norm n)
    (vsub (vadd (F_normal physics UL n) (F_normal physics UR n))
          (vscale alpha (vsub UR UL))).

(** The coefficient in the spec's words: the larger, over the two sides,
    of sound speed plus magnitude of the normal velocity. *)
Definition alpha_normal_velocity (physics : Physics R) (UL UR n : Vec R) : R :=
  Rmax (thermo.c (set_thermo_state physics UL)
        + Rabs (dot (velocity physics UL) (unit_normal n)))
       (thermo.c (set_thermo_state physics UR)
        + Rabs (dot (velocity physics UR) (unit_normal n))).

(** The coefficient of the code: sound speed plus the magnitude of the
    whole velocity vector. *)
Definition alpha_speed (physics : Physics R) (UL UR : Vec R) : R :=
  Rmax (thermo.c (set_thermo_state physics UL) + norm (velocity physics UL))
       (thermo.c (set_thermo_state physics UR) + norm (velocity physics UR)).

Lemma LF_point_formula (physics : Physics R) (UL UR n : Vec R) :
  LaxFriedrichs.compute_flux_point physics UL UR n
  = LF_formula (alpha_speed physics UL UR) physics UL UR n.
Proof.
  unfold LaxFriedrichs.compute_flux_point, LF_formula, alpha_speed, F_normal,
    unit_normal, get_conv_flux_projected.
  cbv zeta. rsimp. rewrite Rmax_if. reflexivity.
Qed.

(** Claim C4, as amended.  At each quadrature point [(i, j)] the
    Lax-Friedrichs flux is [1/2 |n| (F(L) + F(R) - alpha (U_R - U_L))],
    with [F] the interior flux projected on the unit normal and [alpha]
    the larger, over the two sides, of the sound speed plus the magnitude
    of the velocity vector (the whole vector, not its normal component). *)
Theorem LaxFriedrichs_formula (physics : Physics R) (UqL UqR normals : Batch (Vec R))
  (i j : nat) (UL UR n : Vec R) :
  bnth UqL i j = Some UL -> bnth UqR i j = Some UR -> bnth normals i j = Some n ->
  bnth (LaxFriedrichs.compute_flux physics UqL UqR normals) i j
  = Some (LF_formula (alpha_speed physics UL UR) physics UL UR n).
Proof.
  intros HL HR Hn. unfold LaxFriedrichs.compute_flux.
  rewrite (bnth_bmap3 _ UqL UqR normals i j UL UR n HL HR Hn).
  f_equal. apply LF_point_formula.
Qed.

Lemma norm2 (x y : R) : norm [x; y] = sqrt (x * x + y * y).
Proof. unfold norm, dot, vsum. cbn. f_equal. ring. Qed.

Lemma sqrt_sq (x : R) : 0 <= x -> sqrt (x * x) = x.
Proof. apply sqrt_square. Qed.

(** Two states moving along the face (velocity [(0, 1)], normal [(1, 0)])
    with one sound speed: the normal velocity is zero, the speed is one. *)
Lemma LaxFriedrichs_normal_velocity_fails :
  bnth (LaxFriedrichs.compute_flux (air 2)
          [[ [1; 0; 1; 3] ]] [[ [2; 0; 2; 6] ]] [[ [1; 0] ]]) 0 0
  <> Some (LF_formula
             (alpha_normal_velocity (air 2) [1; 0; 1; 3] [2; 0; 2; 6] [1; 0])
             (air 2) [1; 0; 1; 3] [2; 0; 2; 6] [1; 0]).
Proof.
  unfold LaxFriedrichs.compute_flux. cbn [bmap3 map3 bnth nth_error].
  rewrite LF_point_formula.
  intro E.
  apply (f_equal (fun o => match o with Some (x :: _) => x | _ => 0 end)) in E.
  unfold LF_formula, alpha_speed, alpha_normal_velocity, F_normal, unit_normal in E.
  rewrite !norm2 in E.
  replace (1 * 1 + 0 * 0) with (1 * 1) in E by ring.
  rewrite (sqrt_sq 1) in E by lra.
  revert E. eval_euler.
  replace (7 / 5 * ((7 / 5 - 1) * (3 - 1 / 2 * (0 + 0 * 0 + 1 * 1) / 1)) / 1)
    with (7 / 5) by field.
  replace (7 / 5 * ((7 / 5 - 1) * (6 - 1 / 2 * (0 + 0 * 0 + 2 * 2) / 2)) / 2)
    with (7 / 5) by field.
  replace (0 + 0 / 1 * (0 / 1) + 1 / 1 * (1 / 1)) with (1 * 1) by field.
  replace (0 + 0 / 2 * (0 / 2) + 2 / 2 * (2 / 2)) with (1 * 1) by field.
  replace (0 + 0 / 1 * (1 / 1) + 1 / 1 * (0 / 1)) with 0 by field.
  replace (0 + 0 / 2 * (1 / 1) + 2 / 2 * (0 / 1)) with 0 by field.
  rewrite (sqrt_sq 1) by lra. rewrite Rabs_R0.
  unfold Rmax. destruct (Rle_dec _ _); destruct (Rle_dec _ _); try lra.
Qed.

(** *** Concrete states *)



Lemma norm1_pos (x : R) : 0 <= x -> norm [x] = x.
Proof.
  intro H. unfold norm, dot, vsum. cbn. rewrite Rplus_0_l. apply sqrt_square, H.
Qed.

Lemma norm_3_4 : norm [3; 4] = 5.
Proof. rewrite norm2. replace (3 * 3 + 4 * 4) with (5 * 5) by ring. apply sqrt_square. lra. Qed.

Lemma sqrt_4 : sqrt 4 = 2.
Proof. replace 4 with (2 * 2) by ring. apply sqrt_square. lra. Qed.

Ltac eval_roe :=
  cbv [Roe.density Roe.c2_point Roe.roe_state Roe.roe_average_state Roe.rotated
       Roe.n_hat Roe.rotate_coord_sys Roe.Roe1D Roe.Roe2D Roe.rotate_coord_sys_1D
       Roe.rotate_coord_sys_2D upd rev app];
  rewrite ?(norm1_pos 2), ?norm_3_4 by lra;
  eval_euler; rewrite ?sqrt_1, ?sqrt_4.

Lemma norm_nonzero_2 : norm [2] <> 0.
Proof. rewrite norm1_pos; lra. Qed.

Lemma norm_nonzero_3_4 : norm [3; 4] <> 0.
Proof. rewrite norm_3_4; lra. Qed.

Lemma consistent_input_air_1D (fcn : ConvNumFlux) :
  fcn <> FluxRoe2D -> consistent_input fcn (air 1) [1; 1; 3] [2].
Proof.
  intro H. split; [exact norm_nonzero_2 | split; [reflexivity|]].
  destruct fcn; try contradiction; try exact I.
  - unfold roe_consistent_input, momentum_shape. eval_roe.
    repeat split; try lia; lra.
  - unfold hllc_consistent_input, conserved_state. eval_euler.
    repeat split; try lra; [apply sqrt_pos|].
    repeat (f_equal; try (field; lra)).
Qed.

Lemma consistent_input_air_2D (fcn : ConvNumFlux) :
  fcn <> FluxRoe1D -> consistent_input fcn (air 2) [1; 1; 2; 5] [3; 4].
Proof.
  intro H. split; [exact norm_nonzero_3_4 | split; [reflexivity|]].
  destruct fcn; try contradiction; try exact I.
  - unfold roe_consistent_input, momentum_shape. eval_roe.
    repeat split; try lia; lra.
  - unfold hllc_consistent_input, conserved_state. eval_euler.
    repeat split; try lra; [apply sqrt_pos|].
    repeat (f_equal; try (field; lra)).
Qed.

Lemma BForall2_single {A B : Type} (P : A -> B -> Prop) (a : A) (b : B) :
  P a b -> BForall2 P [[a]] [[b]].
Proof. intro H. repeat constructor. exact H. Qed.

Lemma flux_consistency_witness :
  compute_flux FluxLaxFriedrichs (air 1) [[ [1; 1; 3] ]] [[ [1; 1; 3] ]] [[ [2] ]]
  = Ok (interior_flux_projected (air 1) [[ [1; 1; 3] ]] [[ [2] ]]) /\
  compute_flux FluxRoe1D (air 1) [[ [1; 1; 3] ]] [[ [1; 1; 3] ]] [[ [2] ]]
  = Ok (interior_flux_projected (air 1) [[ [1; 1; 3] ]] [[ [2] ]]) /\
  compute_flux FluxRoe2D (air 2) [[ [1; 1; 2; 5] ]] [[ [1; 1; 2; 5] ]] [[ [3; 4] ]]
  = Ok (interior_flux_projected (air 2) [[ [1; 1; 2; 5] ]] [[ [3; 4] ]]) /\
  compute_flux FluxHLLC (air 2) [[ [1; 1; 2; 5] ]] [[ [1; 1; 2; 5] ]] [[ [3; 4] ]]
  = Ok (interior_flux_projected (air 2) [[ [1; 1; 2; 5] ]] [[ [3; 4] ]]).
Proof.
  repeat split; apply flux_consistency, BForall2_single;
    first [ apply consistent_input_air_1D | apply consistent_input_air_2D ];
    discriminate.
Defined.





Lemma LaxFriedrichs_formula_witness :
  bnth (LaxFriedrichs.compute_flux (air 2)
          [[ [1; 0; 1; 3] ]] [[ [2; 0; 2; 6] ]] [[ [1; 0] ]]) 0 0
  = Some (LF_formula (alpha_speed (air 2) [1; 0; 1; 3] [2; 0; 2; 6])
            (air 2) [1; 0; 1; 3] [2; 0; 2; 6] [1; 0]).
Proof.
  apply (LaxFriedrichs_formula (air 2) [[ [1; 0; 1; 3] ]] [[ [2; 0; 2; 6] ]] [[ [1; 0] ]]
           0 0 [1; 0; 1; 3] [2; 0; 2; 6] [1; 0]); reflexivity.
Defined.

(** ** Slip wall *)

Lemma nth_app_length {A : Type} (h : list A) (x d : A) : nth (length h) (h ++ [x]) d = x.
Proof. rewrite app_nth2 by lia. rewrite Nat.sub_diag. reflexivity. Qed.

Lemma upd_app_length {A : Type} (h : list A) (x y : A) :
  upd (length h) y (h ++ [x]) = h ++ [y].
Proof. induction h as [|a h IH]; simpl; [reflexivity | rewrite IH; reflexivity]. Qed.

Lemma get_set_slice {A : Type} (s : Slice) (v w : list A) :
  (start s <= stop s)%nat -> (stop s <= length v)%nat ->
  length w = (stop s - start s)%nat ->
  get_slice s (set_slice s v w) = w.
Proof.
  intros H1 H2 H3. unfold get_slice, set_slice.
  rewrite skipn_app, length_firstn, Nat.min_l by lia.
  rewrite skipn_all2 by (rewrite length_firstn; lia).
  rewrite Nat.sub_diag. cbn [skipn app].
  rewrite firstn_app, <- H3, firstn_all, Nat.sub_diag. cbn [firstn].
  apply app_nil_r.
Qed.

Lemma nth_set_slice_outside {A : Type} (s : Slice) (v w : list A) (k : nat) (d : A) :
  (start s <= stop s)%nat -> (stop s <= length v)%nat ->
  length w = (stop s - start s)%nat ->
  (k < start s \/ stop s <= k)%nat ->
  nth k (set_slice s v w) d = nth k v d.
Proof.
  intros H1 H2 H3 Hk. unfold set_slice.
  destruct Hk as [Hk | Hk].
  - rewrite app_nth1 by (rewrite length_firstn; lia).
    rewrite <- (firstn_skipn (start s) v) at 2.
    rewrite app_nth1 by (rewrite length_firstn; lia). reflexivity.
  - rewrite app_nth2 by (rewrite length_firstn; lia).
    rewrite app_nth2 by (rewrite length_firstn; lia).
    rewrite length_firstn, Nat.min_l by lia.
    rewrite <- (firstn_skipn (stop s) v) at 2.
    rewrite app_nth2 by (rewrite length_firstn; lia).
    rewrite length_firstn, Nat.min_l by lia.
    f_equal. lia.
Qed.

Lemma dot_vsub_l (a b t : list R) :
  length a = length b -> dot (vsub a b) t = dot a t - dot b t.
Proof.
  revert b t. induction a as [|x a IH]; intros [|y b] [|z t] H; simpl in H;
    try discriminate; unfold vsub; cbn [map2];
    rewrite ?dot_nil_l, ?dot_nil_r, ?dot_cons; try lra.
  injection H as H. fold (vsub a b). rewrite IH by exact H. rsimp. ring.
Qed.

Lemma dot_vscale_l (k : R) (v t : list R) : dot (vscale k v) t = k * dot v t.
Proof.
  revert t. induction v as [|x v IH]; intros [|z t]; unfold vscale; cbn [map];
    rewrite ?dot_nil_l, ?dot_nil_r, ?dot_cons; try lra.
  fold (vscale k v). rewrite IH. rsimp. ring.
Qed.

Lemma dot_vdivs_l (u v : list R) (a : R) : dot (vdivs u a) v = dot u v / a.
Proof.
  unfold vdivs. revert v.
  induction u as [|x u IH]; intros [|y v]; cbn [map];
    rewrite ?dot_nil_l, ?dot_nil_r, ?dot_cons, ?IH; rsimp; unfold Rdiv; lra.
Qed.

Lemma dot_self_nonneg (v : list R) : 0 <= dot v v.
Proof.
  induction v as [|x v IH]; [rewrite dot_nil_l; lra|].
  rewrite dot_cons. nra.
Qed.

Lemma unit_normal_unit (n : Vec R) : norm n <> 0 -> dot (unit_normal n) (unit_normal n) = 1.
Proof.
  intro H. unfold unit_normal. rewrite dot_vdivs_l, dot_vdivs_r.
  unfold norm in *. rsimp.
  rewrite <- (sqrt_sqrt (dot n n)) at 1 by apply dot_self_nonneg.
  field. exact H.
Qed.

(** The slip-wall state at one point: no momentum along the unit normal,
    the entries outside the momentum slice and the momentum along any
    tangent as in the interior state. *)
Definition slip_wall_state (physics : Physics R) (b u n : Vec R) : Prop :=
  let srhou := get_state_slice physics "Momentum" in
  dot (get_slice srhou b) (unit_normal n) = 0
  /\ length b = length u
  /\ (forall k, (k < start srhou \/ stop srhou <= k)%nat -> nth k b 0 = nth k u 0)
  /\ (forall t, dot (unit_normal n) t = 0 ->
        dot (get_slice srhou b) t = dot (get_slice srhou u) t).

Definition slip_wall_input (physics : Physics R) (u n : Vec R) : Prop :=
  norm n <> 0 /\ momentum_shape (get_state_slice physics "Momentum") (length u) n.

Lemma slip_wall_point (physics : Physics R) (u n : Vec R) :
  slip_wall_input physics u n ->
  let srhou := get_state_slice physics "Momentum" in
  let nh := unit_normal n in
  slip_wall_state physics
    (set_slice srhou u
       (vsub (get_slice srhou u) (vscale (vsum (vmul (get_slice srhou u) nh)) nh)))
    u n.
Proof.
  intros (Hn & H1 & H2 & H3). cbv zeta.
  set (s := get_state_slice physics "Momentum") in *.
  set (nh := unit_normal n). set (m := get_slice s u).
  change (vsum (vmul m nh)) with (dot m nh).
  assert (Hm : length m = (stop s - start s)%nat) by (apply length_get_slice, H2).
  assert (Hnh : length nh = (stop s - start s)%nat)
    by (unfold nh, unit_normal, vdivs; rewrite length_map; exact H3).
  assert (Hw : length (vsub m (vscale (dot m nh) nh)) = (stop s - start s)%nat).
  { unfold vsub, vscale. rewrite length_map2, length_map. lia. }
  assert (Hsc : length m = length (vscale (dot m nh) nh))
    by (unfold vscale; rewrite length_map; lia).
  unfold slip_wall_state. cbv zeta. fold s. fold nh.
  rewrite get_set_slice by assumption.
  repeat split.
  - rewrite dot_vsub_l, dot_vscale_l by exact Hsc.
    unfold nh. rewrite unit_normal_unit by exact Hn. ring.
  - apply length_set_slice; assumption.
  - intros k Hk. apply nth_set_slice_outside; assumption.
  - intros t Ht. rewrite dot_vsub_l, dot_vscale_l by exact Hsc. fold m.
    rewrite Ht. ring.
Qed.

Lemma Forall3_map3_map2_map {A C D : Type} (P : A -> C -> Prop) (Q : D -> A -> C -> Prop)
  {B E : Type} (g : A -> B -> E -> D) (r : A -> E -> B) (u : C -> E)
  (l : list A) (k : list C) :
  (forall a c, P a c -> Q (g a (r a (u c)) (u c)) a c) ->
  Forall2 P l k ->
  Forall3 Q (map3 g l (map2 r l (map u k)) (map u k)) l k.
Proof.
  intros H HF. induction HF as [|a c l k Hac _ IH]; cbn; constructor; auto.
Qed.

Lemma SlipWall_run (physics : Physics R) (UqI : BC.loc) (normals : BC.Arr) (h : BC.Heap) :
  let uI := nth UqI h [] in
  let srhou := get_state_slice physics "Momentum" in
  let n_hat := BC.unit_normals normals in
  BC.SlipWall_get_boundary_state physics UqI normals h
  = (Ok (length h),
     h ++ [bmap3 (fun u r nh => set_slice srhou u (vsub (get_slice srhou u) (vscale r nh)))
             uI (bmap2 (fun u nh => vsum (vmul (get_slice srhou u) nh)) uI n_hat) n_hat]).
Proof.
  cbv zeta. unfold BC.SlipWall_get_boundary_state, BC.bind, BC.read, BC.copy, BC.modify, BC.ret.
  cbn. rewrite nth_app_length, upd_app_length. reflexivity.
Qed.

(** Claim C8.  [SlipWall.get_boundary_state] returns a new array that, at
    every point, has no momentum along the unit normal of the face, and
    agrees with the interior state in every entry outside the momentum and
    in the momentum along every direction tangent to the face. *)
Theorem SlipWall_boundary_state (physics : Physics R) (UqI : BC.loc) (normals : BC.Arr)
  (h : BC.Heap) :
  BForall2 (slip_wall_input physics) (nth UqI h []) normals ->
  exists UqB,
    fst (BC.SlipWall_get_boundary_state physics UqI normals h) = Ok UqB /\
    BForall3 (slip_wall_state physics)
      (nth UqB (snd (BC.SlipWall_get_boundary_state physics UqI normals h)) [])
      (nth UqI h []) normals.
Proof.
  intro HV. exists (length h). rewrite SlipWall_run. cbn [fst snd].
  split; [reflexivity|]. rewrite nth_app_length.
  unfold BForall3, bmap3, bmap2, BC.unit_normals, bmap.
  apply (Forall3_map3_map2_map (Forall2 (slip_wall_input physics))); [|exact HV].
  intros x z Hxz.
  apply (Forall3_map3_map2_map (slip_wall_input physics)); [|exact Hxz].
  intros u n Hun. apply (slip_wall_point physics u n Hun).
Qed.

(** ** Pressure outlet *)

Lemma fill_slice_eq {A : Type} (lo hi : nat) (x : A) (v : list A) :
  (lo <= hi)%nat -> (hi <= length v)%nat ->
  fill_slice lo hi x v = firstn lo v ++ repeat x (hi - lo) ++ skipn hi v.
Proof.
  revert lo hi. induction v as [|a v IH]; intros lo hi H1 H2; simpl in H2.
  - replace hi with 0%nat by lia. replace lo with 0%nat by lia. reflexivity.
  - destruct lo as [|lo]; destruct hi as [|hi]; cbn; try lia.
    + rewrite (IH 0%nat 0%nat) by lia. reflexivity.
    + rewrite (IH 0%nat hi) by lia. cbn. rewrite Nat.sub_0_r. reflexivity.
    + rewrite IH by lia. reflexivity.
Qed.

Lemma fill_slice_set_slice {A : Type} (s : Slice) (x : A) (v : list A) :
  (start s <= stop s)%nat -> (stop s <= length v)%nat ->
  fill_slice (start s) (stop s) x v = set_slice s v (repeat x (stop s - start s)).
Proof. intros. unfold set_slice. apply fill_slice_eq; assumption. Qed.

Lemma get_set_slice_other {A : Type} (s s' : Slice) (v w : list A) :
  (start s <= stop s)%nat -> (stop s <= length v)%nat ->
  length w = (stop s - start s)%nat ->
  (stop s' <= start s \/ stop s <= start s')%nat ->
  get_slice s' (set_slice s v w) = get_slice s' v.
Proof.
  intros H1 H2 H3 H5.
  assert (HL : length (set_slice s v w) = length v) by (apply length_set_slice; assumption).
  destruct v as [|d v'] eqn:Ev.
  { simpl in H2. unfold set_slice, get_slice.
    replace (stop s) with 0%nat in * by lia. replace (start s) with 0%nat in * by lia.
    destruct w; [|discriminate]. reflexivity. }
  rewrite <- Ev in *. clear Ev v'.
  apply nth_ext with (d := d) (d' := d).
  - unfold get_slice. rewrite !length_firstn, !length_skipn, HL. reflexivity.
  - intros k Hk. unfold get_slice in *.
    rewrite length_firstn, length_skipn, HL in Hk.
    rewrite !nth_firstn.
    destruct (Nat.ltb k (stop s' - start s')) eqn:E; [|reflexivity].
    apply Nat.ltb_lt in E.
    rewrite !nth_skipn. apply nth_set_slice_outside; try assumption. lia.
Qed.

(** The three slices follow one another and end with the state. *)
Definition state_layout (physics : Physics R) (ns : nat) : Prop :=
  let '(srho, srhou, srhoE) := get_state_slices physics in
  (start srho <= stop srho)%nat /\ stop srho = start srhou /\
  (start srhou <= stop srhou)%nat /\ stop srhou = start srhoE /\
  (start srhoE <= stop srhoE)%nat /\ stop srhoE = ns.

(** The state the subsonic branch writes at a point: density, momentum and
    energy slices of the boundary state [b], from the interior state [u]
    and the unit normal [nh]. *)
Definition outlet_state (physics : Physics R) (pB : R) (b u nh : Vec R) : Prop :=
  let '(srho, srhou, srhoE) := get_state_slices physics in
  let th := set_thermo_state physics u in
  let gamma := thermo.gamma th in
  let rhoB := thermo.rho th * Rpower (pB / thermo.p th) (1 / gamma) in
  let velI := velocity physics u in
  let velnI := dot velI nh in
  let JI := velnI + 2 * thermo.c th / (gamma - 1) in
  let cB := sqrt (gamma * pB / rhoB) in
  let velB := vadd (vscale (JI - 2 * cB / (gamma - 1)) nh)
                   (vsub velI (vscale velnI nh)) in
  get_slice srho b = repeat rhoB (stop srho - start srho)
  /\ get_slice srhou b = vscale rhoB velB
  /\ get_slice srhoE b
     = repeat (pB / (gamma - 1) + 1 / 2 * (rhoB * vsum (map (fun v => v * v) velB)))
         (stop srhoE - start srhoE)
  /\ length b = length u.

Definition outlet_input (physics : Physics R) (u n : Vec R) : Prop :=
  state_layout physics (length u)
  /\ length (velocity physics u) = length n
  /\ length n = (let '(_, srhou, _) := get_state_slices physics in
                 stop srhou - start srhou)%nat.

Lemma outlet_point (physics : Physics R) (pB : R) (u n : Vec R) :
  outlet_input physics u n ->
  let '(srho, srhou, srhoE) := get_state_slices physics in
  let nh := vdivs n (norm n) in
  outlet_state physics pB
    (fill_slice (start srhoE) (stop srhoE) (BC.rhoEB physics Rpower pB u nh)
       (set_slice srhou
          (fill_slice (start srho) (stop srho) (BC.rhoB physics Rpower pB u) u)
          (vscale (BC.rhoB physics Rpower pB u) (BC.velB physics Rpower pB u nh))))
    u nh.
Proof.
  unfold outlet_input, outlet_state, state_layout.
  destruct (get_state_slices physics) as [[srho srhou] srhoE].
  intros ((L1 & L2 & L3 & L4 & L5 & L6) & Hv & Hn). cbv zeta.
  set (nh := vdivs n (norm n)).
  assert (Hnh : length nh = length n) by (unfold nh, vdivs; apply length_map).
  set (rB := BC.rhoB physics Rpower pB u).
  set (vB := BC.velB physics Rpower pB u nh).
  set (eB := BC.rhoEB physics Rpower pB u nh).
  assert (HvB : length (vscale rB vB) = (stop srhou - start srhou)%nat).
  { unfold vscale, vB, BC.velB, vadd, vsub, vscale. cbv zeta.
    rewrite !length_map, !length_map2, !length_map. lia. }
  rewrite (fill_slice_set_slice srho rB u) by lia.
  set (v1 := set_slice srho u _).
  assert (H1 : length v1 = length u)
    by (apply length_set_slice; rewrite ?repeat_length; lia).
  set (v2 := set_slice srhou v1 _).
  assert (H2 : length v2 = length u)
    by (unfold v2; rewrite length_set_slice; lia).
  rewrite (fill_slice_set_slice srhoE eB v2) by lia.
  repeat split.
  - rewrite get_set_slice_other by (rewrite ?repeat_length; lia).
    unfold v2. rewrite get_set_slice_other by lia.
    unfold v1. rewrite get_set_slice by (rewrite ?repeat_length; lia). reflexivity.
  - rewrite get_set_slice_other by (rewrite ?repeat_length; lia).
    unfold v2. rewrite get_set_slice by lia. reflexivity.
  - rewrite get_set_slice by (rewrite ?repeat_length; lia). reflexivity.
  - rewrite length_set_slice by (rewrite ?repeat_length; lia). exact H2.
Qed.

(** [P] holds at some entry, at every entry, of a batch. *)
Definition somewhere {A : Type} (P : A -> Prop) (X : Batch A) : Prop :=
  Exists (Exists P) X.

Definition everywhere {A : Type} (P : A -> Prop) (X : Batch A) : Prop :=
  Forall (Forall P) X.

Lemma bany_true {A : Type} (f : A -> bool) (P : A -> Prop) (X : Batch A) :
  (forall a, f a = true <-> P a) -> (bany f X = true <-> somewhere P X).
Proof.
  intro H. unfold bany, somewhere. rewrite existsb_exists, Exists_exists.
  split; intros (x & Hx & Hex); exists x; split; auto.
  - rewrite Exists_exists. apply existsb_exists in Hex.
    destruct Hex as (a & Ha & Hfa). exists a. split; [assumption | apply H, Hfa].
  - apply existsb_exists. rewrite Exists_exists in Hex.
    destruct Hex as (a & Ha & HPa). exists a. split; [assumption | apply H, HPa].
Qed.

Lemma bany_false {A : Type} (f : A -> bool) (P : A -> Prop) (X : Batch A) :
  (forall a, f a = false <-> P a) -> (bany f X = false <-> everywhere P X).
Proof.
  intro H. unfold bany, everywhere. split.
  - intro Hb. rewrite Forall_forall. intros x Hx. rewrite Forall_forall. intros a Ha.
    apply H. destruct (f a) eqn:E; [|reflexivity].
    rewrite <- Hb. symmetry. apply existsb_exists. exists x. split; [assumption|].
    apply existsb_exists. exists a. split; assumption.
  - intro HF. destruct (existsb (existsb f) X) eqn:E; [|reflexivity].
    apply existsb_exists in E. destruct E as (x & Hx & Hex).
    apply existsb_exists in Hex. destruct Hex as (a & Ha & Hfa).
    rewrite Forall_forall in HF. specialize (HF x Hx). rewrite Forall_forall in HF.
    specialize (HF a Ha). apply H in HF. congruence.
Qed.

Lemma PressureOutlet_run (physics : Physics R) (pB : R) (UqI : BC.loc) (normals : BC.Arr)
  (h : BC.Heap) :
  let uI := nth UqI h [] in
  let n_hat := BC.unit_normals normals in
  let srho := fst (fst (get_state_slices physics)) in
  let srhou := snd (fst (get_state_slices physics)) in
  let srhoE := snd (get_state_slices physics) in
  BC.PressureOutlet_get_boundary_state physics Rpower pB UqI normals h
  = if bany (fun x => Rltb x 0) (bmap (fun u => thermo.p (set_thermo_state physics u)) uI)
    then (Raise (NotPhysicalError EmptyString), h ++ [uI])
    else if bany (fun m => Rleb 1 m) (bmap2 (BC.Mn physics) uI n_hat)
    then (Ok (length h), h ++ [uI])
    else (Ok (length h),
          h ++ [bmap3 (fun b u nh =>
                         fill_slice (start srhoE) (stop srhoE)
                           (BC.rhoEB physics Rpower pB u nh) b)
                  (bmap3 (fun b u nh =>
                            set_slice srhou b
                              (vscale (BC.rhoB physics Rpower pB u)
                                 (BC.velB physics Rpower pB u nh)))
                     (bmap2 (fun b u =>
                               fill_slice (start srho) (stop srho)
                                 (BC.rhoB physics Rpower pB u) b) uI uI)
                     uI n_hat)
                  uI n_hat]).
Proof.
  cbv zeta. unfold BC.PressureOutlet_get_boundary_state.
  destruct (get_state_slices physics) as [[srho srhou] srhoE]. cbn [fst snd].
  unfold BC.bind, BC.read, BC.copy, BC.modify, BC.ret, BC.raise. rsimp.
  destruct (bany _ _); [reflexivity|].
  destruct (bany _ _); [reflexivity|].
  cbn [fst snd]. repeat (rewrite ?nth_app_length, ?upd_app_length; cbn [fst snd]).
  reflexivity.
Qed.

Lemma Forall3_outlet {A C E : Type} (P : A -> C -> Prop) (Q : A -> A -> E -> Prop)
  (f1 : A -> A -> A) (f2 f3 : A -> A -> E -> A) (u : C -> E)
  (l : list A) (k : list C) :
  (forall a c, P a c -> Q (f3 (f2 (f1 a a) a (u c)) a (u c)) a (u c)) ->
  Forall2 P l k ->
  Forall3 Q (map3 f3 (map3 f2 (map2 f1 l l) l (map u k)) l (map u k)) l (map u k).
Proof.
  intros H HF. induction HF as [|a c l k Hac _ IH]; cbn; constructor; auto.
Qed.

(** The three outcomes of [PressureOutlet.get_boundary_state] on a batch. *)
Lemma PressureOutlet_cases (physics : Physics R) (pB : R) (UqI : BC.loc)
  (normals : BC.Arr) (h : BC.Heap) :
  let uI := nth UqI h [] in
  let n_hat := BC.unit_normals normals in
  let pI := bmap (fun u => thermo.p (set_thermo_state physics u)) uI in
  let Mach := bmap2 (BC.Mn physics) uI n_hat in
  let result := BC.PressureOutlet_get_boundary_state physics Rpower pB UqI normals h in
  (somewhere (fun p => p < 0) pI ->
     fst result = Raise (NotPhysicalError EmptyString))
  /\ (everywhere (fun p => 0 <= p) pI -> somewhere (fun m => 1 <= m) Mach ->
      exists UqB, fst result = Ok UqB /\ nth UqB (snd result) [] = uI)
  /\ (everywhere (fun p => 0 <= p) pI -> everywhere (fun m => m < 1) Mach ->
      BForall2 (outlet_input physics) uI normals ->
      exists UqB, fst result = Ok UqB /\
        BForall3 (outlet_state physics pB) (nth UqB (snd result) []) uI n_hat).
Proof.
  cbv zeta. rewrite PressureOutlet_run. cbv zeta.
  set (uI := nth UqI h []).
  set (pI := bmap _ uI). set (Mach := bmap2 _ uI _).
  repeat split.
  - intro Hp. apply (bany_true (fun x => Rltb x 0) _ pI (fun a => Rltb_true a 0)) in Hp.
    rewrite Hp. reflexivity.
  - intros Hp HM.
    apply (bany_false (fun x => Rltb x 0) _ pI (fun a => Rltb_false a 0)) in Hp.
    apply (bany_true (fun m => Rleb 1 m) _ Mach (fun a => Rleb_true 1 a)) in HM.
    rewrite Hp, HM. exists (length h). cbn [fst snd]. rewrite nth_app_length. auto.
  - intros Hp HM HV.
    apply (bany_false (fun x => Rltb x 0) _ pI (fun a => Rltb_false a 0)) in Hp.
    apply (bany_false (fun m => Rleb 1 m) _ Mach (fun a => Rleb_false 1 a)) in HM.
    rewrite Hp, HM. exists (length h). cbn [fst snd]. rewrite nth_app_length.
    split; [reflexivity|].
    unfold BForall3, bmap3, bmap2, BC.unit_normals, bmap.
    apply (Forall3_outlet (Forall2 (outlet_input physics))); [|exact HV].
    intros x z Hxz.
    apply (Forall3_outlet (outlet_input physics)); [|exact Hxz].
    intros u n Hun. pose proof (outlet_point physics pB u n Hun) as Hp'.
    destruct (get_state_slices physics) as [[srho srhou] srhoE]. exact Hp'.
Qed.

(** *** The outlet branch is taken for the whole batch *)

(** The branch read point by point, as the claim has it: the interior
    state where the normal Mach number is at least one, the subsonic state
    elsewhere. *)
Definition outlet_pointwise (physics : Physics R) (pB : R) (b u nh : Vec R) : Prop :=
  (1 <= BC.Mn physics u nh -> b = u) /\
  (BC.Mn physics u nh < 1 -> outlet_state physics pB b u nh).

Lemma Rpower_gt_1 (x y : R) : 1 < x -> 0 < y -> 1 < Rpower x y.
Proof.
  intros Hx Hy. unfold Rpower. rewrite <- exp_0. apply exp_increasing.
  apply Rmult_lt_0_compat; [exact Hy|]. rewrite <- ln_1. apply ln_increasing; lra.
Qed.

Lemma sqrt_7_5_bounds : 0 < sqrt (7 / 5) <= 2.
Proof.
  split; [apply sqrt_lt_R0; lra|].
  rewrite <- sqrt_4. apply sqrt_le_1_alt. lra.
Qed.

(** Two points on one face, the first supersonic ([u = 2], [c < 2]), the
    second at rest. *)
Definition fast : Vec R := [1; 2; 9 / 2].
Definition still : Vec R := [1; 0; 5 / 2].

Lemma Mn_fast : 1 <= BC.Mn (air 1) fast (unit_normal [1]).
Proof.
  unfold unit_normal. rewrite (norm1_pos 1) by lra.
  unfold BC.Mn, BC.velnI, fast. eval_euler.
  replace (7 / 5 * ((7 / 5 - 1) * (9 / 2 - 1 / 2 * (0 + 2 * 2) / 1)) / 1) with (7 / 5)
    by field.
  destruct sqrt_7_5_bounds as [H1 H2].
  apply Rmult_le_reg_r with (sqrt (7 / 5)); [exact H1|].
  replace ((0 + 2 / 1 * (1 / 1)) / sqrt (7 / 5) * sqrt (7 / 5)) with 2 by (field; lra).
  lra.
Qed.

Lemma Mn_still : BC.Mn (air 1) still (unit_normal [1]) < 1.
Proof.
  unfold unit_normal. rewrite (norm1_pos 1) by lra.
  unfold BC.Mn, BC.velnI, still. eval_euler.
  replace ((0 + 0 / 1 * (1 / 1)) / sqrt (7 / 5 * ((7 / 5 - 1) * (5 / 2 - 1 / 2 * (0 + 0 * 0) / 1)) / 1))
    with 0 by (unfold Rdiv; ring).
  lra.
Qed.

Lemma pressure_fast : thermo.p (set_thermo_state (air 1) fast) = 1.
Proof. unfold fast. eval_euler. field. Qed.

Lemma pressure_still : thermo.p (set_thermo_state (air 1) still) = 1.
Proof. unfold still. eval_euler. field. Qed.

Lemma PressureOutlet_branch_is_batchwide :
  let h := [ [[fast; still]] ] in
  let normals := [[ [1]; [1] ]] in
  let result := BC.PressureOutlet_get_boundary_state (air 1) Rpower 4 0%nat normals h in
  ~ (exists UqB, fst result = Ok UqB /\
       BForall3 (outlet_pointwise (air 1) 4) (nth UqB (snd result) [])
         (nth 0%nat h []) (BC.unit_normals normals)).
Proof.
  cbv zeta. rewrite PressureOutlet_run. cbv zeta.
  cbn [nth bmap bmap2 map map2 bany existsb BC.unit_normals length app].
  fold (unit_normal [1]).
  rewrite pressure_fast, pressure_still.
  rewrite (proj2 (Rltb_false 1 0)) by lra. cbn [orb].
  rewrite (proj2 (Rleb_true 1 _) Mn_fast). cbn [orb fst snd].
  intros (UqB & HU & HB). injection HU as <-. cbn [nth] in HB.
  inversion HB as [|? ? ? ? ? ? Hrow _]; subst.
  inversion Hrow as [|? ? ? ? ? ? _ Hrest]; subst.
  inversion Hrest as [|? ? ? ? ? ? Hstill _]; subst.
  destruct Hstill as [_ Hsub]. specialize (Hsub Mn_still).
  unfold outlet_state in Hsub. cbn [get_state_slices air Euler] in Hsub.
  destruct Hsub as (Hrho & _).
  rewrite pressure_still in Hrho.
  unfold still in Hrho. revert Hrho. eval_euler. cbn [repeat].
  intros [= Hrho].
  pose proof (Rpower_gt_1 (4 / 1) (1 / (7 / 5)) ltac:(lra) ltac:(lra)). lra.
Qed.

Lemma everywhere_weaken_pos (X : Batch R) :
  everywhere (fun p => 0 < p) X -> everywhere (fun p => 0 <= p) X.
Proof.
  unfold everywhere. intro H.
  apply (Forall_impl _ (fun row (Hrow : Forall (fun p => 0 < p) row) =>
           Forall_impl _ (fun p (Hp : 0 < p) => Rlt_le _ _ Hp) Hrow) H).
Qed.

(** Claim C9, as amended.  [PressureOutlet.get_boundary_state] decides once
    for the whole batch: it raises [NotPhysicalError] when the interior
    pressure is negative at some point; where it is positive at every
    point, it returns the interior state unchanged at every point when
    the normal Mach number is at least one at some point, and otherwise
    (subsonic at every point) the state with density
    [rhoI (pB/pI)^(1/gamma)], velocity rebuilt from the interior Riemann
    invariant and energy [pB/(gamma - 1) + 1/2 rhoB |velB|^2] at every
    point. *)
Theorem PressureOutlet_boundary_state (physics : Physics R) (pB : R) (UqI : BC.loc)
  (normals : BC.Arr) (h : BC.Heap) :
  let uI := nth UqI h [] in
  let n_hat := BC.unit_normals normals in
  let pI := bmap (fun u => thermo.p (set_thermo_state physics u)) uI in
  let Mach := bmap2 (BC.Mn physics) uI n_hat in
  let result := BC.PressureOutlet_get_boundary_state physics Rpower pB UqI normals h in
  (somewhere (fun p => p < 0) pI ->
     fst result = Raise (NotPhysicalError EmptyString))
  /\ (everywhere (fun p => 0 < p) pI -> somewhere (fun m => 1 <= m) Mach ->
      exists UqB, fst result = Ok UqB /\ nth UqB (snd result) [] = uI)
  /\ (everywhere (fun p => 0 < p) pI -> everywhere (fun m => m < 1) Mach ->
      BForall2 (outlet_input physics) uI normals ->
      exists UqB, fst result = Ok UqB /\
        BForall3 (outlet_state physics pB) (nth UqB (snd result) []) uI n_hat).
Proof.
  cbv zeta. rewrite PressureOutlet_run. cbv zeta.
  set (uI := nth UqI h []).
  set (pI := bmap _ uI). set (Mach := bmap2 _ uI _).
  repeat split.
  - intro Hp. apply (bany_true (fun x => Rltb x 0) _ pI (fun a => Rltb_true a 0)) in Hp.
    rewrite Hp. reflexivity.
  - intros Hp HM. apply everywhere_weaken_pos in Hp.
    apply (bany_false (fun x => Rltb x 0) _ pI (fun a => Rltb_false a 0)) in Hp.
    apply (bany_true (fun m => Rleb 1 m) _ Mach (fun a => Rleb_true 1 a)) in HM.
    rewrite Hp, HM. exists (length h). cbn [fst snd]. rewrite nth_app_length. auto.
  - intros Hp HM HV. apply everywhere_weaken_pos in Hp.
    apply (bany_false (fun x => Rltb x 0) _ pI (fun a => Rltb_false a 0)) in Hp.
    apply (bany_false (fun m => Rleb 1 m) _ Mach (fun a => Rleb_false 1 a)) in HM.
    rewrite Hp, HM. exists (length h). cbn [fst snd]. rewrite nth_app_length.
    split; [reflexivity|].
    unfold BForall3, bmap3, bmap2, BC.unit_normals, bmap.
    apply (Forall3_outlet (Forall2 (outlet_input physics))); [|exact HV].
    intros x z Hxz.
    apply (Forall3_outlet (outlet_input physics)); [|exact Hxz].
    intros u n Hun. pose proof (outlet_point physics pB u n Hun) as Hp'.
    destruct (get_state_slices physics) as [[srho srhou] srhoE]. exact Hp'.
Qed.

Lemma outlet_input_still : outlet_input (air 1) still [1].
Proof.
  unfold outlet_input, state_layout, still. eval_euler. repeat split; lia.
Qed.

Lemma PressureOutlet_boundary_state_witness :
  let h := [ [[still]] ] in
  let result := BC.PressureOutlet_get_boundary_state (air 1) Rpower 1 0%nat [[ [1] ]] h in
  exists UqB, fst result = Ok UqB /\
    BForall3 (outlet_state (air 1) 1) (nth UqB (snd result) []) [[still]]
      (BC.unit_normals [[ [1] ]]).
Proof.
  apply (PressureOutlet_boundary_state (air 1) 1 0%nat [[ [1] ]] [ [[still]] ]).
  - repeat constructor. cbn [nth]. rewrite pressure_still. lra.
  - repeat constructor. cbn [nth BC.unit_normals bmap map].
    fold (unit_normal [1]). exact Mn_still.
  - apply BForall2_single. exact outlet_input_still.
Defined.

Lemma slip_wall_input_air_2D : slip_wall_input (air 2) [1; 1; 2; 5] [3; 4].
Proof.
  split; [exact norm_nonzero_3_4|].
  unfold momentum_shape. eval_euler. repeat split; lia.
Qed.

Lemma SlipWall_boundary_state_witness :
  let h := [ [[ [1; 1; 2; 5] ]] ] in
  exists UqB,
    fst (BC.SlipWall_get_boundary_state (air 2) 0%nat [[ [3; 4] ]] h) = Ok UqB /\
    BForall3 (slip_wall_state (air 2))
      (nth UqB (snd (BC.SlipWall_get_boundary_state (air 2) 0%nat [[ [3; 4] ]] h)) [])
      [[ [1; 1; 2; 5] ]] [[ [3; 4] ]].
Proof.
  apply (SlipWall_boundary_state (air 2) 0%nat [[ [3; 4] ]] [ [[ [1; 1; 2; 5] ]] ]).
  apply BForall2_single. exact slip_wall_input_air_2D.
Defined.

Lemma boundary_state_is_fresh_copy_witness :
  let h := [ [[ [1; 1; 2; 5] ]] ] in
  let result := BC.get_boundary_state (air 2) Rpower BC.SlipWall 0%nat [[ [3; 4] ]] h in
  nth 0%nat (snd result) [] = [[ [1; 1; 2; 5] ]]
  /\ (forall l, (l < 1)%nat -> nth l (snd result) [] = nth l h [])
  /\ (forall UqB, fst result = Ok UqB -> UqB <> 0%nat /\ (1 <= UqB)%nat).
Proof.
  apply (boundary_state_is_fresh_copy Rpower (air 2) BC.SlipWall 0%nat [[ [3; 4] ]]
           [ [[ [1; 1; 2; 5] ]] ]).
  cbn [length]. lia.
Defined.

(** * Part III: further properties *)

(** *** Slices *)

Lemma slice_decompose {A : Type} (s : Slice) (v : list A) :
  (start s <= stop s)%nat -> (stop s <= length v)%nat ->
  v = firstn (start s) v ++ get_slice s v ++ skipn (stop s) v.
Proof.
  intros H1 H2. unfold get_slice.
  rewrite <- (firstn_skipn (start s) v) at 1. f_equal.
  rewrite <- (firstn_skipn (stop s - start s) (skipn (start s) v)) at 1. f_equal.
  rewrite skipn_skipn. f_equal. lia.
Qed.

Lemma set_get_slice {A : Type} (s : Slice) (v : list A) :
  (start s <= stop s)%nat -> (stop s <= length v)%nat ->
  set_slice s v (get_slice s v) = v.
Proof. intros H1 H2. unfold set_slice. symmetry. apply slice_decompose; assumption. Qed.

Lemma set_set_slice {A : Type} (s : Slice) (v w w' : list A) :
  (start s <= stop s)%nat -> (stop s <= length v)%nat ->
  length w = (stop s - start s)%nat ->
  set_slice s (set_slice s v w) w' = set_slice s v w'.
Proof.
  intros H1 H2 H3. unfold set_slice.
  assert (L : length (firstn (start s) v) = start s) by (rewrite length_firstn; lia).
  f_equal.
  - rewrite firstn_app, L, Nat.sub_diag, firstn_O, app_nil_r.
    rewrite firstn_firstn. f_equal. lia.
  - f_equal.
    rewrite skipn_app, L.
    rewrite (skipn_all2 (n := stop s)) by (rewrite L; lia).
    rewrite skipn_app, H3.
    rewrite (skipn_all2 (n := (stop s - start s)%nat)) by lia.
    replace (stop s - start s - (stop s - start s))%nat with 0%nat by lia.
    reflexivity.
Qed.

Lemma vdiv_vmul (m n : list R) :
  length m = length n -> Forall (fun x => x <> 0) n -> vdiv (vmul m n) n = m.
Proof.
  revert n. induction m as [|a m IH]; intros [|b n] L H; try discriminate; [reflexivity|].
  inversion H as [|? ? Hb Hn]; subst. unfold vdiv, vmul in *. cbn [map2]. rsimp.
  rewrite IH by (auto; simpl in L; lia). f_equal. field. exact Hb.
Qed.

Lemma vmul_vdiv (m n : list R) :
  length m = length n -> Forall (fun x => x <> 0) n -> vmul (vdiv m n) n = m.
Proof.
  revert n. induction m as [|a m IH]; intros [|b n] L H; try discriminate; [reflexivity|].
  inversion H as [|? ? Hb Hn]; subst. unfold vdiv, vmul in *. cbn [map2]. rsimp.
  rewrite IH by (auto; simpl in L; lia). f_equal. field. exact Hb.
Qed.

(** *** Roe: into the face frame and back *)

(** Property X1.
    [Roe1D.undo_rotate_coord_sys] undoes [Roe1D.rotate_coord_sys], and the
    other way round, whenever no entry of the normal is zero. *)
Theorem Roe1D_rotate_round_trip (srhou : Slice) (Uq n : Vec R) :
  (start srhou <= stop srhou)%nat -> (stop srhou <= length Uq)%nat ->
  length n = (stop srhou - start srhou)%nat ->
  Forall (fun x => x <> 0) n ->
  Roe.undo_rotate_coord_sys_1D srhou (Roe.rotate_coord_sys_1D srhou Uq n) n = Uq
  /\ Roe.rotate_coord_sys_1D srhou (Roe.undo_rotate_coord_sys_1D srhou Uq n) n = Uq.
Proof.
  intros H1 H2 Hn Hnz.
  assert (Hm : length (get_slice srhou Uq) = length n)
    by (rewrite length_get_slice; lia).
  unfold Roe.undo_rotate_coord_sys_1D, Roe.rotate_coord_sys_1D. split.
  - rewrite get_set_slice, set_set_slice, vdiv_vmul, set_get_slice;
      unfold vmul; rewrite ?length_map2; auto; lia.
  - rewrite get_set_slice, set_set_slice, vmul_vdiv, set_get_slice;
      unfold vdiv; rewrite ?length_map2; auto; lia.
Qed.

Lemma Roe1D_rotate_round_trip_witness :
  Roe.undo_rotate_coord_sys_1D {| start := 1; stop := 2 |}
    (Roe.rotate_coord_sys_1D {| start := 1; stop := 2 |} [1; 2; 3] [-1]) [-1] = [1; 2; 3]
  /\ Roe.rotate_coord_sys_1D {| start := 1; stop := 2 |}
       (Roe.undo_rotate_coord_sys_1D {| start := 1; stop := 2 |} [1; 2; 3] [-1]) [-1]
     = [1; 2; 3].
Proof.
  apply (Roe1D_rotate_round_trip {| start := 1; stop := 2 |} [1; 2; 3] [-1]);
    cbn; try lia.
  repeat constructor. lra.
Defined.

Lemma slice_pair {A : Type} (s : Slice) (v : list A) :
  stop s = (start s + 2)%nat -> (stop s <= length v)%nat ->
  exists a b, get_slice s v = [a; b].
Proof.
  intros H1 H2.
  assert (L : length (get_slice s v) = 2%nat) by (rewrite length_get_slice; lia).
  destruct (get_slice s v) as [|a [|b [|c l]]]; try discriminate. eauto.
Qed.

Ltac unit_normal_ring :=
  match goal with
  | Hn : ?nx * ?nx + ?ny * ?ny = 1 |- _ = ?a =>
      transitivity (a * (nx * nx + ny * ny)); [ring | rewrite Hn; ring]
  end.

(** Property X2.
    [Roe2D]: for a unit normal, [undo_rotate_coord_sys] undoes
    [rotate_coord_sys], and the rotation keeps the magnitude of the
    momentum. *)
Theorem Roe2D_rotate_round_trip (srhou : Slice) (Uq : Vec R) (nx ny : R) :
  stop srhou = (start srhou + 2)%nat -> (stop srhou <= length Uq)%nat ->
  nx * nx + ny * ny = 1 ->
  Roe.undo_rotate_coord_sys_2D srhou (Roe.rotate_coord_sys_2D srhou Uq [nx; ny]) [nx; ny]
  = Uq
  /\ Roe.rotate_coord_sys_2D srhou (Roe.undo_rotate_coord_sys_2D srhou Uq [nx; ny]) [nx; ny]
     = Uq
  /\ norm (get_slice srhou (Roe.rotate_coord_sys_2D srhou Uq [nx; ny]))
     = norm (get_slice srhou Uq).
Proof.
  intros H1 H2 Hn.
  destruct (slice_pair srhou Uq H1 H2) as (a & b & E).
  unfold Roe.undo_rotate_coord_sys_2D, Roe.rotate_coord_sys_2D. rewrite E.
  cbn [upd rev app vmul map2]. rewrite !get_set_slice by (cbn; lia).
  rewrite !set_set_slice by (cbn; lia).
  cbn [upd rev app vmul map2]. rewrite !vsum_cons, !vsum_nil. rsimp.
  repeat split.
  - transitivity (set_slice srhou Uq (get_slice srhou Uq));
      [|apply set_get_slice; lia].
    rewrite E. f_equal. f_equal; [|f_equal]; unit_normal_ring.
  - transitivity (set_slice srhou Uq (get_slice srhou Uq));
      [|apply set_get_slice; lia].
    rewrite E. f_equal. f_equal; [|f_equal]; unit_normal_ring.
  - unfold norm. f_equal. rewrite !dot_cons, !dot_nil_l.
    transitivity ((a * a + b * b) * (nx * nx + ny * ny)); [ring | rewrite Hn; ring].
Qed.

Lemma Roe2D_rotate_round_trip_witness :
  Roe.undo_rotate_coord_sys_2D {| start := 1; stop := 3 |}
    (Roe.rotate_coord_sys_2D {| start := 1; stop := 3 |} [1; 2; 3; 4] [0; 1]) [0; 1]
  = [1; 2; 3; 4]
  /\ Roe.rotate_coord_sys_2D {| start := 1; stop := 3 |}
       (Roe.undo_rotate_coord_sys_2D {| start := 1; stop := 3 |} [1; 2; 3; 4] [0; 1]) [0; 1]
     = [1; 2; 3; 4]
  /\ norm (get_slice {| start := 1; stop := 3 |}
             (Roe.rotate_coord_sys_2D {| start := 1; stop := 3 |} [1; 2; 3; 4] [0; 1]))
     = norm (get_slice {| start := 1; stop := 3 |} [1; 2; 3; 4]).
Proof.
  apply (Roe2D_rotate_round_trip {| start := 1; stop := 3 |} [1; 2; 3; 4] 0 1);
    cbn; try lia.
  lra.
Defined.

(** *** Roe: the averaged state and the wave strengths *)

Lemma map2_diag {A B : Type} (f : A -> A -> B) (l : list A) :
  map2 f l l = map (fun x => f x x) l.
Proof. induction l as [|a l IH]; [reflexivity|]. cbn [map2 map]. rewrite IH. reflexivity. Qed.

Lemma roe_mean_same (r : R) (v : Vec R) :
  0 < r ->
  vmuls (vadd (vscale (sqrt r) v) (vscale (sqrt r) v)) (1 / (sqrt r + sqrt r)) = v.
Proof.
  intro Hr. pose proof (sqrt_lt_R0 r Hr) as Hs.
  unfold vmuls, vadd, vscale. rewrite map2_diag, !map_map.
  rewrite <- (map_id v) at 2. apply map_ext. intro x. rsimp. field. lra.
Qed.

(** Property X3.
    The Roe average of a state with itself is that state. *)
Theorem roe_average_state_same (rho : R) (Y vel : Vec R) (H : R) :
  0 < rho ->
  Roe.roe_average_state rho rho Y Y vel vel H H = (rho, Y, vel, H).
Proof.
  intro Hr. pose proof (sqrt_lt_R0 rho Hr) as Hs.
  unfold Roe.roe_average_state. cbv zeta. rsimp.
  rewrite !roe_mean_same by exact Hr.
  rewrite sqrt_sqrt by lra.
  f_equal. field. lra.
Qed.

Lemma roe_average_state_same_witness :
  Roe.roe_average_state 4 4 [1] [1] [3; 5] [3; 5] 7 7 = (4, [1], [3; 5], 7).
Proof. apply (roe_average_state_same 4 [1] [3; 5] 7). lra. Defined.

(** Property X4.
    One species in one dimension: the columns of the right-eigenvector
    matrix, weighted by the wave strengths, add up to the jump in density
    and to the jump in momentum between the two states. *)
Theorem Roe1D_waves_add_up_to_jump (rhoL rhoR uL uR HL HR pL pR c : R) :
  0 < rhoL -> 0 < rhoR -> c <> 0 ->
  let '(rhoRoe, YRoe, velRoe, HRoe) :=
    Roe.roe_average_state rhoL rhoR [1] [1] [uL] [uR] HL HR in
  let '(drhoY, dvel, dp) := Roe.get_differences rhoL rhoR [1] [1] [uL] [uR] pL pR in
  let alphas := Roe.get_alphas_1D (repeat 0 3) c (c * c) dp dvel (vsum drhoY) rhoRoe in
  let evals := Roe.get_eigenvalues_1D (repeat 0 3) velRoe c in
  let Rmat :=
    Roe.get_right_eigenvectors_1D (repeat (repeat 0 3) 3) c evals velRoe HRoe in
  dot (nth 0 Rmat []) alphas = rhoR - rhoL
  /\ dot (nth 1 Rmat []) alphas = rhoR * uR - rhoL * uL.
Proof.
  intros HrL HrR Hc.
  pose proof (sqrt_lt_R0 rhoL HrL) as HsL. pose proof (sqrt_lt_R0 rhoR HrR) as HsR.
  pose proof (sqrt_sqrt rhoL (Rlt_le _ _ HrL)) as EL.
  pose proof (sqrt_sqrt rhoR (Rlt_le _ _ HrR)) as ER.
  unfold Roe.roe_average_state, Roe.get_differences. cbv zeta.
  unfold Roe.get_alphas_1D, Roe.get_eigenvalues_1D, Roe.get_right_eigenvectors_1D,
    upd2, last_index.
  cbn [repeat length Nat.sub nth nth_error upd fill_slice Nat.eqb andb negb pred
       vmuls vadd vscale vsub map map2].
  rewrite !dot_cons, !dot_nil_l, !vsum_cons, !vsum_nil. rsimp.
  set (sL := sqrt rhoL) in *. set (sR := sqrt rhoR) in *.
  rewrite <- EL, <- ER. split; field; repeat split; lra.
Qed.

Lemma Roe1D_waves_add_up_to_jump_witness :
  let '(rhoRoe, YRoe, velRoe, HRoe) :=
    Roe.roe_average_state 1 4 [1] [1] [2] [3] 10 12 in
  let '(drhoY, dvel, dp) := Roe.get_differences 1 4 [1] [1] [2] [3] 1 2 in
  let alphas := Roe.get_alphas_1D (repeat 0 3) 2 (2 * 2) dp dvel (vsum drhoY) rhoRoe in
  let evals := Roe.get_eigenvalues_1D (repeat 0 3) velRoe 2 in
  let Rmat :=
    Roe.get_right_eigenvectors_1D (repeat (repeat 0 3) 3) 2 evals velRoe HRoe in
  dot (nth 0 Rmat []) alphas = 4 - 1
  /\ dot (nth 1 Rmat []) alphas = 4 * 3 - 1 * 2.
Proof. apply (Roe1D_waves_add_up_to_jump 1 4 2 3 10 12 1 2 2); lra. Defined.

(** ** Roe in two dimensions: the wave strengths *)

(** Property X5.
    One species in two dimensions, in the frame of the face: the columns
    of the right-eigenvector matrix, weighted by the wave strengths, add
    up to the jumps in density, in normal momentum and in tangential
    momentum between the two states. *)
Theorem Roe2D_waves_add_up_to_jump (rhoL rhoR uL uR vL vR HL HR pL pR c : R) :
  0 < rhoL -> 0 < rhoR -> c <> 0 ->
  let '(rhoRoe, YRoe, velRoe, HRoe) :=
    Roe.roe_average_state rhoL rhoR [1] [1] [uL; vL] [uR; vR] HL HR in
  let '(drhoY, dvel, dp) :=
    Roe.get_differences rhoL rhoR [1] [1] [uL; vL] [uR; vR] pL pR in
  let alphas := Roe.get_alphas_2D (repeat 0 4) c (c * c) dp dvel (vsum drhoY) rhoRoe in
  let evals := Roe.get_eigenvalues_2D (repeat 0 4) velRoe c in
  let Rmat :=
    Roe.get_right_eigenvectors_2D (repeat (repeat 0 4) 4) c evals velRoe HRoe in
  dot (nth 0 Rmat []) alphas = rhoR - rhoL
  /\ dot (nth 1 Rmat []) alphas = rhoR * uR - rhoL * uL
  /\ dot (nth 2 Rmat []) alphas = rhoR * vR - rhoL * vL.
Proof.
  intros HrL HrR Hc.
  pose proof (sqrt_lt_R0 rhoL HrL) as HsL. pose proof (sqrt_lt_R0 rhoR HrR) as HsR.
  pose proof (sqrt_sqrt rhoL (Rlt_le _ _ HrL)) as EL.
  pose proof (sqrt_sqrt rhoR (Rlt_le _ _ HrR)) as ER.
  cbv [Roe.roe_average_state Roe.get_differences
       Roe.get_alphas_2D Roe.get_eigenvalues_2D Roe.get_right_eigenvectors_2D
       Roe.get_alphas_1D Roe.get_eigenvalues_1D Roe.get_right_eigenvectors_1D
       upd2 last_index repeat length Nat.sub nth nth_error upd fill_slice Nat.eqb
       andb negb pred vmuls vadd vscale vsub map map2 dot vsum fold_left].
  rsimp.
  set (sL := sqrt rhoL) in *. set (sR := sqrt rhoR) in *.
  rewrite <- EL, <- ER. repeat split; field; repeat split; lra.
Qed.

Lemma Roe2D_waves_add_up_to_jump_witness :
  let '(rhoRoe, YRoe, velRoe, HRoe) :=
    Roe.roe_average_state 1 4 [1] [1] [2; 1] [3; 5] 10 12 in
  let '(drhoY, dvel, dp) := Roe.get_differences 1 4 [1] [1] [2; 1] [3; 5] 1 2 in
  let alphas := Roe.get_alphas_2D (repeat 0 4) 2 (2 * 2) dp dvel (vsum drhoY) rhoRoe in
  let evals := Roe.get_eigenvalues_2D (repeat 0 4) velRoe 2 in
  let Rmat :=
    Roe.get_right_eigenvectors_2D (repeat (repeat 0 4) 4) 2 evals velRoe HRoe in
  dot (nth 0 Rmat []) alphas = 4 - 1
  /\ dot (nth 1 Rmat []) alphas = 4 * 3 - 1 * 2
  /\ dot (nth 2 Rmat []) alphas = 4 * 5 - 1 * 1.
Proof. apply (Roe2D_waves_add_up_to_jump 1 4 2 3 1 5 10 12 1 2 2); lra. Defined.

(** *** Roe: which error, and when *)

(** Property X6.
    [Roe.compute_flux] over the reals: the left densities are checked
    first, then the right ones, then the speed of sound squared; a zero
    counts as not physical; whatever the states, the outcome is one of the
    three errors or the flux of every point. *)
Theorem Roe_compute_flux_errors (self : Roe.Methods) (physics : Physics R)
  (UqL UqR normals : Batch (Vec R)) :
  let rhoL := bmap2 (Roe.density self physics) UqL normals in
  let rhoR := bmap2 (Roe.density self physics) UqR normals in
  let c2 := bmap3 (Roe.c2_point self physics) UqL UqR normals in
  let result := Roe.compute_flux self physics UqL UqR normals in
  (somewhere (fun r => r <= 0) rhoL ->
     result = Raise (NotPhysicalError "rhoL is negative"))
  /\ (everywhere (fun r => 0 < r) rhoL -> somewhere (fun r => r <= 0) rhoR ->
      result = Raise (NotPhysicalError "rhoR is negative"))
  /\ (everywhere (fun r => 0 < r) rhoL -> everywhere (fun r => 0 < r) rhoR ->
      somewhere (fun x => x <= 0) c2 ->
      result = Raise (NotPhysicalError "Speed of sound is negative"))
  /\ (everywhere (fun r => 0 < r) rhoL -> everywhere (fun r => 0 < r) rhoR ->
      everywhere (fun x => 0 < x) c2 ->
      result = Ok (bmap3 (Roe.flux_point self physics) UqL UqR normals)).
Proof.
  cbv zeta. unfold Roe.compute_flux. rsimp.
  set (rhoL := bmap2 _ UqL normals). set (rhoR := bmap2 _ UqR normals).
  set (c2 := bmap3 _ UqL UqR normals).
  pose proof (fun X => bany_true (fun r => Rleb r 0) (fun r => r <= 0) X
                         (fun a => Rleb_true a 0)) as HT.
  pose proof (fun X => bany_false (fun r => Rleb r 0) (fun r => 0 < r) X
                         (fun a => Rleb_false a 0)) as HF.
  assert (Hnan : bany (fun _ : R => false) c2 = false).
  { apply (bany_false (fun _ : R => false) (fun _ => True)); [tauto|].
    unfold everywhere. apply Forall_forall. intros row _. apply Forall_forall. auto. }
  repeat split.
  - intro H. apply HT in H. rewrite H. reflexivity.
  - intros H1 H2. apply HF in H1. apply HT in H2. rewrite H1, H2. reflexivity.
  - intros H1 H2 H3. apply HF in H1. apply HF in H2. apply HT in H3.
    rewrite H1, H2, H3, Hnan. reflexivity.
  - intros H1 H2 H3. apply HF in H1. apply HF in H2. apply HF in H3.
    rewrite H1, H2, H3. reflexivity.
Qed.

(** *** HLLC: the wave speeds *)

Lemma minimum_Rmin (a b : R) : minimum a b = Rmin a b.
Proof.
  unfold minimum. rsimp. unfold Rmin.
  destruct (Rltb b a) eqn:E; destruct (Rle_dec a b); try reflexivity.
  - apply Rltb_true in E. lra.
  - apply Rltb_false in E. lra.
Qed.

Lemma maximum_Rmax (a b : R) : maximum a b = Rmax a b.
Proof.
  unfold maximum. rsimp. unfold Rmax.
  destruct (Rltb a b) eqn:E; destruct (Rle_dec a b); try reflexivity.
  - apply Rltb_true in E. lra.
  - apply Rltb_false in E. lra.
Qed.

Lemma HLLC_wave_speeds_eq (rhoL rhoR aL aR pL pR uL uR gL gR : R) :
  HLLC.get_wave_speeds rhoL rhoR aL aR pL pR uL uR gL gR
  = (Rmin (Rmin (uL - aL)
             (fst (HLLC.get_wave_speeds_roe rhoL rhoR aL aR pL pR uL uR gL gR)))
          (fst (HLLC.get_wave_speeds_pvrs rhoL rhoR aL aR pL pR uL uR gL gR)),
     Rmax (Rmax (uR + aR)
             (snd (HLLC.get_wave_speeds_roe rhoL rhoR aL aR pL pR uL uR gL gR)))
          (snd (HLLC.get_wave_speeds_pvrs rhoL rhoR aL aR pL pR uL uR gL gR))).
Proof.
  unfold HLLC.get_wave_speeds. cbn [fold_left].
  destruct (HLLC.get_wave_speeds_roe _ _ _ _ _ _ _ _ _ _) as [a b].
  destruct (HLLC.get_wave_speeds_pvrs _ _ _ _ _ _ _ _ _ _) as [c d].
  cbn [fst snd]. rewrite !minimum_Rmin, !maximum_Rmax. reflexivity.
Qed.

(** Property X7.
    The wave speeds that [HLLC.get_wave_speeds] returns envelop the
    acoustic speeds of the two sides and both estimates, and are in
    order. *)
Theorem HLLC_wave_speeds_envelope (rhoL rhoR aL aR pL pR uL uR gL gR : R) :
  0 < rhoL -> 0 < rhoR -> 0 < pL -> 0 < pR -> 0 < gL -> 0 < gR ->
  let '(SL, SR) := HLLC.get_wave_speeds rhoL rhoR aL aR pL pR uL uR gL gR in
  let roe := HLLC.get_wave_speeds_roe rhoL rhoR aL aR pL pR uL uR gL gR in
  let pvrs := HLLC.get_wave_speeds_pvrs rhoL rhoR aL aR pL pR uL uR gL gR in
  SL <= uL - aL /\ SL <= fst roe /\ SL <= fst pvrs
  /\ uR + aR <= SR /\ snd roe <= SR /\ snd pvrs <= SR
  /\ SL <= SR.
Proof.
  intros _ _ _ _ _ _. rewrite HLLC_wave_speeds_eq. cbv zeta.
  set (roe := HLLC.get_wave_speeds_roe _ _ _ _ _ _ _ _ _ _).
  set (pvrs := HLLC.get_wave_speeds_pvrs _ _ _ _ _ _ _ _ _ _).
  assert (Hroe : fst roe <= snd roe).
  { unfold roe, HLLC.get_wave_speeds_roe. cbv zeta. cbn [fst snd]. rsimp.
    match goal with |- _ - sqrt ?x <= _ + sqrt ?x => pose proof (sqrt_pos x) end. lra. }
  pose proof (Rmin_l (Rmin (uL - aL) (fst roe)) (fst pvrs)).
  pose proof (Rmin_r (Rmin (uL - aL) (fst roe)) (fst pvrs)).
  pose proof (Rmin_l (uL - aL) (fst roe)). pose proof (Rmin_r (uL - aL) (fst roe)).
  pose proof (Rmax_l (Rmax (uR + aR) (snd roe)) (snd pvrs)).
  pose proof (Rmax_r (Rmax (uR + aR) (snd roe)) (snd pvrs)).
  pose proof (Rmax_l (uR + aR) (snd roe)). pose proof (Rmax_r (uR + aR) (snd roe)).
  repeat split; lra.
Qed.

Lemma HLLC_wave_speeds_envelope_witness :
  let '(SL, SR) := HLLC.get_wave_speeds 1 4 1 2 1 2 0 1 (7 / 5) (7 / 5) in
  let roe := HLLC.get_wave_speeds_roe 1 4 1 2 1 2 0 1 (7 / 5) (7 / 5) in
  let pvrs := HLLC.get_wave_speeds_pvrs 1 4 1 2 1 2 0 1 (7 / 5) (7 / 5) in
  SL <= 0 - 1 /\ SL <= fst roe /\ SL <= fst pvrs
  /\ 1 + 2 <= SR /\ snd roe <= SR /\ snd pvrs <= SR
  /\ SL <= SR.
Proof. apply (HLLC_wave_speeds_envelope 1 4 1 2 1 2 0 1 (7 / 5) (7 / 5)); lra. Defined.

(** *** HLLC: outside the fan *)

(** Property X8.
    Where both wave speeds point to the right the HLLC flux is the flux of
    the left state, and where both point to the left that of the right
    state, each times the length of the normal. *)
Theorem HLLC_upwind (physics : Physics R) (UqL UqR n : Vec R) :
  let n_hat := vdivs n (norm n) in
  let thL := set_thermo_state physics UqL in
  let thR := set_thermo_state physics UqR in
  let '(SL, SR) :=
    HLLC.get_wave_speeds (thermo.rho thL) (thermo.rho thR) (thermo.c thL) (thermo.c thR)
      (thermo.p thL) (thermo.p thR)
      (dot (velocity physics UqL) n_hat) (dot (velocity physics UqR) n_hat)
      (thermo.gamma thL) (thermo.gamma thR) in
  (0 <= SL -> 0 < SR ->
   HLLC.compute_flux_point physics UqL UqR n
   = vscale (norm n) (project_flux (get_conv_flux_interior physics UqL) n_hat))
  /\ (SR <= 0 ->
      HLLC.compute_flux_point physics UqL UqR n
      = vscale (norm n) (project_flux (get_conv_flux_interior physics UqR) n_hat)).
Proof.
  cbv zeta. unfold HLLC.compute_flux_point, get_conv_flux_projected. cbv zeta.
  destruct (HLLC.get_wave_speeds _ _ _ _ _ _ _ _ _ _) as [SL SR]. rsimp. split.
  - intros H1 H2.
    rewrite (proj2 (Rleb_false SR 0) H2), (proj2 (Rltb_false SL 0) H1). reflexivity.
  - intros H.
    rewrite (proj2 (Rleb_true SR 0) H), (proj2 (Rltb_false 0 SR) H), andb_false_r.
    reflexivity.
Qed.

(** *** The length of the normal *)

Lemma norm_vscale (k : R) (n : Vec R) : 0 <= k -> norm (vscale k n) = k * norm n.
Proof.
  intro Hk. unfold norm. rsimp.
  replace (dot (vscale k n) (vscale k n)) with (k * k * dot n n).
  - rewrite sqrt_mult by (try apply dot_self_nonneg; nra).
    rewrite sqrt_square by exact Hk. reflexivity.
  - induction n as [|a n IH]; cbn [vscale map].
    + rewrite dot_nil_l. ring.
    + rewrite !dot_cons. fold (vscale k n). rewrite <- IH. rsimp. ring.
Qed.

Lemma unit_vscale (k : R) (n : Vec R) :
  0 < k -> vdivs (vscale k n) (k * norm n) = vdivs n (norm n).
Proof.
  intro Hk. unfold vdivs, vscale. rewrite map_map. apply map_ext. intro x. rsimp.
  destruct (Req_dec (norm n) 0) as [E|E].
  - rewrite E, Rmult_0_r. unfold Rdiv. rewrite Rinv_0. ring.
  - field. split; lra.
Qed.

Lemma vscale_vscale (a b : R) (v : Vec R) : vscale (a * b) v = vscale a (vscale b v).
Proof. unfold vscale. rewrite map_map. apply map_ext. intro x. rsimp. ring. Qed.

Lemma vscale_half (k N : R) (v : Vec R) :
  vscale (1 / 2 * (k * N)) v = vscale k (vscale (1 / 2 * N) v).
Proof. rewrite <- vscale_vscale. f_equal. ring. Qed.

Lemma LF_point_scale (physics : Physics R) (k : R) (UL UR n : Vec R) :
  0 < k ->
  LaxFriedrichs.compute_flux_point physics UL UR (vscale k n)
  = vscale k (LaxFriedrichs.compute_flux_point physics UL UR n).
Proof.
  intro Hk. unfold LaxFriedrichs.compute_flux_point. cbv zeta.
  rewrite norm_vscale by lra. rewrite unit_vscale by exact Hk.
  unfold get_conv_flux_projected. rsimp. apply vscale_half.
Qed.

Lemma HLLC_point_scale (physics : Physics R) (k : R) (UL UR n : Vec R) :
  0 < k ->
  HLLC.compute_flux_point physics UL UR (vscale k n)
  = vscale k (HLLC.compute_flux_point physics UL UR n).
Proof.
  intro Hk. unfold HLLC.compute_flux_point. cbv zeta.
  rewrite norm_vscale by lra. rewrite unit_vscale by exact Hk.
  unfold get_conv_flux_projected.
  destruct (HLLC.get_wave_speeds _ _ _ _ _ _ _ _ _ _) as [SL SR].
  destruct (andb _ _); apply vscale_vscale.
Qed.

Lemma Roe_n_hat_scale (k : R) (n : Vec R) :
  0 < k -> Roe.n_hat (vscale k n) = Roe.n_hat n.
Proof.
  intro Hk. unfold Roe.n_hat. rewrite norm_vscale by lra. apply unit_vscale, Hk.
Qed.

Lemma Roe_point_scale (self : Roe.Methods) (physics : Physics R) (k : R)
  (UL UR n : Vec R) :
  0 < k ->
  Roe.density self physics UL (vscale k n) = Roe.density self physics UL n
  /\ Roe.c2_point self physics UL UR (vscale k n) = Roe.c2_point self physics UL UR n
  /\ Roe.flux_point self physics UL UR (vscale k n)
     = vscale k (Roe.flux_point self physics UL UR n).
Proof.
  intro Hk.
  unfold Roe.density, Roe.c2_point, Roe.flux_point, Roe.c2_point, Roe.roe_state,
    Roe.rotated. cbv zeta.
  rewrite !Roe_n_hat_scale by exact Hk. rewrite norm_vscale by lra.
  repeat split.
  destruct (Roe.roe_average_state _ _ _ _ _ _ _ _) as [[[rhoRoe YRoe] velRoe] HRoe].
  destruct (Roe.get_differences _ _ _ _ _ _ _ _) as [[drhoY dvel] dp].
  rsimp. apply vscale_half.
Qed.

Lemma map3_map_r {A B C D : Type} (f : A -> B -> C -> D) (g : C -> C) (h : D -> D)
  (l : list A) (m : list B) (k : list C) :
  (forall a b c, f a b (g c) = h (f a b c)) ->
  map3 f l m (map g k) = map h (map3 f l m k).
Proof.
  intro H. revert m k. induction l as [|a l IH]; intros [|b m] [|c k]; try reflexivity.
  cbn [map3 map]. rewrite H, IH. reflexivity.
Qed.

Lemma bmap3_bmap_r {A B C D : Type} (f : A -> B -> C -> D) (g : C -> C) (h : D -> D)
  (X : Batch A) (Y : Batch B) (Z : Batch C) :
  (forall a b c, f a b (g c) = h (f a b c)) ->
  bmap3 f X Y (bmap g Z) = bmap h (bmap3 f X Y Z).
Proof.
  intro H. unfold bmap3, bmap. apply map3_map_r. intros a b c. apply map3_map_r, H.
Qed.

Lemma map2_map_r {A C D : Type} (f : A -> C -> D) (g : C -> C)
  (l : list A) (k : list C) :
  (forall a c, f a (g c) = f a c) -> map2 f l (map g k) = map2 f l k.
Proof.
  intro H. revert k. induction l as [|a l IH]; intros [|c k]; try reflexivity.
  cbn [map2 map]. rewrite H, IH. reflexivity.
Qed.

Lemma bmap2_bmap_r {A C D : Type} (f : A -> C -> D) (g : C -> C)
  (X : Batch A) (Z : Batch C) :
  (forall a c, f a (g c) = f a c) -> bmap2 f X (bmap g Z) = bmap2 f X Z.
Proof.
  intro H. unfold bmap2, bmap. apply map2_map_r. intros a c. apply map2_map_r, H.
Qed.

Lemma bmap_id {A : Type} (X : Batch A) : bmap (fun x => x) X = X.
Proof.
  unfold bmap. rewrite (map_ext _ (fun x => x)) by (intro; apply map_id). apply map_id.
Qed.

(** Property X9.
    Each numerical flux sees the length of the normal (the measure of the
    face) as a factor only: stretching every normal by [k > 0] multiplies
    the flux by [k], and changes neither whether an error is raised nor
    which. *)
Theorem flux_scales_with_normal (fcn : ConvNumFlux) (physics : Physics R) (k : R)
  (UqL UqR normals : Batch (Vec R)) :
  0 < k ->
  compute_flux fcn physics UqL UqR (bmap (vscale k) normals)
  = match compute_flux fcn physics UqL UqR normals with
    | Ok F => Ok (bmap (vscale k) F)
    | Raise err => Raise err
    end.
Proof.
  intro Hk.
  assert (HRoe : forall self,
            Roe.compute_flux self physics UqL UqR (bmap (vscale k) normals)
            = match Roe.compute_flux self physics UqL UqR normals with
              | Ok F => Ok (bmap (vscale k) F)
              | Raise err => Raise err
              end).
  { intro self. unfold Roe.compute_flux. cbv zeta.
    rewrite !(bmap2_bmap_r (Roe.density self physics) (vscale k))
      by (intros a c; exact (proj1 (Roe_point_scale self physics k a a c Hk))).
    rewrite (bmap3_bmap_r (Roe.c2_point self physics) (vscale k) (fun x => x))
      by (intros a b c; exact (proj1 (proj2 (Roe_point_scale self physics k a b c Hk)))).
    rewrite bmap_id.
    rewrite (bmap3_bmap_r (Roe.flux_point self physics) (vscale k) (vscale k))
      by (intros a b c; exact (proj2 (proj2 (Roe_point_scale self physics k a b c Hk)))).
    repeat destruct (bany _ _); reflexivity. }
  destruct fcn; unfold compute_flux; try apply HRoe.
  - f_equal. apply bmap3_bmap_r. intros. apply LF_point_scale, Hk.
  - f_equal. apply bmap3_bmap_r. intros. apply HLLC_point_scale, Hk.
Qed.

(** ** HLLC is conservative *)






















(** ** Slip walls: projection and mirror image *)

Lemma map3_map2_fuse {A B C D E : Type} (g : A -> B -> E -> D) (r : A -> E -> B)
  (u : C -> E) (l : list A) (k : list C) :
  map3 g l (map2 r l (map u k)) (map u k) = map2 (fun a c => g a (r a (u c)) (u c)) l k.
Proof.
  revert k. induction l as [|a l IH]; intros [|c k]; try reflexivity.
  cbn [map map2 map3]. rewrite IH. reflexivity.
Qed.

Lemma map2_ext {A C D : Type} (f g : A -> C -> D) (l : list A) (k : list C) :
  (forall a c, f a c = g a c) -> map2 f l k = map2 g l k.
Proof.
  intro H. revert k. induction l as [|a l IH]; intros [|c k]; try reflexivity.
  cbn [map2]. rewrite H, IH. reflexivity.
Qed.

Lemma bmap2_ext {A C D : Type} (f g : A -> C -> D) (X : Batch A) (Z : Batch C) :
  (forall a c, f a c = g a c) -> bmap2 f X Z = bmap2 g X Z.
Proof. intro H. unfold bmap2. apply map2_ext. intros l k. apply map2_ext, H. Qed.

Lemma bmap3_bmap2_fuse {A B C D E : Type} (g : A -> B -> E -> D) (r : A -> E -> B)
  (u : C -> E) (X : Batch A) (Z : Batch C) :
  bmap3 g X (bmap2 r X (bmap u Z)) (bmap u Z)
  = bmap2 (fun a c => g a (r a (u c)) (u c)) X Z.
Proof.
  unfold bmap3, bmap2, bmap. rewrite map3_map2_fuse.
  apply map2_ext. intros l k. apply map3_map2_fuse.
Qed.

Lemma map2_map2_l {A C : Type} (f g : A -> C -> A) (l : list A) (k : list C) :
  map2 f (map2 g l k) k = map2 (fun a c => f (g a c) c) l k.
Proof.
  revert k. induction l as [|a l IH]; intros [|c k]; try reflexivity.
  cbn [map2]. rewrite IH. reflexivity.
Qed.

Lemma bmap2_bmap2_l {A C : Type} (f g : A -> C -> A) (X : Batch A) (Z : Batch C) :
  bmap2 f (bmap2 g X Z) Z = bmap2 (fun a c => f (g a c) c) X Z.
Proof.
  unfold bmap2. rewrite map2_map2_l. apply map2_ext. intros l k. apply map2_map2_l.
Qed.

Lemma map2_ext_Forall2 {A C D : Type} (P : A -> C -> Prop) (f g : A -> C -> D)
  (l : list A) (k : list C) :
  (forall a c, P a c -> f a c = g a c) -> Forall2 P l k -> map2 f l k = map2 g l k.
Proof.
  intros H HF. induction HF as [|a c l k Hac _ IH]; [reflexivity|].
  cbn [map2]. rewrite (H a c Hac), IH. reflexivity.
Qed.

Lemma bmap2_ext_BForall2 {A C D : Type} (P : A -> C -> Prop) (f g : A -> C -> D)
  (X : Batch A) (Z : Batch C) :
  (forall a c, P a c -> f a c = g a c) -> BForall2 P X Z -> bmap2 f X Z = bmap2 g X Z.
Proof.
  intros H HF. unfold bmap2. apply (map2_ext_Forall2 (Forall2 P)); [|exact HF].
  intros l k Hlk. apply (map2_ext_Forall2 P); assumption.
Qed.

Lemma map2_fst_Forall2 {A C : Type} (P : A -> C -> Prop) (l : list A) (k : list C) :
  Forall2 P l k -> map2 (fun a _ => a) l k = l.
Proof. intro HF. induction HF; [reflexivity|]. cbn [map2]. f_equal. assumption. Qed.

Lemma bmap2_fst_BForall2 {A C : Type} (P : A -> C -> Prop) (X : Batch A) (Z : Batch C) :
  BForall2 P X Z -> bmap2 (fun a _ => a) X Z = X.
Proof.
  intro HF. unfold bmap2. induction HF as [|l k X Z Hlk _ IH]; [reflexivity|].
  cbn [map2]. rewrite IH, (map2_fst_Forall2 P l k Hlk). reflexivity.
Qed.

(** The state with the momentum along the unit normal taken out [k]
    times: [k = 1] at a slip wall, [k = 2] for its mirror image. *)
Definition reflect_point (physics : Physics R) (k : R) (u n : Vec R) : Vec R :=
  let srhou := get_state_slice physics "Momentum" in
  let nh := unit_normal n in
  set_slice srhou u
    (vsub (get_slice srhou u) (vscale (k * dot (get_slice srhou u) nh) nh)).

Lemma SlipWall_result (physics : Physics R) (UqI : BC.loc) (normals : BC.Arr)
  (h : BC.Heap) :
  BC.SlipWall_get_boundary_state physics UqI normals h
  = (Ok (length h), h ++ [bmap2 (reflect_point physics 1) (nth UqI h []) normals]).
Proof.
  rewrite SlipWall_run. cbv zeta. unfold BC.unit_normals.
  rewrite bmap3_bmap2_fuse. do 3 f_equal. apply bmap2_ext. intros u n.
  unfold reflect_point, unit_normal, dot, vmul. cbv zeta. rewrite Rmult_1_l. reflexivity.
Qed.

Lemma SlipWallRiemann_result (physics : Physics R) (UqI : BC.loc) (normals : BC.Arr)
  (h : BC.Heap) :
  BC.SlipWallRiemann_get_boundary_state physics UqI normals h
  = (Ok (length h), h ++ [bmap2 (reflect_point physics 2) (nth UqI h []) normals]).
Proof.
  unfold BC.SlipWallRiemann_get_boundary_state, BC.bind, BC.read, BC.copy, BC.modify,
    BC.ret.
  cbn. rewrite nth_app_length, upd_app_length. unfold BC.unit_normals.
  rewrite bmap3_bmap2_fuse. reflexivity.
Qed.

Lemma vsub_vscale_twice (a b : R) (m N : list R) :
  length m = length N ->
  vsub (vsub m (vscale a N)) (vscale b N) = vsub m (vscale (a + b) N).
Proof.
  revert N. induction m as [|x m IH]; intros [|y N] L; try discriminate; [reflexivity|].
  unfold vsub, vscale in *. cbn [map map2]. rsimp.
  rewrite IH by (simpl in L; lia). f_equal. ring.
Qed.

Lemma vsub_vscale_0 (m N : list R) : length m = length N -> vsub m (vscale 0 N) = m.
Proof.
  revert N. induction m as [|x m IH]; intros [|y N] L; try discriminate; [reflexivity|].
  unfold vsub, vscale in *. cbn [map map2]. rsimp.
  rewrite IH by (simpl in L; lia). f_equal. ring.
Qed.

(** What [reflect_point] does to the momentum, for a unit normal of the
    width of the momentum slice. *)
Lemma reflect_point_momentum (physics : Physics R) (k : R) (u n : Vec R) :
  slip_wall_input physics u n ->
  let srhou := get_state_slice physics "Momentum" in
  let m := get_slice srhou u in
  let nh := unit_normal n in
  get_slice srhou (reflect_point physics k u n) = vsub m (vscale (k * dot m nh) nh)
  /\ dot (get_slice srhou (reflect_point physics k u n)) nh = (1 - k) * dot m nh
  /\ length (reflect_point physics k u n) = length u
  /\ length m = length nh.
Proof.
  intros (Hn & H1 & H2 & H3). cbv zeta. unfold reflect_point. cbv zeta.
  set (s := get_state_slice physics "Momentum") in *.
  set (nh := unit_normal n). set (m := get_slice s u).
  assert (Hm : length m = (stop s - start s)%nat) by (apply length_get_slice, H2).
  assert (Hnh : length nh = (stop s - start s)%nat)
    by (unfold nh, unit_normal, vdivs; rewrite length_map; exact H3).
  assert (Hw : forall a, length (vsub m (vscale a nh)) = (stop s - start s)%nat).
  { intro a. unfold vsub, vscale. rewrite length_map2, length_map. lia. }
  assert (Hsc : forall a, length m = length (vscale a nh))
    by (intro a; unfold vscale; rewrite length_map; lia).
  rewrite get_set_slice by auto.
  repeat split.
  - rewrite dot_vsub_l, dot_vscale_l by apply Hsc.
    unfold nh. rewrite unit_normal_unit by exact Hn. ring.
  - apply length_set_slice; auto.
  - lia.
Qed.

Lemma reflect_point_input (physics : Physics R) (k : R) (u n : Vec R) :
  slip_wall_input physics u n -> slip_wall_input physics (reflect_point physics k u n) n.
Proof.
  intro H. destruct (reflect_point_momentum physics k u n H) as (_ & _ & HL & _).
  destruct H as (Hn & H1 & H2 & H3). split; [exact Hn|].
  unfold momentum_shape. rewrite HL. auto.
Qed.

(** Reflecting [j] times what has been reflected [k] times. *)
Lemma reflect_point_twice (physics : Physics R) (j k : R) (u n : Vec R) :
  slip_wall_input physics u n ->
  reflect_point physics j (reflect_point physics k u n) n
  = reflect_point physics (k + j * (1 - k)) u n.
Proof.
  intro H. destruct (reflect_point_momentum physics k u n H) as (E1 & E2 & HL & Hm).
  cbv zeta in *. destruct H as (Hn & H1 & H2 & H3).
  unfold reflect_point at 1. cbv zeta. rewrite E2, E1.
  rewrite vsub_vscale_twice by exact Hm.
  unfold reflect_point. cbv zeta.
  rewrite set_set_slice.
  - do 2 f_equal. f_equal. ring.
  - exact H1.
  - exact H2.
  - unfold vsub, vscale. rewrite length_map2, length_map.
    rewrite <- Hm, length_get_slice by exact H2. lia.
Qed.

Lemma reflect_point_0 (physics : Physics R) (u n : Vec R) :
  slip_wall_input physics u n -> reflect_point physics 0 u n = u.
Proof.
  intro H. destruct (reflect_point_momentum physics 0 u n H) as (_ & _ & _ & Hm).
  cbv zeta in Hm. destruct H as (Hn & H1 & H2 & H3).
  unfold reflect_point. cbv zeta. rewrite Rmult_0_l, vsub_vscale_0 by exact Hm.
  apply set_get_slice; assumption.
Qed.

(** Property X11.
    [SlipWall.get_boundary_state] is a projection: given its own result
    as the interior state, it returns that state again. *)
Theorem SlipWall_idempotent (physics : Physics R) (UqI : BC.loc) (normals : BC.Arr)
  (h : BC.Heap) :
  BForall2 (slip_wall_input physics) (nth UqI h []) normals ->
  exists UqB h1 UqB2 h2,
    BC.SlipWall_get_boundary_state physics UqI normals h = (Ok UqB, h1)
    /\ BC.SlipWall_get_boundary_state physics UqB normals h1 = (Ok UqB2, h2)
    /\ nth UqB2 h2 [] = nth UqB h1 [].
Proof.
  intro HV. rewrite SlipWall_result.
  eexists _, _. rewrite SlipWall_result. eexists _, _.
  split; [reflexivity|]. split; [reflexivity|].
  rewrite length_app. cbn [length].
  replace (length h + 1)%nat with (length (h ++ [bmap2 (reflect_point physics 1)
                                                  (nth UqI h []) normals]))
    by (rewrite length_app; reflexivity).
  rewrite !nth_app_length. rewrite bmap2_bmap2_l.
  apply (bmap2_ext_BForall2 (slip_wall_input physics)); [|exact HV].
  intros u n Hun. rewrite reflect_point_twice by exact Hun. f_equal. ring.
Qed.

(** Property X12.
    [SlipWallRiemann.get_boundary_state] is a mirror: applied to its own
    result it gives the interior state back. *)
Theorem SlipWallRiemann_involution (physics : Physics R) (UqI : BC.loc)
  (normals : BC.Arr) (h : BC.Heap) :
  BForall2 (slip_wall_input physics) (nth UqI h []) normals ->
  exists UqB h1 UqB2 h2,
    BC.SlipWallRiemann_get_boundary_state physics UqI normals h = (Ok UqB, h1)
    /\ BC.SlipWallRiemann_get_boundary_state physics UqB normals h1 = (Ok UqB2, h2)
    /\ nth UqB2 h2 [] = nth UqI h [].
Proof.
  intro HV. rewrite SlipWallRiemann_result.
  eexists _, _. rewrite SlipWallRiemann_result. eexists _, _.
  split; [reflexivity|]. split; [reflexivity|].
  rewrite length_app. cbn [length].
  replace (length h + 1)%nat with (length (h ++ [bmap2 (reflect_point physics 2)
                                                  (nth UqI h []) normals]))
    by (rewrite length_app; reflexivity).
  rewrite !nth_app_length. rewrite bmap2_bmap2_l.
  rewrite <- (bmap2_fst_BForall2 _ _ _ HV) at 2.
  apply (bmap2_ext_BForall2 (slip_wall_input physics)); [|exact HV].
  intros u n Hun. rewrite reflect_point_twice by exact Hun.
  replace (2 + 2 * (1 - 2)) with 0 by ring. apply reflect_point_0, Hun.
Qed.

(** The mirror image at one point: the momentum along the unit normal
    changes sign; the entries outside the momentum slice and the momentum
    along any tangent are those of the interior state. *)
Definition mirror_state (physics : Physics R) (b u n : Vec R) : Prop :=
  let srhou := get_state_slice physics "Momentum" in
  dot (get_slice srhou b) (unit_normal n) = - dot (get_slice srhou u) (unit_normal n)
  /\ length b = length u
  /\ (forall k, (k < start srhou \/ stop srhou <= k)%nat -> nth k b 0 = nth k u 0)
  /\ (forall t, dot (unit_normal n) t = 0 ->
        dot (get_slice srhou b) t = dot (get_slice srhou u) t).

Lemma mirror_point (physics : Physics R) (u n : Vec R) :
  slip_wall_input physics u n -> mirror_state physics (reflect_point physics 2 u n) u n.
Proof.
  intro H. destruct (reflect_point_momentum physics 2 u n H) as (E1 & E2 & HL & Hm).
  cbv zeta in *. destruct H as (Hn & H1 & H2 & H3).
  unfold mirror_state. cbv zeta. repeat split.
  - rewrite E2. ring.
  - exact HL.
  - intros k Hk. unfold reflect_point. cbv zeta.
    apply nth_set_slice_outside; auto.
    unfold vsub, vscale. rewrite length_map2, length_map, <- Hm.
    rewrite length_get_slice by exact H2. lia.
  - intros t Ht. rewrite E1.
    rewrite dot_vsub_l, dot_vscale_l by (unfold vscale; rewrite length_map; exact Hm).
    rewrite Ht. ring.
Qed.

Lemma Forall3_map2_l {A C : Type} (P : A -> C -> Prop) (Q : A -> A -> C -> Prop)
  (f : A -> C -> A) (l : list A) (k : list C) :
  (forall a c, P a c -> Q (f a c) a c) -> Forall2 P l k -> Forall3 Q (map2 f l k) l k.
Proof. intros H HF. induction HF; cbn [map2]; constructor; auto. Qed.

Lemma BForall3_bmap2_l {A C : Type} (P : A -> C -> Prop) (Q : A -> A -> C -> Prop)
  (f : A -> C -> A) (X : Batch A) (Z : Batch C) :
  (forall a c, P a c -> Q (f a c) a c) -> BForall2 P X Z ->
  BForall3 Q (bmap2 f X Z) X Z.
Proof.
  intros H HF. unfold BForall3, bmap2.
  apply (Forall3_map2_l (Forall2 P)); [|exact HF].
  intros l k Hlk. apply (Forall3_map2_l P); assumption.
Qed.

(** Property X13.
    [SlipWallRiemann.get_boundary_state] returns a new array that holds, at
    every point, the mirror image of the interior state in the wall. *)
Theorem SlipWallRiemann_boundary_state (physics : Physics R) (UqI : BC.loc)
  (normals : BC.Arr) (h : BC.Heap) :
  BForall2 (slip_wall_input physics) (nth UqI h []) normals ->
  exists UqB,
    fst (BC.SlipWallRiemann_get_boundary_state physics UqI normals h) = Ok UqB /\
    BForall3 (mirror_state physics)
      (nth UqB (snd (BC.SlipWallRiemann_get_boundary_state physics UqI normals h)) [])
      (nth UqI h []) normals.
Proof.
  intro HV. rewrite SlipWallRiemann_result. exists (length h). cbn [fst snd].
  split; [reflexivity|]. rewrite nth_app_length.
  apply (BForall3_bmap2_l (slip_wall_input physics)); [|exact HV].
  apply mirror_point.
Qed.

Lemma vadd_app (a b c d : list R) :
  length a = length b -> vadd (a ++ c) (b ++ d) = vadd a b ++ vadd c d.
Proof.
  revert b. induction a as [|x a IH]; intros [|y b] L; try discriminate; [reflexivity|].
  unfold vadd in *. cbn [app map2]. rewrite IH by (simpl in L; lia). reflexivity.
Qed.

Lemma vscale_app (k : R) (a b : list R) : vscale k (a ++ b) = vscale k a ++ vscale k b.
Proof. apply map_app. Qed.

Lemma half_double (a : list R) : vscale (1 / 2) (vadd a a) = a.
Proof.
  unfold vscale, vadd. rewrite map2_diag, map_map. rewrite <- (map_id a) at 2.
  apply map_ext. intro x. rsimp. field.
Qed.

Lemma half_sum_reflected (a : R) (m N : list R) :
  length m = length N ->
  vscale (1 / 2) (vadd m (vsub m (vscale (2 * a) N))) = vsub m (vscale (1 * a) N).
Proof.
  revert N. induction m as [|x m IH]; intros [|y N] L; try discriminate; [reflexivity|].
  unfold vscale, vadd, vsub in *. cbn [map map2]. rsimp.
  rewrite IH by (simpl in L; lia). f_equal. field.
Qed.

Lemma mean_of_mirror_point (physics : Physics R) (u n : Vec R) :
  slip_wall_input physics u n ->
  vscale (1 / 2) (vadd u (reflect_point physics 2 u n)) = reflect_point physics 1 u n.
Proof.
  intro H. destruct (reflect_point_momentum physics 2 u n H) as (_ & _ & _ & Hm).
  cbv zeta in Hm. destruct H as (Hn & H1 & H2 & H3).
  unfold reflect_point. cbv zeta.
  set (s := get_state_slice physics "Momentum") in *. set (nh := unit_normal n) in *.
  set (m := get_slice s u) in *.
  rewrite (slice_decompose s u H1 H2) at 1. fold m. unfold set_slice.
  rewrite vadd_app by reflexivity.
  rewrite vadd_app
    by (unfold vsub, vscale; rewrite length_map2, length_map; lia).
  rewrite !vscale_app, !half_double, half_sum_reflected by exact Hm. reflexivity.
Qed.

Lemma map2_map2_r {A C : Type} (f : A -> A -> A) (g : A -> C -> A)
  (l : list A) (k : list C) :
  map2 f l (map2 g l k) = map2 (fun a c => f a (g a c)) l k.
Proof.
  revert k. induction l as [|a l IH]; intros [|c k]; try reflexivity.
  cbn [map2]. rewrite IH. reflexivity.
Qed.

Lemma bmap2_bmap2_r {A C : Type} (f : A -> A -> A) (g : A -> C -> A)
  (X : Batch A) (Z : Batch C) :
  bmap2 f X (bmap2 g X Z) = bmap2 (fun a c => f a (g a c)) X Z.
Proof.
  unfold bmap2. rewrite map2_map2_r. apply map2_ext. intros l k. apply map2_map2_r.
Qed.

(** Property X14.
    The slip-wall state is the mean of the interior state and of its
    mirror image: what [SlipWall] returns is half the sum of its argument
    and of what [SlipWallRiemann] returns. *)
Theorem SlipWall_mean_of_interior_and_mirror (physics : Physics R) (UqI : BC.loc)
  (normals : BC.Arr) (h : BC.Heap) :
  BForall2 (slip_wall_input physics) (nth UqI h []) normals ->
  exists UqB hB UqM hM,
    BC.SlipWall_get_boundary_state physics UqI normals h = (Ok UqB, hB)
    /\ BC.SlipWallRiemann_get_boundary_state physics UqI normals h = (Ok UqM, hM)
    /\ nth UqB hB []
       = bmap2 (fun u r => vscale (1 / 2) (vadd u r)) (nth UqI h []) (nth UqM hM []).
Proof.
  intro HV. rewrite SlipWall_result, SlipWallRiemann_result.
  eexists _, _, _, _. split; [reflexivity|]. split; [reflexivity|].
  rewrite !nth_app_length, bmap2_bmap2_r. symmetry.
  apply (bmap2_ext_BForall2 (slip_wall_input physics)); [|exact HV].
  apply mean_of_mirror_point.
Qed.

Lemma SlipWall_idempotent_witness :
  exists UqB h1 UqB2 h2,
    BC.SlipWall_get_boundary_state (air 2) 0%nat [[ [3; 4] ]] [ [[ [1; 1; 2; 5] ]] ]
    = (Ok UqB, h1)
    /\ BC.SlipWall_get_boundary_state (air 2) UqB [[ [3; 4] ]] h1 = (Ok UqB2, h2)
    /\ nth UqB2 h2 [] = nth UqB h1 [].
Proof.
  apply (SlipWall_idempotent (air 2) 0%nat [[ [3; 4] ]] [ [[ [1; 1; 2; 5] ]] ]).
  apply BForall2_single, slip_wall_input_air_2D.
Defined.

Lemma SlipWallRiemann_involution_witness :
  exists UqB h1 UqB2 h2,
    BC.SlipWallRiemann_get_boundary_state (air 2) 0%nat [[ [3; 4] ]] [ [[ [1; 1; 2; 5] ]] ]
    = (Ok UqB, h1)
    /\ BC.SlipWallRiemann_get_boundary_state (air 2) UqB [[ [3; 4] ]] h1 = (Ok UqB2, h2)
    /\ nth UqB2 h2 [] = [[ [1; 1; 2; 5] ]].
Proof.
  apply (SlipWallRiemann_involution (air 2) 0%nat [[ [3; 4] ]] [ [[ [1; 1; 2; 5] ]] ]).
  apply BForall2_single, slip_wall_input_air_2D.
Defined.

Lemma SlipWallRiemann_boundary_state_witness :
  exists UqB,
    fst (BC.SlipWallRiemann_get_boundary_state (air 2) 0%nat [[ [3; 4] ]]
           [ [[ [1; 1; 2; 5] ]] ]) = Ok UqB /\
    BForall3 (mirror_state (air 2))
      (nth UqB (snd (BC.SlipWallRiemann_get_boundary_state (air 2) 0%nat [[ [3; 4] ]]
                       [ [[ [1; 1; 2; 5] ]] ])) [])
      [[ [1; 1; 2; 5] ]] [[ [3; 4] ]].
Proof.
  apply (SlipWallRiemann_boundary_state (air 2) 0%nat [[ [3; 4] ]] [ [[ [1; 1; 2; 5] ]] ]).
  apply BForall2_single, slip_wall_input_air_2D.
Defined.

Lemma SlipWall_mean_of_interior_and_mirror_witness :
  exists UqB hB UqM hM,
    BC.SlipWall_get_boundary_state (air 2) 0%nat [[ [3; 4] ]] [ [[ [1; 1; 2; 5] ]] ]
    = (Ok UqB, hB)
    /\ BC.SlipWallRiemann_get_boundary_state (air 2) 0%nat [[ [3; 4] ]]
         [ [[ [1; 1; 2; 5] ]] ] = (Ok UqM, hM)
    /\ nth UqB hB []
       = bmap2 (fun u r => vscale (1 / 2) (vadd u r)) [[ [1; 1; 2; 5] ]] (nth UqM hM []).
Proof.
  apply (SlipWall_mean_of_interior_and_mirror (air 2) 0%nat [[ [3; 4] ]]
           [ [[ [1; 1; 2; 5] ]] ]).
  apply BForall2_single, slip_wall_input_air_2D.
Defined.

(** ** Viscous walls *)

Lemma nth_app_copy {A : Type} (d : A) (l : nat) (h : list A) :
  nth l (h ++ [nth l h d]) d = nth l h d.
Proof.
  destruct (Nat.lt_ge_cases l (length h)) as [H|H].
  - apply app_nth1, H.
  - rewrite (nth_overflow h) by exact H.
    destruct (Nat.eq_dec l (length h)) as [->|Hne].
    + apply nth_app_length.
    + apply nth_overflow. rewrite length_app. cbn [length]. lia.
Qed.

Lemma map2_map_map {A B C D : Type} (f : B -> C -> D) (g : A -> B) (k : A -> C)
  (l : list A) :
  map2 f (map g l) (map k l) = map (fun a => f (g a) (k a)) l.
Proof. induction l as [|a l IH]; [reflexivity|]. cbn [map map2]. rewrite IH. reflexivity. Qed.

Lemma bmap2_bmap_bmap {A B C D : Type} (f : B -> C -> D) (g : A -> B) (k : A -> C)
  (X : Batch A) :
  bmap2 f (bmap g X) (bmap k X) = bmap (fun a => f (g a) (k a)) X.
Proof.
  unfold bmap2, bmap. rewrite map2_map_map. apply map_ext. intro l. apply map2_map_map.
Qed.

Lemma map3_map_map_map {A B C D E : Type} (f : B -> C -> D -> E) (g : A -> B)
  (k : A -> C) (j : A -> D) (l : list A) :
  map3 f (map g l) (map k l) (map j l) = map (fun a => f (g a) (k a) (j a)) l.
Proof.
  induction l as [|a l IH]; [reflexivity|]. cbn [map map3]. rewrite IH. reflexivity.
Qed.

Lemma bmap3_bmap_bmap_bmap {A B C D E : Type} (f : B -> C -> D -> E) (g : A -> B)
  (k : A -> C) (j : A -> D) (X : Batch A) :
  bmap3 f (bmap g X) (bmap k X) (bmap j X) = bmap (fun a => f (g a) (k a) (j a)) X.
Proof.
  unfold bmap3, bmap. rewrite map3_map_map_map. apply map_ext. intro l.
  apply map3_map_map_map.
Qed.

Lemma bmap_bmap {A B C : Type} (f : B -> C) (g : A -> B) (X : Batch A) :
  bmap f (bmap g X) = bmap (fun a => f (g a)) X.
Proof. unfold bmap. rewrite map_map. apply map_ext. intro l. apply map_map. Qed.

Lemma Forall2_map_l {A : Type} (P : A -> Prop) (Q : A -> A -> Prop) (F : A -> A)
  (l : list A) :
  (forall a, P a -> Q (F a) a) -> Forall P l -> Forall2 Q (map F l) l.
Proof. intros H HF. induction HF; cbn [map]; constructor; auto. Qed.

Lemma BForall2_bmap_l {A : Type} (P : A -> Prop) (Q : A -> A -> Prop) (F : A -> A)
  (X : Batch A) :
  (forall a, P a -> Q (F a) a) -> everywhere P X -> BForall2 Q (bmap F X) X.
Proof.
  intros H HF. unfold BForall2, bmap. apply (Forall2_map_l (Forall P)); [|exact HF].
  intros l Hl. apply (Forall2_map_l P); assumption.
Qed.

Lemma existsb_lt0 (v : list R) :
  existsb (fun x => Rltb x 0) v = true <-> Exists (fun x => x < 0) v.
Proof.
  rewrite existsb_exists, Exists_exists.
  split; intros (x & Hx & H); exists x; (split; [exact Hx|]); apply Rltb_true; exact H.
Qed.

Lemma existsb_lt0_false (v : list R) :
  existsb (fun x => Rltb x 0) v = false <-> Forall (fun x => 0 <= x) v.
Proof.
  induction v as [|a v IH]; cbn [existsb].
  - split; [constructor | reflexivity].
  - rewrite orb_false_iff, IH, Rltb_false. split.
    + intros [H1 H2]. constructor; assumption.
    + intro H. inversion H; subst. split; assumption.
Qed.

(** The three slices with nothing between them: densities, momentum,
    energy, from the first entry to the last. *)
Definition state_slices_cover (physics : Physics R) (u : Vec R) : Prop :=
  state_layout physics (length u).

Lemma get_fill_slice_same {A : Type} (s : Slice) (x : A) (v : list A) :
  (start s <= stop s)%nat -> (stop s <= length v)%nat ->
  get_slice s (fill_slice (start s) (stop s) x v) = repeat x (stop s - start s).
Proof.
  intros H1 H2. rewrite fill_slice_set_slice by assumption.
  apply get_set_slice; auto. apply repeat_length.
Qed.

Lemma get_fill_slice_other {A : Type} (s s' : Slice) (x : A) (v : list A) :
  (start s <= stop s)%nat -> (stop s <= length v)%nat ->
  (stop s' <= start s \/ stop s <= start s')%nat ->
  get_slice s' (fill_slice (start s) (stop s) x v) = get_slice s' v.
Proof.
  intros H1 H2 H3. rewrite fill_slice_set_slice by assumption.
  apply get_set_slice_other; auto. apply repeat_length.
Qed.

(** *** Adiabatic wall *)

Lemma AdiabaticWall_run (physics : Physics R) (UqI : BC.loc) (normals : BC.Arr)
  (h : BC.Heap) :
  let uI := nth UqI h [] in
  let srhou := snd (fst (get_state_slices physics)) in
  let srhoE := snd (get_state_slices physics) in
  BC.AdiabaticWall_get_boundary_state physics UqI normals h
  = if bany (existsb (fun x => Rltb x 0)) (bmap (Densities physics) uI)
    then (Raise (NotPhysicalError "Negative densities at adiabatic wall."), h ++ [uI])
    else if bany (fun x => Rltb x 0) (bmap (Temperature physics) uI)
    then (Raise (NotPhysicalError "Negative temperature at adiabatic wall."), h ++ [uI])
    else (Ok (length h),
          h ++ [bmap (fun u =>
                        let t := set_state_from_rhoi_T physics (Densities physics u)
                                   (Temperature physics u) in
                        fill_slice (start srhoE) (stop srhoE) (thermo.rho t * thermo.e t)
                          (fill_slice (start srhou) (stop srhou) 0 u)) uI]).
Proof.
  cbv zeta. unfold BC.AdiabaticWall_get_boundary_state.
  destruct (get_state_slices physics) as [[srho srhou] srhoE]. cbn [fst snd].
  unfold BC.bind, BC.read, BC.copy, BC.modify, BC.ret, BC.raise. rsimp.
  cbv beta iota. rewrite nth_app_copy.
  destruct (bany _ _); [reflexivity|].
  destruct (bany _ _); [reflexivity|].
  cbv beta iota. repeat (rewrite ?nth_app_length, ?upd_app_length; cbv beta iota).
  rewrite (bmap2_bmap_bmap (set_state_from_rhoi_T physics)).
  rewrite bmap2_bmap_bmap. reflexivity.
Qed.

(** The adiabatic-wall state at one point: no momentum, the energy of the
    gas at the interior densities and temperature, and the densities of
    the interior state. *)
Definition adiabatic_wall_state (physics : Physics R) (b u : Vec R) : Prop :=
  let '(srho, srhou, srhoE) := get_state_slices physics in
  let t := set_state_from_rhoi_T physics (Densities physics u) (Temperature physics u) in
  get_slice srhou b = repeat 0 (stop srhou - start srhou)
  /\ get_slice srhoE b = repeat (thermo.rho t * thermo.e t) (stop srhoE - start srhoE)
  /\ get_slice srho b = get_slice srho u
  /\ length b = length u.

Lemma adiabatic_wall_point (physics : Physics R) (u : Vec R) :
  state_slices_cover physics u ->
  let srhou := snd (fst (get_state_slices physics)) in
  let srhoE := snd (get_state_slices physics) in
  let t := set_state_from_rhoi_T physics (Densities physics u) (Temperature physics u) in
  adiabatic_wall_state physics
    (fill_slice (start srhoE) (stop srhoE) (thermo.rho t * thermo.e t)
       (fill_slice (start srhou) (stop srhou) 0 u)) u.
Proof.
  unfold state_slices_cover, state_layout, adiabatic_wall_state.
  destruct (get_state_slices physics) as [[srho srhou] srhoE]. cbn [fst snd].
  intros (L1 & L2 & L3 & L4 & L5 & L6). cbv zeta.
  repeat split.
  - rewrite get_fill_slice_other by (rewrite ?length_fill_slice; lia).
    apply get_fill_slice_same; lia.
  - apply get_fill_slice_same; rewrite ?length_fill_slice; lia.
  - rewrite !get_fill_slice_other by (rewrite ?length_fill_slice; lia). reflexivity.
  - rewrite !length_fill_slice. reflexivity.
Qed.

(** Property X15.
    [AdiabaticWall.get_boundary_state]: a negative density anywhere is
    reported first, then a negative temperature; otherwise the state of
    every point is the adiabatic-wall state. *)
Theorem AdiabaticWall_boundary_state (physics : Physics R) (UqI : BC.loc)
  (normals : BC.Arr) (h : BC.Heap) :
  let uI := nth UqI h [] in
  let rhoiI := bmap (Densities physics) uI in
  let TI := bmap (Temperature physics) uI in
  let result := BC.AdiabaticWall_get_boundary_state physics UqI normals h in
  (somewhere (Exists (fun x => x < 0)) rhoiI ->
     fst result = Raise (NotPhysicalError "Negative densities at adiabatic wall."))
  /\ (everywhere (Forall (fun x => 0 <= x)) rhoiI -> somewhere (fun x => x < 0) TI ->
      fst result = Raise (NotPhysicalError "Negative temperature at adiabatic wall."))
  /\ (everywhere (Forall (fun x => 0 <= x)) rhoiI -> everywhere (fun x => 0 <= x) TI ->
      everywhere (state_slices_cover physics) uI ->
      exists UqB, fst result = Ok UqB /\
        BForall2 (adiabatic_wall_state physics) (nth UqB (snd result) []) uI).
Proof.
  cbv zeta. rewrite AdiabaticWall_run. cbv zeta.
  set (uI := nth UqI h []).
  pose proof (fun X => bany_true _ _ X existsb_lt0) as HT1.
  pose proof (fun X => bany_false _ _ X existsb_lt0_false) as HF1.
  pose proof (fun X => bany_true (fun x => Rltb x 0) (fun x => x < 0) X
                         (fun a => Rltb_true a 0)) as HT2.
  pose proof (fun X => bany_false (fun x => Rltb x 0) (fun x => 0 <= x) X
                         (fun a => Rltb_false a 0)) as HF2.
  repeat split.
  - intro H. apply HT1 in H. rewrite H. reflexivity.
  - intros H1 H2. apply HF1 in H1. apply HT2 in H2. rewrite H1, H2. reflexivity.
  - intros H1 H2 HL. apply HF1 in H1. apply HF2 in H2. rewrite H1, H2.
    exists (length h). cbn [fst snd]. split; [reflexivity|]. rewrite nth_app_length.
    apply (BForall2_bmap_l (state_slices_cover physics)); [|exact HL].
    intros u Hu. apply (adiabatic_wall_point physics u Hu).
Qed.

(** *** Isothermal walls *)

(** The isothermal-wall state at one point, for each of the three methods:
    no momentum in all of them; [set_rhoE] ([method = 1]) keeps the energy
    and rebuilds the densities from it, [set_rho] ([method = 2]) keeps the
    densities and rebuilds the energy, [set_Y_T_p] (any other [method])
    rebuilds both from the interior pressure and mass fractions. *)
Definition isothermal_wall_state (physics : Physics R) (Twall : R) (method : nat)
  (b u : Vec R) : Prop :=
  let '(srho, srhou, srhoE) := get_state_slices physics in
  let r := get_slice srho u in
  get_slice srhou b = repeat 0 (stop srhou - start srhou)
  /\ length b = length u
  /\ match method with
     | 1%nat =>
         let t := set_state_from_rhoi_T physics r Twall in
         get_slice srhoE b = get_slice srhoE u
         /\ get_slice srho b
            = vscale (nth (start srhoE) u 0 / thermo.e t) (vdivs r (vsum r))
     | 2%nat =>
         let t := set_state_from_rhoi_T physics r Twall in
         get_slice srho b = r
         /\ get_slice srhoE b = repeat (vsum r * thermo.e t) (stop srhoE - start srhoE)
     | _ =>
         let Y := thermo.Y (set_thermo_state physics u) in
         let t := set_state_from_Y_T_p physics Y Twall (Pressure physics u) in
         get_slice srho b = vscale (thermo.rho t) Y
         /\ get_slice srhoE b
            = repeat (thermo.rho t * thermo.e t) (stop srhoE - start srhoE)
     end.

(** What the wall asks of an interior state: the three slices cover it,
    and the mass fractions are as many as the densities. *)
Definition isothermal_wall_input (physics : Physics R) (u : Vec R) : Prop :=
  state_slices_cover physics u
  /\ length (thermo.Y (set_thermo_state physics u))
     = (let '(srho, _, _) := get_state_slices physics in stop srho - start srho)%nat.

(** The condition under which each method raises. *)
Definition isothermal_wall_bad (physics : Physics R) (method : nat) (uI : BC.Arr) : Prop :=
  let '(srho, _, _) := get_state_slices physics in
  match method with
  | 1%nat | 2%nat => somewhere (Exists (fun x => x < 0)) (bmap (get_slice srho) uI)
  | _ => somewhere (fun x => x < 0) (bmap (Pressure physics) uI)
  end.

Definition isothermal_wall_good (physics : Physics R) (method : nat) (uI : BC.Arr) : Prop :=
  let '(srho, _, _) := get_state_slices physics in
  match method with
  | 1%nat | 2%nat => everywhere (Forall (fun x => 0 <= x)) (bmap (get_slice srho) uI)
  | _ => everywhere (fun x => 0 <= x) (bmap (Pressure physics) uI)
  end.

Lemma set_rhoE_point (physics : Physics R) (Twall : R) (u : Vec R) :
  isothermal_wall_input physics u ->
  let '(srho, srhou, srhoE) := get_state_slices physics in
  let r := get_slice srho u in
  let t := set_state_from_rhoi_T physics r Twall in
  isothermal_wall_state physics Twall 1
    (fill_slice (start srhou) (stop srhou) 0
       (set_slice srho u (vscale (nth (start srhoE) u 0 / thermo.e t) (vdivs r (vsum r)))))
    u.
Proof.
  unfold isothermal_wall_input, state_slices_cover, state_layout, isothermal_wall_state.
  destruct (get_state_slices physics) as [[srho srhou] srhoE].
  intros ((L1 & L2 & L3 & L4 & L5 & L6) & _). cbv zeta.
  set (w := vscale _ _).
  assert (Hw : length w = (stop srho - start srho)%nat).
  { unfold w, vscale, vdivs. rewrite !length_map. apply length_get_slice. lia. }
  assert (Hl : length (set_slice srho u w) = length u)
    by (apply length_set_slice; auto; lia).
  repeat split.
  - apply get_fill_slice_same; lia.
  - rewrite length_fill_slice. exact Hl.
  - rewrite get_fill_slice_other by lia. apply get_set_slice_other; auto; lia.
  - rewrite get_fill_slice_other by lia. apply get_set_slice; auto; lia.
Qed.

Lemma set_rho_point (physics : Physics R) (Twall : R) (u : Vec R) :
  isothermal_wall_input physics u ->
  let '(srho, srhou, srhoE) := get_state_slices physics in
  let r := get_slice srho u in
  let t := set_state_from_rhoi_T physics r Twall in
  isothermal_wall_state physics Twall 2
    (fill_slice (start srhou) (stop srhou) 0
       (fill_slice (start srhoE) (stop srhoE) (vsum r * thermo.e t) u))
    u.
Proof.
  unfold isothermal_wall_input, state_slices_cover, state_layout, isothermal_wall_state.
  destruct (get_state_slices physics) as [[srho srhou] srhoE].
  intros ((L1 & L2 & L3 & L4 & L5 & L6) & _). cbv zeta.
  repeat split.
  - apply get_fill_slice_same; rewrite ?length_fill_slice; lia.
  - rewrite !length_fill_slice. reflexivity.
  - rewrite !get_fill_slice_other by (rewrite ?length_fill_slice; lia). reflexivity.
  - rewrite get_fill_slice_other by (rewrite ?length_fill_slice; lia).
    apply get_fill_slice_same; lia.
Qed.

Lemma set_Y_T_p_point (physics : Physics R) (Twall : R) (method : nat) (u : Vec R) :
  method <> 1%nat -> method <> 2%nat ->
  isothermal_wall_input physics u ->
  let '(srho, srhou, srhoE) := get_state_slices physics in
  let Y := thermo.Y (set_thermo_state physics u) in
  let t := set_state_from_Y_T_p physics Y Twall (Pressure physics u) in
  isothermal_wall_state physics Twall method
    (fill_slice (start srhoE) (stop srhoE) (thermo.rho t * thermo.e t)
       (fill_slice (start srhou) (stop srhou) 0
          (set_slice srho u (vscale (thermo.rho t) Y))))
    u.
Proof.
  intros M1 M2.
  unfold isothermal_wall_input, state_slices_cover, state_layout, isothermal_wall_state.
  destruct (get_state_slices physics) as [[srho srhou] srhoE].
  intros ((L1 & L2 & L3 & L4 & L5 & L6) & HY). cbv zeta.
  set (w := vscale _ _).
  assert (Hw : length w = (stop srho - start srho)%nat)
    by (unfold w, vscale; rewrite length_map; exact HY).
  assert (Hl : length (set_slice srho u w) = length u)
    by (apply length_set_slice; auto; lia).
  assert (G : get_slice srhou
                (fill_slice (start srhoE) (stop srhoE)
                   (thermo.rho (set_state_from_Y_T_p physics
                      (thermo.Y (set_thermo_state physics u)) Twall (Pressure physics u))
                    * thermo.e (set_state_from_Y_T_p physics
                      (thermo.Y (set_thermo_state physics u)) Twall (Pressure physics u)))
                   (fill_slice (start srhou) (stop srhou) 0 (set_slice srho u w)))
              = repeat 0 (stop srhou - start srhou)).
  { rewrite get_fill_slice_other by (rewrite ?length_fill_slice; lia).
    apply get_fill_slice_same; lia. }
  split; [exact G|]. split; [rewrite !length_fill_slice; exact Hl|].
  destruct method as [|[|[|m]]]; try congruence; split;
    try (rewrite !get_fill_slice_other by (rewrite ?length_fill_slice; lia);
         apply get_set_slice; auto; lia);
    apply get_fill_slice_same; rewrite ?length_fill_slice; lia.
Qed.

Lemma bmap2_self {A C D : Type} (f : A -> C -> D) (g : A -> C) (X : Batch A) :
  bmap2 f X (bmap g X) = bmap (fun a => f a (g a)) X.
Proof.
  rewrite <- (bmap_id X) at 1. apply (bmap2_bmap_bmap f (fun a => a) g).
Qed.

Lemma bmap3_self {A C D E : Type} (f : A -> C -> D -> E) (g : A -> C) (k : A -> D)
  (X : Batch A) :
  bmap3 f X (bmap g X) (bmap k X) = bmap (fun a => f a (g a) (k a)) X.
Proof.
  rewrite <- (bmap_id X) at 1. apply (bmap3_bmap_bmap_bmap f (fun a => a) g k).
Qed.

Ltac run_bc :=
  unfold BC.bind, BC.read, BC.copy, BC.modify, BC.ret, BC.raise; rsimp;
  cbv beta iota; rewrite ?nth_app_copy;
  repeat (match goal with |- context [if bany ?f ?X then _ else _] =>
            destruct (bany f X); [reflexivity|] end);
  cbv beta iota;
  repeat (rewrite ?nth_app_length, ?upd_app_length; cbv beta iota).

Lemma set_rhoE_run (physics : Physics R) (Twall : R) (UqI : BC.loc) (normals : BC.Arr)
  (h : BC.Heap) :
  let uI := nth UqI h [] in
  let srho := fst (fst (get_state_slices physics)) in
  let srhou := snd (fst (get_state_slices physics)) in
  let srhoE := snd (get_state_slices physics) in
  BC.set_rhoE physics Twall UqI normals h
  = if bany (existsb (fun x => Rltb x 0)) (bmap (get_slice srho) uI)
    then (Raise (NotPhysicalError EmptyString), h ++ [uI])
    else (Ok (length h),
          h ++ [bmap (fun u =>
                        let r := get_slice srho u in
                        let t := set_state_from_rhoi_T physics r Twall in
                        fill_slice (start srhou) (stop srhou) 0
                          (set_slice srho u
                             (vscale (nth (start srhoE) u 0 / thermo.e t)
                                (vdivs r (vsum r))))) uI]).
Proof.
  cbv zeta. unfold BC.set_rhoE.
  destruct (get_state_slices physics) as [[srho srhou] srhoE]. cbn [fst snd].
  run_bc. rewrite !bmap_bmap, bmap3_self, bmap_bmap. reflexivity.
Qed.

Lemma set_rho_run (physics : Physics R) (Twall : R) (UqI : BC.loc) (normals : BC.Arr)
  (h : BC.Heap) :
  let uI := nth UqI h [] in
  let srho := fst (fst (get_state_slices physics)) in
  let srhou := snd (fst (get_state_slices physics)) in
  let srhoE := snd (get_state_slices physics) in
  BC.set_rho physics Twall UqI normals h
  = if bany (existsb (fun x => Rltb x 0)) (bmap (get_slice srho) uI)
    then (Raise (NotPhysicalError EmptyString), h ++ [uI])
    else (Ok (length h),
          h ++ [bmap (fun u =>
                        let r := get_slice srho u in
                        let t := set_state_from_rhoi_T physics r Twall in
                        fill_slice (start srhou) (stop srhou) 0
                          (fill_slice (start srhoE) (stop srhoE) (vsum r * thermo.e t) u))
                  uI]).
Proof.
  cbv zeta. unfold BC.set_rho.
  destruct (get_state_slices physics) as [[srho srhou] srhoE]. cbn [fst snd].
  run_bc. rewrite !bmap_bmap, bmap3_self, bmap_bmap. reflexivity.
Qed.

Lemma set_Y_T_p_run (physics : Physics R) (Twall : R) (UqI : BC.loc) (normals : BC.Arr)
  (h : BC.Heap) :
  let uI := nth UqI h [] in
  let srho := fst (fst (get_state_slices physics)) in
  let srhou := snd (fst (get_state_slices physics)) in
  let srhoE := snd (get_state_slices physics) in
  BC.set_Y_T_p physics Twall UqI normals h
  = if bany (fun x => Rltb x 0) (bmap (Pressure physics) uI)
    then (Raise (NotPhysicalError EmptyString), h ++ [uI])
    else (Ok (length h),
          h ++ [bmap (fun u =>
                        let Y := thermo.Y (set_thermo_state physics u) in
                        let t := set_state_from_Y_T_p physics Y Twall (Pressure physics u) in
                        fill_slice (start srhoE) (stop srhoE) (thermo.rho t * thermo.e t)
                          (fill_slice (start srhou) (stop srhou) 0
                             (set_slice srho u (vscale (thermo.rho t) Y)))) uI]).
Proof.
  cbv zeta. unfold BC.set_Y_T_p.
  destruct (get_state_slices physics) as [[srho srhou] srhoE]. cbn [fst snd].
  run_bc.
  rewrite (bmap2_bmap_bmap (fun y p => set_state_from_Y_T_p physics y Twall p)).
  rewrite bmap3_self, bmap_bmap, bmap2_bmap_bmap. reflexivity.
Qed.

(** Property X16.
    [IsothermalWall.get_boundary_state], whatever its [method]: it raises
    when its check fails somewhere on the face, and otherwise returns the
    isothermal-wall state of that method at every point, with no momentum
    left. *)
Theorem IsothermalWall_boundary_state (physics : Physics R) (Twall : R) (method : nat)
  (UqI : BC.loc) (normals : BC.Arr) (h : BC.Heap) :
  let uI := nth UqI h [] in
  let result := BC.IsothermalWall_get_boundary_state physics Twall method UqI normals h in
  (isothermal_wall_bad physics method uI ->
     fst result = Raise (NotPhysicalError EmptyString))
  /\ (isothermal_wall_good physics method uI ->
      everywhere (isothermal_wall_input physics) uI ->
      exists UqB, fst result = Ok UqB /\
        BForall2 (isothermal_wall_state physics Twall method)
          (nth UqB (snd result) []) uI).
Proof.
  cbv zeta. unfold BC.IsothermalWall_get_boundary_state.
  pose proof (fun X => bany_true _ _ X existsb_lt0) as HT1.
  pose proof (fun X => bany_false _ _ X existsb_lt0_false) as HF1.
  pose proof (fun X => bany_true (fun x => Rltb x 0) (fun x => x < 0) X
                         (fun a => Rltb_true a 0)) as HT2.
  pose proof (fun X => bany_false (fun x => Rltb x 0) (fun x => 0 <= x) X
                         (fun a => Rltb_false a 0)) as HF2.
  unfold isothermal_wall_bad, isothermal_wall_good.
  destruct (Nat.eqb method 1) eqn:E1; [|destruct (Nat.eqb method 2) eqn:E2].
  - apply Nat.eqb_eq in E1. subst method. rewrite set_rhoE_run. cbv zeta.
    pose proof (set_rhoE_point physics Twall) as P. revert P.
    destruct (get_state_slices physics) as [[srho srhou] srhoE]. cbn [fst snd].
    intro P. split.
    + intro H. apply HT1 in H. rewrite H. reflexivity.
    + intros H HL. apply HF1 in H. rewrite H. exists (length h). cbn [fst snd].
      split; [reflexivity|]. rewrite nth_app_length.
      apply (BForall2_bmap_l (isothermal_wall_input physics)); [|exact HL]. exact P.
  - apply Nat.eqb_eq in E2. subst method. rewrite set_rho_run. cbv zeta.
    pose proof (set_rho_point physics Twall) as P. revert P.
    destruct (get_state_slices physics) as [[srho srhou] srhoE]. cbn [fst snd].
    intro P. split.
    + intro H. apply HT1 in H. rewrite H. reflexivity.
    + intros H HL. apply HF1 in H. rewrite H. exists (length h). cbn [fst snd].
      split; [reflexivity|]. rewrite nth_app_length.
      apply (BForall2_bmap_l (isothermal_wall_input physics)); [|exact HL]. exact P.
  - apply Nat.eqb_neq in E1. apply Nat.eqb_neq in E2.
    pose proof (fun u => set_Y_T_p_point physics Twall method u E1 E2) as P. revert P.
    rewrite set_Y_T_p_run. cbv zeta.
    destruct (get_state_slices physics) as [[srho srhou] srhoE]. cbn [fst snd].
    intro P.
    assert (Hm : forall (A : Type) (a b : A),
               match method with 1%nat | 2%nat => a | _ => b end = b)
      by (intros; destruct method as [|[|[|m]]]; congruence).
    rewrite !Hm. split.
    + intro H. apply HT2 in H. rewrite H. reflexivity.
    + intros H HL. apply HF2 in H. rewrite H. exists (length h). cbn [fst snd].
      split; [reflexivity|]. rewrite nth_app_length.
      apply (BForall2_bmap_l (isothermal_wall_input physics)); [|exact HL]. exact P.
Qed.

(** *** Isothermal wall, Riemann form *)

(** The state [IsothermalWallRiemann] builds at one point: the momentum of
    the interior state with its sign changed, its densities, and the
    energy of the gas at the wall temperature plus the kinetic energy. *)
Definition isothermal_mirror_state (physics : Physics R) (Twall : R) (b u : Vec R) : Prop :=
  let '(srho, srhou, srhoE) := get_state_slices physics in
  let r := get_slice srho u in
  let m := get_slice srhou u in
  let t := set_state_from_rhoi_T physics r Twall in
  get_slice srhou b = vneg m
  /\ get_slice srho b = r
  /\ get_slice srhoE b
     = repeat (vsum r * thermo.e t + 1 / 2 * dot m m / vsum r) (stop srhoE - start srhoE)
  /\ length b = length u.

Lemma IsothermalWallRiemann_run (physics : Physics R) (Twall : R) (UqI : BC.loc)
  (normals : BC.Arr) (h : BC.Heap) :
  let uI := nth UqI h [] in
  let srho := fst (fst (get_state_slices physics)) in
  let srhou := snd (fst (get_state_slices physics)) in
  let srhoE := snd (get_state_slices physics) in
  BC.IsothermalWallRiemann_get_boundary_state physics Twall UqI normals h
  = if bany (existsb (fun x => Rltb x 0)) (bmap (get_slice srho) uI)
    then (Raise (NotPhysicalError EmptyString), h ++ [uI])
    else (Ok (length h),
          h ++ [bmap (fun u =>
                        let r := get_slice srho u in
                        let m := get_slice srhou u in
                        let t := set_state_from_rhoi_T physics r Twall in
                        fill_slice (start srhoE) (stop srhoE)
                          (vsum r * thermo.e t + 1 / 2 * vsum (vmul m m) / vsum r)
                          (set_slice srhou u (vneg m))) uI]).
Proof.
  cbv zeta. unfold BC.IsothermalWallRiemann_get_boundary_state.
  destruct (get_state_slices physics) as [[srho srhou] srhoE]. cbn [fst snd].
  run_bc. rewrite !bmap_bmap, bmap2_self, bmap3_bmap_bmap_bmap, bmap2_bmap_bmap.
  reflexivity.
Qed.

(** Property X17.
    [IsothermalWallRiemann.get_boundary_state] raises when a partial
    density is negative somewhere, and otherwise returns, at every point,
    the interior state with its momentum reversed and its energy
    rebuilt. *)
Theorem IsothermalWallRiemann_boundary_state (physics : Physics R) (Twall : R)
  (UqI : BC.loc) (normals : BC.Arr) (h : BC.Heap) :
  let uI := nth UqI h [] in
  let srho := fst (fst (get_state_slices physics)) in
  let result := BC.IsothermalWallRiemann_get_boundary_state physics Twall UqI normals h in
  (somewhere (Exists (fun x => x < 0)) (bmap (get_slice srho) uI) ->
     fst result = Raise (NotPhysicalError EmptyString))
  /\ (everywhere (Forall (fun x => 0 <= x)) (bmap (get_slice srho) uI) ->
      everywhere (state_slices_cover physics) uI ->
      exists UqB, fst result = Ok UqB /\
        BForall2 (isothermal_mirror_state physics Twall) (nth UqB (snd result) []) uI).
Proof.
  cbv zeta. rewrite IsothermalWallRiemann_run. cbv zeta.
  pose proof (fun X => bany_true _ _ X existsb_lt0) as HT1.
  pose proof (fun X => bany_false _ _ X existsb_lt0_false) as HF1.
  unfold isothermal_mirror_state, state_slices_cover, state_layout.
  destruct (get_state_slices physics) as [[srho srhou] srhoE]. cbn [fst snd]. split.
  - intro H. apply HT1 in H. rewrite H. reflexivity.
  - intros H HL. apply HF1 in H. rewrite H. exists (length h). cbn [fst snd].
    split; [reflexivity|]. rewrite nth_app_length.
    refine (BForall2_bmap_l _ _ _ _ _ HL).
    intros u (L1 & L2 & L3 & L4 & L5 & L6). cbv zeta.
    assert (Hv : length (vneg (get_slice srhou u)) = (stop srhou - start srhou)%nat)
      by (unfold vneg; rewrite length_map; apply length_get_slice; lia).
    assert (Hl : length (set_slice srhou u (vneg (get_slice srhou u))) = length u)
      by (apply length_set_slice; auto; lia).
    repeat split.
    + rewrite get_fill_slice_other by lia. apply get_set_slice; auto; lia.
    + rewrite get_fill_slice_other by lia. apply get_set_slice_other; auto; lia.
    + apply get_fill_slice_same; lia.
    + rewrite length_fill_slice. exact Hl.
Qed.

(** ** Time steppers: what a step leaves behind *)

(** Arrays of reals with one shape. *)
Definition same_shape (a b : Batch (Vec R)) : Prop :=
  Forall2 (Forall2 (fun u v : Vec R => length u = length v)) a b.

Lemma vscale_0_same_length (u v : Vec R) :
  length u = length v -> vscale 0 u = vscale 0 v.
Proof.
  revert v. induction u as [|x u IH]; intros [|y v] L; try discriminate; [reflexivity|].
  unfold vscale in *. cbn [map]. rsimp. rewrite (IH v) by (simpl in L; lia).
  f_equal. ring.
Qed.

Lemma ascale_0_same_shape (a b : Batch (Vec R)) :
  same_shape a b -> Stepper.ascale 0 a = Stepper.ascale 0 b.
Proof.
  intro H. unfold Stepper.ascale, bmap.
  induction H as [|r s a b Hrs _ IH]; [reflexivity|]. cbn [map]. rewrite IH. f_equal.
  induction Hrs as [|u v r s Huv _ IHr]; [reflexivity|]. cbn [map].
  rewrite IHr, (vscale_0_same_length u v Huv). reflexivity.
Qed.

Lemma low_storage_first_stage (ops : Stepper.Ops) (t b : R) (r : Stepper.Arr) (d : R)
  (dU1 dU2 : Stepper.Arr) (solver : Stepper.Solver) :
  same_shape dU1 dU2 ->
  Stepper.low_storage_stage ops t 0 b
    (r, {| Stepper.R := r; Stepper.dt := d; Stepper.dU := dU1 |}, solver)
  = Stepper.low_storage_stage ops t 0 b
      (r, {| Stepper.R := r; Stepper.dt := d; Stepper.dU := dU2 |}, solver).
Proof.
  intro H. unfold Stepper.low_storage_stage. cbn [Stepper.dU Stepper.dt Stepper.R].
  rewrite (ascale_0_same_shape dU1 dU2 H). reflexivity.
Qed.

(** Property X18.
    [LSRK4] and [SSPRK3] keep their increment [self.dU] from one step to
    the next, but the first stage multiplies it by zero: over the reals a
    step does not depend on the values left in it, only on its shape. *)
Theorem low_storage_step_forgets_dU (ops : Stepper.Ops) (r : Stepper.Arr) (d : R)
  (dU1 dU2 : Stepper.Arr) (solver : Stepper.Solver) :
  same_shape dU1 dU2 ->
  let self1 := {| Stepper.R := r; Stepper.dt := d; Stepper.dU := dU1 |} in
  let self2 := {| Stepper.R := r; Stepper.dt := d; Stepper.dU := dU2 |} in
  Stepper.LSRK4_take_time_step ops self1 solver
  = Stepper.LSRK4_take_time_step ops self2 solver
  /\ Stepper.SSPRK3_take_time_step ops self1 solver
     = Stepper.SSPRK3_take_time_step ops self2 solver.
Proof.
  intro H. cbv zeta.
  unfold Stepper.LSRK4_take_time_step, Stepper.SSPRK3_take_time_step.
  cbn [Stepper.nstages seq fold_left Stepper.R Stepper.dt].
  change (nth 0 Stepper.rk4a s0) with 0. change (nth 0 Stepper.ssprk3a s0) with 0.
  split; rewrite (low_storage_first_stage ops _ _ r d dU1 dU2 solver H); reflexivity.
Qed.

Lemma low_storage_stage_time (ops : Stepper.Ops (T:=R)) (t a b : R)
  (st : Stepper.Arr * Stepper.StepperBase * Stepper.Solver) :
  Stepper.time (snd (Stepper.low_storage_stage ops t a b st)) = t.
Proof. destruct st as [[r s] sv]. reflexivity. Qed.

(** Property X19.
    Where each explicit scheme leaves [solver.time]: [FE] and [ADER] do
    not touch it, [RK4] and [SSPRK3] leave it a full step later, and
    [LSRK4] at the time of its last stage, short of a full step. *)
Theorem take_time_step_time (ops : Stepper.Ops) (sch : Stepper.StepperType)
  (self : Stepper.StepperBase) (solver : Stepper.Solver) :
  Stepper.time (snd (Stepper.take_time_step ops sch self solver))
  = match sch with
    | Stepper.FE | Stepper.ADER => Stepper.time solver
    | Stepper.RK4 | Stepper.SSPRK3 => Stepper.time solver + Stepper.dt self
    | Stepper.LSRK4 =>
        Stepper.time solver + 2802321613138 / 2924317926251 * Stepper.dt self
    end.
Proof.
  destruct sch; unfold Stepper.take_time_step.
  - reflexivity.
  - unfold Stepper.RK4_take_time_step.
    destruct (Stepper.call_get_residual ops _ _ _ solver) as [R1 sa] eqn:E1.
    apply (f_equal (fun x => Stepper.time (snd x))) in E1. cbn [fst snd] in E1.
    destruct (Stepper.limited_Utemp ops _ sa) as [U1 sb] eqn:E2.
    apply (f_equal (fun x => Stepper.time (snd x))) in E2. cbn [fst snd] in E2.
    destruct (Stepper.call_get_residual ops _ _ _ (Stepper.set_time _ sb)) as [R2 sc] eqn:E3.
    apply (f_equal (fun x => Stepper.time (snd x))) in E3. cbn [fst snd] in E3.
    destruct (Stepper.limited_Utemp ops _ sc) as [U2 sd] eqn:E4.
    apply (f_equal (fun x => Stepper.time (snd x))) in E4. cbn [fst snd] in E4.
    destruct (Stepper.call_get_residual ops _ _ _ sd) as [R3 se] eqn:E5.
    apply (f_equal (fun x => Stepper.time (snd x))) in E5. cbn [fst snd] in E5.
    destruct (Stepper.limited_Utemp ops _ se) as [U3 sf] eqn:E6.
    apply (f_equal (fun x => Stepper.time (snd x))) in E6. cbn [fst snd] in E6.
    destruct (Stepper.call_get_residual ops _ _ _ (Stepper.set_time _ sf)) as [R4 sg] eqn:E7.
    apply (f_equal (fun x => Stepper.time (snd x))) in E7. cbn [fst snd] in E7.
    cbn [fst snd]. cbn [Stepper.limit_U Stepper.set_U Stepper.log Stepper.time].
    cbn [Stepper.call_get_residual Stepper.limited_Utemp Stepper.set_time Stepper.log
         Stepper.time snd] in E1, E2, E3, E4, E5, E6, E7.
    rsimp. rewrite <- E7, <- E6, <- E5, <- E4, <- E3, <- E2, <- E1. field.
  - unfold Stepper.LSRK4_take_time_step.
    cbn [Stepper.nstages seq fold_left]. rewrite low_storage_stage_time.
    cbn [nth Stepper.rk4c]. reflexivity.
  - unfold Stepper.SSPRK3_take_time_step.
    cbn [Stepper.nstages seq fold_left]. rewrite low_storage_stage_time.
    reflexivity.
  - reflexivity.
Qed.

Section SplittingExit.
Context {T : Type} {ST : Scalar T}.

Lemma implicit_take_time_step_dt (ops : Stepper.Ops (T:=T))
  (i : Stepper.StepperBase (T:=T)) (s : Stepper.Solver (T:=T)) :
  Stepper.dt (snd (fst (Stepper.implicit_take_time_step ops i s))) = Stepper.dt i.
Proof.
  unfold Stepper.implicit_take_time_step. cbv zeta.
  destruct (Stepper.ode_take_time_step _ _ _ _ _ _) as [U2 R2]. reflexivity.
Qed.

(** Property X20.
    Both splitting schemes overwrite the two switches of [solver.params]
    and do not put them back: whatever they were on entry, a step leaves
    [SourceSwitch] off and [ConvFluxSwitch] on.  The sub-steppers are left
    with the step sizes [dt/2] (explicit) and [dt] (implicit). *)
Theorem splitting_leaves_switches (ops : Stepper.Ops (T:=T))
  (self : Stepper.Splitting (T:=T)) (solver : Stepper.Solver (T:=T)) :
  let strang := Stepper.Strang_take_time_step ops self solver in
  let simpler := Stepper.Simpler_take_time_step ops self solver in
  let half := sdiv (Stepper.dt (Stepper.base self)) s2 in
  Stepper.params (snd strang) = switches false true
  /\ Stepper.params (snd simpler) = switches false true
  /\ Stepper.balance_const (snd strang) = Stepper.balance_const solver
  /\ Stepper.dt (Stepper.explicit (snd (fst strang))) = half
  /\ Stepper.dt (Stepper.implicit (snd (fst strang))) = Stepper.dt (Stepper.base self)
  /\ Stepper.dt (Stepper.explicit (snd (fst simpler))) = half
  /\ Stepper.dt (Stepper.implicit (snd (fst simpler))) = Stepper.dt (Stepper.base self).
Proof.
  cbv zeta. unfold Stepper.Strang_take_time_step, Stepper.Simpler_take_time_step,
    Stepper.call_get_residual. cbv zeta.
  set (half := sdiv (Stepper.dt (Stepper.base self)) s2).
  (* Strang *)
  destruct (Stepper.explicit_take_time_step ops (Stepper.scheme self)
              (Stepper.set_dt half (Stepper.explicit self))
              (Stepper.set_SourceSwitch false solver)) as [[R1 e1] sa] eqn:E1.
  pose proof (explicit_take_time_step_trace ops (Stepper.scheme self)
                (Stepper.set_dt half (Stepper.explicit self))
                (Stepper.set_SourceSwitch false solver)) as (_ & Ha2 & Ha3 & Ha4).
  rewrite E1 in Ha2, Ha3, Ha4. cbn [fst snd] in Ha2, Ha3, Ha4.
  set (s2' := Stepper.set_ConvFluxSwitch false (Stepper.set_SourceSwitch true sa)).
  pose proof (implicit_take_time_step_trace ops
                (Stepper.set_dt (Stepper.dt (Stepper.base self)) (Stepper.implicit self))
                s2') as (_ & Hb2 & Hb3).
  pose proof (implicit_take_time_step_dt ops
                (Stepper.set_dt (Stepper.dt (Stepper.base self)) (Stepper.implicit self))
                s2') as Hb4.
  destruct (Stepper.implicit_take_time_step ops _ s2') as [[R2 i1] sb].
  cbn [fst snd] in Hb2, Hb3, Hb4.
  set (s3' := Stepper.set_ConvFluxSwitch true (Stepper.set_SourceSwitch false sb)).
  pose proof (explicit_take_time_step_trace ops (Stepper.scheme self) e1 s3')
    as (_ & Hc2 & Hc3 & Hc4).
  destruct (Stepper.explicit_take_time_step ops (Stepper.scheme self) e1 s3')
    as [[R3 e3] sc].
  cbn [fst snd] in Hc2, Hc3, Hc4.
  (* Simpler *)
  match goal with
  | |- context [Stepper.implicit_take_time_step ops ?i ?s] =>
      pose proof (implicit_take_time_step_trace ops i s) as (_ & Hd2 & Hd3);
      pose proof (implicit_take_time_step_dt ops i s) as Hd4;
      destruct (Stepper.implicit_take_time_step ops i s) as [[R2' i1'] sb']
  end.
  cbn [fst snd] in Hd2, Hd3, Hd4.
  match goal with
  | |- context [Stepper.explicit_take_time_step ops ?sch ?e ?s] =>
      pose proof (explicit_take_time_step_trace ops sch e s) as (_ & He2 & He3 & He4);
      destruct (Stepper.explicit_take_time_step ops sch e s) as [[R3' e3'] sc']
  end.
  cbn [fst snd] in He2, He3, He4.
  cbn [fst snd Stepper.explicit Stepper.implicit].
  repeat split.
  - rewrite Hc2. reflexivity.
  - rewrite He2. reflexivity.
  - rewrite Hc3. unfold s3'. cbn. rewrite Hb3. unfold s2'. cbn. rewrite Ha3. reflexivity.
  - rewrite Hc4, Ha4. reflexivity.
  - rewrite Hb4. reflexivity.
  - rewrite He4. reflexivity.
  - rewrite Hd4. reflexivity.
Qed.

End SplittingExit.

Lemma rk4_weights_vec (d : Vec R) :
  vscale (1 / 6) (vadd (vadd (vadd d (vscale 2 d)) (vscale 2 d)) d) = d.
Proof.
  induction d as [|x d IH]; [reflexivity|].
  unfold vscale, vadd in *. cbn [map map2]. rewrite IH. f_equal. rsimp. field.
Qed.

Lemma rk4_weights (d : Batch (Vec R)) :
  Stepper.ascale (1 / 6)
    (Stepper.aadd (Stepper.aadd (Stepper.aadd d (Stepper.ascale 2 d)) (Stepper.ascale 2 d)) d)
  = d.
Proof.
  unfold Stepper.ascale, Stepper.aadd, bmap, bmap2.
  induction d as [|row d IH]; [reflexivity|]. cbn [map map2]. rewrite IH. f_equal.
  clear IH. induction row as [|v row IH]; [reflexivity|]. cbn [map map2].
  rewrite IH, rk4_weights_vec. reflexivity.
Qed.

(** Property X21.
    The weights of [RK4] add up to one: where the residual does not depend
    on the state or on the time, an [RK4] step leaves the solution that a
    forward-Euler step leaves. *)
Theorem RK4_constant_residual (ops : Stepper.Ops) (self : Stepper.StepperBase)
  (solver : Stepper.Solver) (Rc : Batch (Vec R)) :
  (forall p t bc x r, Stepper.get_residual ops p t bc x r = Rc) ->
  Stepper.U (snd (Stepper.RK4_take_time_step ops self solver))
  = Stepper.apply_limiter ops
      (Stepper.aadd (Stepper.U solver)
         (Stepper.mult_inv_mass_matrix ops (Stepper.dt self) Rc))
  /\ Stepper.U (snd (Stepper.RK4_take_time_step ops self solver))
     = Stepper.U (snd (Stepper.FE_take_time_step ops self solver)).
Proof.
  intro Hres.
  assert (HFE : Stepper.U (snd (Stepper.FE_take_time_step ops self solver))
                = Stepper.apply_limiter ops
                    (Stepper.aadd (Stepper.U solver)
                       (Stepper.mult_inv_mass_matrix ops (Stepper.dt self) Rc))).
  { unfold Stepper.FE_take_time_step, Stepper.call_get_residual. cbn. rewrite Hres.
    reflexivity. }
  rewrite HFE.
  cut (Stepper.U (snd (Stepper.RK4_take_time_step ops self solver))
       = Stepper.apply_limiter ops
           (Stepper.aadd (Stepper.U solver)
              (Stepper.mult_inv_mass_matrix ops (Stepper.dt self) Rc)));
    [intro H; split; exact H|].
  unfold Stepper.RK4_take_time_step.
  destruct (Stepper.call_get_residual ops _ _ _ solver) as [R1 sa] eqn:E1.
  apply (f_equal fst) in E1. cbn [fst Stepper.call_get_residual] in E1.
  destruct (Stepper.limited_Utemp ops _ sa) as [U1 sb].
  destruct (Stepper.call_get_residual ops _ _ _ (Stepper.set_time _ sb)) as [R2 sc] eqn:E3.
  apply (f_equal fst) in E3. cbn [fst Stepper.call_get_residual] in E3.
  destruct (Stepper.limited_Utemp ops _ sc) as [U2 sd].
  destruct (Stepper.call_get_residual ops _ _ _ sd) as [R3 se] eqn:E5.
  apply (f_equal fst) in E5. cbn [fst Stepper.call_get_residual] in E5.
  destruct (Stepper.limited_Utemp ops _ se) as [U3 sf].
  destruct (Stepper.call_get_residual ops _ _ _ (Stepper.set_time _ sf)) as [R4 sg] eqn:E7.
  apply (f_equal fst) in E7. cbn [fst Stepper.call_get_residual] in E7.
  rewrite Hres in E1, E3, E5, E7. subst R1 R2 R3 R4.
  cbn [fst snd Stepper.limit_U Stepper.set_U Stepper.log Stepper.U].
  rsimp. change (IZR 6) with 6. rewrite rk4_weights. reflexivity.
Qed.

Definition constant_ops (Rc : Batch (Vec R)) : Stepper.Ops (T:=R) := {|
  Stepper.get_residual := fun _ _ _ _ _ => Rc;
  Stepper.mult_inv_mass_matrix := fun dt r => Stepper.ascale dt r;
  Stepper.apply_limiter := fun u => u;
  Stepper.calculate_predictor_step := fun _ w _ => w;
  Stepper.ode_take_time_step := fun _ _ _ _ u => (u, u)
|}.

Definition stepper_R (d : R) : Stepper.StepperBase (T:=R) :=
  {| Stepper.R := [[ [0] ]]; Stepper.dt := d; Stepper.dU := [[ [0] ]] |}.

Definition solver_R : Stepper.Solver (T:=R) :=
  {| Stepper.U := [[ [1] ]]; Stepper.U_pred := [[ [1] ]]; Stepper.time := 0;
     Stepper.params := switches true true; Stepper.balance_const := None;
     Stepper.trace := [] |}.

Lemma RK4_constant_residual_witness :
  Stepper.U (snd (Stepper.RK4_take_time_step (constant_ops [[ [3] ]]) (stepper_R 2)
                    solver_R))
  = Stepper.apply_limiter (constant_ops [[ [3] ]])
      (Stepper.aadd (Stepper.U solver_R)
         (Stepper.mult_inv_mass_matrix (constant_ops [[ [3] ]])
            (Stepper.dt (stepper_R 2)) [[ [3] ]]))
  /\ Stepper.U (snd (Stepper.RK4_take_time_step (constant_ops [[ [3] ]]) (stepper_R 2)
                       solver_R))
     = Stepper.U (snd (Stepper.FE_take_time_step (constant_ops [[ [3] ]]) (stepper_R 2)
                         solver_R)).
Proof.
  apply (RK4_constant_residual (constant_ops [[ [3] ]]) (stepper_R 2) solver_R [[ [3] ]]).
  reflexivity.
Defined.

Lemma low_storage_step_forgets_dU_witness :
  Stepper.LSRK4_take_time_step (constant_ops [[ [3] ]])
    {| Stepper.R := [[ [0] ]]; Stepper.dt := 2; Stepper.dU := [[ [5] ]] |} solver_R
  = Stepper.LSRK4_take_time_step (constant_ops [[ [3] ]])
      {| Stepper.R := [[ [0] ]]; Stepper.dt := 2; Stepper.dU := [[ [7] ]] |} solver_R
  /\ Stepper.SSPRK3_take_time_step (constant_ops [[ [3] ]])
       {| Stepper.R := [[ [0] ]]; Stepper.dt := 2; Stepper.dU := [[ [5] ]] |} solver_R
     = Stepper.SSPRK3_take_time_step (constant_ops [[ [3] ]])
         {| Stepper.R := [[ [0] ]]; Stepper.dt := 2; Stepper.dU := [[ [7] ]] |} solver_R.
Proof.
  apply (low_storage_step_forgets_dU (constant_ops [[ [3] ]]) [[ [0] ]] 2
           [[ [5] ]] [[ [7] ]] solver_R).
  repeat constructor.
Defined.

(** ** The moving shock is a shock *)

Lemma list3_eq (a b c a' b' c' : R) :
  a = a' -> b = b' -> c = c' -> [a; b; c] = [a'; b'; c'].
Proof. intros; subst; reflexivity. Qed.

(** Property X22.
    The two states of [MovingShock], one space dimension: the state ahead
    of the shock is the gas at rest, and the jump of the Euler flux across
    the shock is the shock speed times the jump of the state (the
    Rankine-Hugoniot condition), for every Mach number and [gamma > 1]. *)
Theorem MovingShock_Rankine_Hugoniot (gamma Rgas M xshock0 t xl xr : R) :
  1 < gamma -> 0 < M ->
  xl <= Fcn.xshock gamma M xshock0 t -> Fcn.xshock gamma M xshock0 t < xr ->
  let physics := Euler gamma Rgas 1 in
  let UL := Fcn.MovingShock_point physics gamma 3 M xshock0 t xl in
  let UR := Fcn.MovingShock_point physics gamma 3 M xshock0 t xr in
  let F := fun U => project_flux (get_conv_flux_interior physics U) [1] in
  UR = [1; 0; 100000 / (gamma - 1)]
  /\ vsub (F UL) (F UR) = vscale (Fcn.us gamma M) (vsub UL UR).
Proof.
  intros Hg HM Hl Hr. cbv zeta.
  unfold Fcn.MovingShock_point. cbn [get_state_slices Euler]. rsimp.
  rewrite (proj2 (Rleb_true _ _) Hl), (proj2 (Rltb_false _ _) Hl).
  rewrite (proj2 (Rltb_true _ _) Hr), (proj2 (Rleb_false _ _) Hr).
  clear Hl Hr.
  unfold Fcn.us, Fcn.rho2, Fcn.p2, Fcn.u2, Fcn.rho1, Fcn.p1, Fcn.u1, Fcn.sq. cbv zeta.
  rsimp. cbn [sofZ Scalar_R].
  assert (Ha2 : 0 <= gamma * 100000 / 1) by nra.
  pose proof (sqrt_sqrt _ Ha2) as Ha.
  assert (Hpos : 0 < sqrt (gamma * 100000 / 1)) by (apply sqrt_lt_R0; nra).
  set (a := sqrt (gamma * 100000 / 1)) in *.
  assert (Hp : 100000 = a * a / gamma) by (rewrite Ha; field; lra).
  cbn [repeat fill_slice euler_srho euler_srhou euler_srhoE start stop Nat.add Nat.eqb
       andb negb pred].
  split.
  - replace (1 * 0) with 0 by ring.
    replace (100000 / (gamma - 1) + 1 / 2 * 1 * 0 * 0) with (100000 / (gamma - 1))
      by (field; lra).
    reflexivity.
  - eval_euler. rewrite Hp.
    assert (Hd : (gamma - 1) * (M * M) + 2 <> 0) by nra.
    assert (HM2 : M * M <> 0) by nra.
    unfold Fcn.rho2, Fcn.rho1, Fcn.sq. rsimp.
    apply list3_eq; field; repeat split; lra.
Qed.

Lemma MovingShock_Rankine_Hugoniot_witness :
  let physics := Euler (7 / 5) 287 1 in
  let UL := Fcn.MovingShock_point physics (7 / 5) 3 5 (1 / 5) 0 0 in
  let UR := Fcn.MovingShock_point physics (7 / 5) 3 5 (1 / 5) 0 1 in
  let F := fun U => project_flux (get_conv_flux_interior physics U) [1] in
  UR = [1; 0; 100000 / (7 / 5 - 1)]
  /\ vsub (F UL) (F UR) = vscale (Fcn.us (7 / 5) 5) (vsub UL UR).
Proof.
  apply (MovingShock_Rankine_Hugoniot (7 / 5) 287 5 (1 / 5) 0 0 1);
    unfold Fcn.xshock; rsimp; lra.
Defined.

(** ** Smooth initial states are physical *)

Lemma list2_eq (a b a' b' : R) : a = a' -> b = b' -> [a; b] = [a'; b'].
Proof. intros; subst; reflexivity. Qed.

(** Property X23.
    [DensityWave], one space dimension: at every point the density lies
    between 0.9 and 1.1, the velocity is one and the pressure is the
    attribute [p]. *)
Theorem DensityWave_state (gamma Rgas p x : R) :
  1 < gamma ->
  let physics := Euler gamma Rgas 1 in
  let U := Fcn.DensityWave_point physics gamma 3 sin PI p x in
  9 / 10 <= thermo.rho (set_thermo_state physics U) <= 11 / 10
  /\ velocity physics U = [1]
  /\ thermo.p (set_thermo_state physics U) = p.
Proof.
  intro Hg. cbv zeta. unfold Fcn.DensityWave_point. cbn [get_state_slices Euler].
  cbv zeta. unfold Fcn.sq. rsimp. cbn [sofZ Scalar_R].
  pose proof (SIN_bound (2 * PI * x)) as [Hs1 Hs2].
  set (s := sin (2 * PI * x)) in *.
  cbn [repeat fill_slice euler_srho euler_srhou euler_srhoE start stop Nat.add Nat.eqb
       andb negb pred].
  eval_euler. repeat split.
  - lra.
  - lra.
  - f_equal. field. lra.
  - field. lra.
Qed.

Lemma DensityWave_state_witness :
  let physics := Euler (7 / 5) 287 1 in
  let U := Fcn.DensityWave_point physics (7 / 5) 3 sin PI 1 0 in
  9 / 10 <= thermo.rho (set_thermo_state physics U) <= 11 / 10
  /\ velocity physics U = [1]
  /\ thermo.p (set_thermo_state physics U) = 1.
Proof. apply (DensityWave_state (7 / 5) 287 1 0). lra. Defined.

Lemma bany_short (x : Batch (Vec R)) :
  bany (fun p => Nat.ltb (length p) 2) x = true
  <-> somewhere (fun p => (length p < 2)%nat) x.
Proof. apply bany_true. intro p. apply Nat.ltb_lt. Qed.

Lemma bany_not_short (x : Batch (Vec R)) :
  bany (fun p => Nat.ltb (length p) 2) x = false
  <-> everywhere (fun p => (2 <= length p)%nat) x.
Proof. apply bany_false. intro p. apply Nat.ltb_ge. Qed.

(** What [TaylorGreenVortex] sets at the point [x]. *)
Definition taylor_green_state (physics : Physics R) (U x : Vec R) : Prop :=
  let x0 := nth 0 x 0 in
  let x1 := nth 1 x 0 in
  thermo.rho (set_thermo_state physics U) = 1
  /\ velocity physics U
     = [sin (PI * x0) * cos (PI * x1); - cos (PI * x0) * sin (PI * x1)]
  /\ thermo.p (set_thermo_state physics U)
     = 1 / 4 * (cos (2 * PI * x0) + cos (2 * PI * x1)) + 1
  /\ 1 / 2 <= thermo.p (set_thermo_state physics U).

Lemma taylor_green_point (gamma Rgas : R) (x : Vec R) :
  1 < gamma ->
  taylor_green_state (Euler gamma Rgas 2)
    (Fcn.TaylorGreenVortex_point (Euler gamma Rgas 2) gamma 4 sin cos PI x) x.
Proof.
  intro Hg. unfold taylor_green_state, Fcn.TaylorGreenVortex_point.
  cbn [get_state_slices Euler]. cbv zeta. unfold Fcn.sq. rsimp. cbn [sofZ Scalar_R].
  generalize (nth 0 x 0) (nth 1 x 0). intros a' b'.
  pose proof (COS_bound (2 * PI * a')) as [Hx1 Hx2].
  pose proof (COS_bound (2 * PI * b')) as [Hy1 Hy2].
  set (cx := cos (2 * PI * a')) in *. set (cy := cos (2 * PI * b')) in *.
  set (u := sin (PI * a') * cos (PI * b')). set (v := - cos (PI * a') * sin (PI * b')).
  cbn [repeat fill_slice set_slice firstn skipn app euler_srho euler_srhou euler_srhoE
       start stop Nat.add Nat.eqb andb negb pred].
  eval_euler.
  assert (Hp : (gamma - 1) *
               (1 * ((1 / 4 * (cx + cy) + 1) / (1 * (gamma - 1)) +
                     1 / 2 * (u * u + v * v)) -
                1 / 2 * (0 + 1 * u * (1 * u) + 1 * v * (1 * v)) / 1)
               = 1 / 4 * (cx + cy) + 1) by (field; lra).
  repeat split.
  - apply list2_eq; field.
  - exact Hp.
  - rewrite Hp. lra.
Qed.

(** Property X24.
    [TaylorGreenVortex.get_state]: points of fewer than two coordinates
    raise [IndexError]; for points of two coordinates a one-dimensional
    physics raises [ValueError], and in two space dimensions the state
    returned has density one, the velocity of the vortex field and the
    pressure [1 + (cos 2 pi x + cos 2 pi y)/4], never below one half. *)
Theorem TaylorGreenVortex_state (gamma Rgas t : R) (x : Batch (Vec R)) :
  1 < gamma ->
  let physics := Euler gamma Rgas 2 in
  let result := Fcn.TaylorGreenVortex_get_state physics gamma 4 sin cos PI x t in
  (somewhere (fun p => (length p < 2)%nat) x -> result = Fcn.IndexError)
  /\ (everywhere (fun p => (2 <= length p)%nat) x ->
      Fcn.TaylorGreenVortex_get_state (Euler gamma Rgas 1) gamma 3 sin cos PI x t
      = Fcn.ValueError)
  /\ (everywhere (fun p => (2 <= length p)%nat) x ->
      exists Uq, result = Fcn.Returns Uq /\ BForall2 (taylor_green_state physics) Uq x).
Proof.
  intro Hg. cbv zeta. unfold Fcn.TaylorGreenVortex_get_state.
  cbn [get_state_slices Euler]. repeat split.
  - intro H. apply bany_short in H. rewrite H. reflexivity.
  - intro H. apply bany_not_short in H. rewrite H. reflexivity.
  - intro H. pose proof H as Hb. apply bany_not_short in Hb. rewrite Hb.
    eexists. split; [reflexivity|].
    refine (BForall2_bmap_l _ _ _ _ _ H). intros p _. apply taylor_green_point, Hg.
Qed.

Lemma TaylorGreenVortex_state_witness :
  let physics := Euler (7 / 5) 287 2 in
  exists Uq,
    Fcn.TaylorGreenVortex_get_state physics (7 / 5) 4 sin cos PI [[ [0; 0] ]] 0
    = Fcn.Returns Uq
    /\ BForall2 (taylor_green_state physics) Uq [[ [0; 0] ]].
Proof.
  cbv zeta.
  destruct (TaylorGreenVortex_state (7 / 5) 287 0 [[ [0; 0] ]]) as (_ & _ & H); [lra|].
  apply H. repeat constructor.
Defined.

(** ** The isentropic vortex without a vortex *)

Lemma list4_eq (a b c d a' b' c' d' : R) :
  a = a' -> b = b' -> c = c' -> d = d' -> [a; b; c; d] = [a'; b'; c'; d'].
Proof. intros; subst; reflexivity. Qed.

Lemma Rpower_base_flow (rhob pb gamma : R) :
  0 < rhob -> 0 < pb -> 1 < gamma ->
  Rpower (pb / (rhob * 1) / (pb / Rpower rhob gamma)) (1 / (gamma - 1)) = rhob.
Proof.
  intros Hr Hp Hg.
  assert (Hpos : 0 < Rpower rhob gamma) by apply exp_pos.
  replace (pb / (rhob * 1) / (pb / Rpower rhob gamma))
    with (Rpower rhob gamma * / rhob) by (field; lra).
  rewrite <- (Rpower_1 rhob Hr) at 2. rewrite <- Rpower_Ropp, <- Rpower_plus.
  rewrite Rpower_mult.
  replace ((gamma + - (1)) * (1 / (gamma - 1))) with 1 by (field; lra).
  apply Rpower_1, Hr.
Qed.

(** Property X25.
    [IsentropicVortex.get_state] raises [ValueError] unless the gas
    constant is one, whatever else is wrong; with a gas constant of one it
    raises [IndexError] for points of fewer than two coordinates or a
    state of fewer than four entries; and with no vortex strength it
    returns the base flow at every point and every time. *)
Theorem IsentropicVortex_base_flow (gamma Rg rhob ub vb pb vs t : R) (ns : nat)
  (x : Batch (Vec R)) :
  (Rg <> 1 ->
   Fcn.IsentropicVortex_get_state gamma ns exp Rpower PI Rg rhob ub vb pb vs x t
   = Fcn.ValueError)
  /\ (somewhere (fun p => (length p < 2)%nat) x \/ (ns < 4)%nat ->
      Fcn.IsentropicVortex_get_state gamma ns exp Rpower PI 1 rhob ub vb pb vs x t
      = Fcn.IndexError)
  /\ (0 < rhob -> 0 < pb -> 1 < gamma ->
      everywhere (fun p => (2 <= length p)%nat) x ->
      Fcn.IsentropicVortex_get_state gamma 4 exp Rpower PI 1 rhob ub vb pb 0 x t
      = Fcn.Returns
          (bmap (fun _ => [rhob; rhob * ub; rhob * vb;
                           pb / (gamma - 1) + 1 / 2 * rhob * (ub * ub + vb * vb)]) x)).
Proof.
  unfold Fcn.IsentropicVortex_get_state. rsimp. repeat split.
  - intro H. destruct (Rleb Rg 1) eqn:E1; [|reflexivity].
    destruct (Rleb 1 Rg) eqn:E2; [|reflexivity].
    apply Rleb_true in E1. apply Rleb_true in E2. lra.
  - intro H. rewrite (proj2 (Rleb_true 1 1)) by lra. cbn [andb negb].
    destruct H as [H | H].
    + apply bany_short in H. rewrite H. reflexivity.
    + apply Nat.ltb_lt in H. rewrite H, orb_true_r. reflexivity.
  - intros Hr Hp Hg Hx. apply bany_not_short in Hx.
    rewrite (proj2 (Rleb_true 1 1)) by lra. rewrite Hx. cbn [andb negb orb Nat.ltb Nat.leb].
    f_equal.
    unfold bmap. apply map_ext. intro row. apply map_ext. intro pt.
    unfold Fcn.IsentropicVortex_point. cbv zeta. unfold Fcn.sq. rsimp.
    cbn [sofZ Scalar_R repeat upd].
    replace (pb / (rhob * 1) + - (gamma - 1) * (0 * 0) / (8 * gamma * (PI * PI)) *
               exp (1 - sqrt ((nth 0 pt 0 - ub * t) * (nth 0 pt 0 - ub * t) +
                              (nth 1 pt 0 - vb * t) * (nth 1 pt 0 - vb * t)) *
                        sqrt ((nth 0 pt 0 - ub * t) * (nth 0 pt 0 - ub * t) +
                              (nth 1 pt 0 - vb * t) * (nth 1 pt 0 - vb * t))))
      with (pb / (rhob * 1)) by (unfold Rdiv; ring).
    rewrite Rpower_base_flow by assumption.
    generalize (exp (1 / 2 *
                (1 - sqrt ((nth 0 pt 0 - ub * t) * (nth 0 pt 0 - ub * t) +
                           (nth 1 pt 0 - vb * t) * (nth 1 pt 0 - vb * t)) *
                     sqrt ((nth 0 pt 0 - ub * t) * (nth 0 pt 0 - ub * t) +
                           (nth 1 pt 0 - vb * t) * (nth 1 pt 0 - vb * t))))).
    intro e. pose proof PI_neq0.
    apply list4_eq; try reflexivity; field; repeat split; lra.
Qed.

Lemma IsentropicVortex_base_flow_witness :
  Fcn.IsentropicVortex_get_state (7 / 5) 4 exp Rpower PI 1 1 1 1 1 0 [[ [0; 0] ]] 0
  = Fcn.Returns [[ [1; 1 * 1; 1 * 1; 1 / (7 / 5 - 1) + 1 / 2 * 1 * (1 * 1 + 1 * 1)] ]].
Proof.
  destruct (IsentropicVortex_base_flow (7 / 5) 1 1 1 1 1 0 0 4 [[ [0; 0] ]]) as (_ & _ & H).
  apply H; try lra. repeat constructor.
Defined.

(** ** The Jacobian of the friction source *)

Lemma derivable_pt_lim_eq (f g : R -> R) (x l l' : R) :
  (forall y, f y = g y) -> l = l' -> derivable_pt_lim g x l' -> derivable_pt_lim f x l.
Proof.
  intros Hfg Hl H. subst l'. unfold derivable_pt_lim in *. intros e He.
  destruct (H e He) as [d Hd]. exists d. intros h Hh1 Hh2. rewrite !Hfg. apply Hd; assumption.
Qed.

Lemma derivable_pt_lim_friction_rho (nu eps m rho : R) :
  eps + rho <> 0 ->
  derivable_pt_lim (fun x => nu * (m * m / (eps + x))) rho
    (- nu * (m / (eps + rho) * (m / (eps + rho)))).
Proof.
  intro H.
  apply (derivable_pt_lim_eq _ (fct_cte (nu * m * m) / (fct_cte eps + id))%F _ _
           ((0 * (fct_cte eps + id)%F rho - (0 + 1) * fct_cte (nu * m * m) rho)
            / Rsqr ((fct_cte eps + id)%F rho))).
  - intro y. unfold div_fct, plus_fct, fct_cte, id. unfold Rdiv. ring.
  - unfold plus_fct, fct_cte, id, Rsqr. field. exact H.
  - apply derivable_pt_lim_div.
    + apply derivable_pt_lim_const.
    + apply derivable_pt_lim_plus; [apply derivable_pt_lim_const | apply derivable_pt_lim_id].
    + unfold plus_fct, fct_cte, id. exact H.
Qed.

Lemma derivable_pt_lim_friction_m (nu eps m rho : R) :
  derivable_pt_lim (fun x => nu * (x * x / (eps + rho))) m (2 * nu * (m / (eps + rho))).
Proof.
  apply (derivable_pt_lim_eq _ (mult_real_fct (nu / (eps + rho)) (id * id)%F) _ _
           (nu / (eps + rho) * (1 * id m + id m * 1))).
  - intro y. unfold mult_real_fct, mult_fct, id. unfold Rdiv. ring.
  - unfold id, Rdiv. ring.
  - apply derivable_pt_lim_scal. apply derivable_pt_lim_mult; apply derivable_pt_lim_id.
Qed.

Lemma derivable_pt_lim_linear (nu m : R) : derivable_pt_lim (fun x => nu * x) m nu.
Proof.
  apply (derivable_pt_lim_eq _ (mult_real_fct nu id) _ _ (nu * 1)).
  - intro y. reflexivity.
  - ring.
  - apply derivable_pt_lim_scal, derivable_pt_lim_id.
Qed.

(** Property X26.
    One space dimension, indices [(0, 1, 2)]: the matrix that
    [StiffFriction.get_jacobian] returns is the Jacobian of
    [StiffFriction.get_source]: entry [(i, j)] is the derivative of the
    source of equation [i] with respect to entry [j] of the state. *)
Theorem StiffFriction_jacobian_is_derivative (nu eps rho m E : R) (i j : nat) :
  eps + rho <> 0 -> (i < 3)%nat -> (j < 3)%nat ->
  let Uq := [rho; m; E] in
  derivable_pt_lim
    (fun x => nth i (Source.StiffFriction_get_source nu eps 0 1 2 (upd j x Uq)) 0)
    (nth j Uq 0)
    (nth j (nth i (Source.StiffFriction_get_jacobian nu eps 0 1 2 Uq) []) 0).
Proof.
  intros He Hi Hj. cbv zeta.
  unfold Source.StiffFriction_get_source, Source.StiffFriction_get_jacobian, upd2.
  cbv zeta. rsimp.
  destruct i as [|[|[|i]]]; try lia; destruct j as [|[|[|j]]]; try lia;
    cbn [upd map nth length repeat nth_error];
    try apply derivable_pt_lim_const.
  - apply derivable_pt_lim_linear.
  - apply derivable_pt_lim_friction_rho, He.
  - apply derivable_pt_lim_friction_m.
Qed.

Lemma StiffFriction_jacobian_is_derivative_witness :
  derivable_pt_lim
    (fun x => nth 2 (Source.StiffFriction_get_source (-1) 0 0 1 2 (upd 0 x [1; 2; 3])) 0)
    (nth 0 [1; 2; 3] 0)
    (nth 0 (nth 2 (Source.StiffFriction_get_jacobian (-1) 0 0 1 2 [1; 2; 3]) []) 0).
Proof.
  apply (StiffFriction_jacobian_is_derivative (-1) 0 1 2 3 2 0); try lia. lra.
Defined.

(** ** Concrete runs *)

Lemma flux_scales_with_normal_witness :
  compute_flux FluxRoe1D (air 1) [[ [1; 1; 3] ]] [[ [4; 0; 10] ]]
    (bmap (vscale 3) [[ [2] ]])
  = match compute_flux FluxRoe1D (air 1) [[ [1; 1; 3] ]] [[ [4; 0; 10] ]] [[ [2] ]] with
    | Ok F => Ok (bmap (vscale 3) F)
    | Raise err => Raise err
    end.
Proof.
  apply (flux_scales_with_normal FluxRoe1D (air 1) 3 [[ [1; 1; 3] ]] [[ [4; 0; 10] ]]
           [[ [2] ]]).
  lra.
Defined.

(** A supersonic state: velocity 3, sound speed [sqrt (7/5)]. *)
Definition supersonic : Vec R := [1; 3; 7].

Lemma HLLC_wave_speeds_supersonic :
  let th := set_thermo_state (air 1) supersonic in
  HLLC.get_wave_speeds (thermo.rho th) (thermo.rho th) (thermo.c th) (thermo.c th)
    (thermo.p th) (thermo.p th)
    (dot (velocity (air 1) supersonic) (vdivs [1] (norm [1])))
    (dot (velocity (air 1) supersonic) (vdivs [1] (norm [1])))
    (thermo.gamma th) (thermo.gamma th)
  = (3 - sqrt (7 / 5), 3 + sqrt (7 / 5)).
Proof.
  cbv zeta. rewrite HLLC_wave_speeds_same.
  - rewrite (norm1_pos 1) by lra. unfold supersonic. eval_euler.
    replace (7 / 5 * ((7 / 5 - 1) * (7 - 1 / 2 * (0 + 3 * 3) / 1)) / 1) with (7 / 5)
      by field.
    replace (0 + 3 / 1 * (1 / 1)) with 3 by field. reflexivity.
  - unfold supersonic. eval_euler. lra.
  - unfold supersonic. eval_euler. apply sqrt_pos.
Qed.

Lemma HLLC_upwind_witness :
  HLLC.compute_flux_point (air 1) supersonic supersonic [1]
  = vscale (norm [1])
      (project_flux (get_conv_flux_interior (air 1) supersonic) (vdivs [1] (norm [1]))).
Proof.
  generalize (HLLC_upwind (air 1) supersonic supersonic [1]). cbv zeta.
  rewrite HLLC_wave_speeds_supersonic. intros [H _].
  pose proof sqrt_7_5_bounds. apply H; lra.
Defined.

Ltac eval_gas :=
  cbv [Temperature Densities Pressure set_state_from_rhoi_T set_state_from_Y_T_p
       euler_from_rhoi_T euler_from_Y_T_p air Euler];
  eval_euler.

Lemma state_slices_cover_still : state_slices_cover (air 1) still.
Proof.
  unfold state_slices_cover, state_layout, still. eval_euler. repeat split; lia.
Qed.

Lemma AdiabaticWall_boundary_state_witness :
  let result := BC.AdiabaticWall_get_boundary_state (air 1) 0%nat [[ [1] ]] [ [[still]] ] in
  exists UqB, fst result = Ok UqB /\
    BForall2 (adiabatic_wall_state (air 1)) (nth UqB (snd result) []) [[still]].
Proof.
  cbv zeta.
  destruct (AdiabaticWall_boundary_state (air 1) 0%nat [[ [1] ]] [ [[still]] ])
    as (_ & _ & H).
  apply H.
  - repeat constructor. cbn [nth]. unfold still. eval_gas. lra.
  - repeat constructor. cbn [nth]. unfold still. eval_gas.
    match goal with |- 0 < ?e => replace e with (1 / 287) by field end. lra.
  - repeat constructor; try exact state_slices_cover_still.
Defined.

Lemma isothermal_wall_input_still : isothermal_wall_input (air 1) still.
Proof.
  split; [exact state_slices_cover_still|]. unfold still. eval_euler. reflexivity.
Qed.

Lemma IsothermalWall_boundary_state_witness :
  let result :=
    BC.IsothermalWall_get_boundary_state (air 1) 300 2 0%nat [[ [1] ]] [ [[still]] ] in
  exists UqB, fst result = Ok UqB /\
    BForall2 (isothermal_wall_state (air 1) 300 2) (nth UqB (snd result) []) [[still]].
Proof.
  cbv zeta.
  destruct (IsothermalWall_boundary_state (air 1) 300 2 0%nat [[ [1] ]] [ [[still]] ])
    as (_ & H).
  apply H.
  - unfold isothermal_wall_good. cbn [get_state_slices air Euler].
    repeat constructor. cbn [nth]. unfold still. eval_gas. lra.
  - repeat constructor; try exact isothermal_wall_input_still.
Defined.

Lemma IsothermalWallRiemann_boundary_state_witness :
  let result :=
    BC.IsothermalWallRiemann_get_boundary_state (air 1) 300 0%nat [[ [1] ]] [ [[still]] ] in
  exists UqB, fst result = Ok UqB /\
    BForall2 (isothermal_mirror_state (air 1) 300) (nth UqB (snd result) []) [[still]].
Proof.
  cbv zeta.
  destruct (IsothermalWallRiemann_boundary_state (air 1) 300 0%nat [[ [1] ]] [ [[still]] ])
    as (_ & H).
  apply H.
  - cbn [get_state_slices air Euler fst snd].
    repeat constructor. cbn [nth]. unfold still. eval_gas. lra.
  - repeat constructor; try exact state_slices_cover_still.
Defined.

Lemma Roe_compute_flux_errors_witness :
  Roe.compute_flux Roe.Roe1D (air 1) [[ [0; 1; 3] ]] [[ [4; 0; 10] ]] [[ [2] ]]
  = Raise (NotPhysicalError "rhoL is negative").
Proof.
  destruct (Roe_compute_flux_errors Roe.Roe1D (air 1) [[ [0; 1; 3] ]] [[ [4; 0; 10] ]]
              [[ [2] ]]) as (H & _).
  apply H. apply Exists_cons_hd, Exists_cons_hd.
  cbv [Roe.density Roe.rotated Roe.n_hat Roe.rotate_coord_sys Roe.Roe1D
       Roe.rotate_coord_sys_1D].
  eval_euler. lra.
Defined.
